(** * A shallow embedding of the Risor virtual machine (package [vm], file
    [vm/vm.go]) and the properties of its dispatcher, call protocol, module
    loader and clone facility.

    Conventions.
    - Go [int] values are modelled by [Z]; the 16-bit instruction words are
      [Z] values reduced modulo [2^16] where the source converts to [uint16].
    - A Go interface value of type [object.Object] may be [nil]; it is
      modelled by [Value := option Object].
    - The fixed arrays [vm.stack], [vm.frames] and [vm.tmp] are finite maps
      from indices to their non-nil contents; every access checks the array
      bound as the Go runtime does and panics outside of it.
    - The dispatcher is reentrant ([eval] calls [call] and [loadModule], which
      call [eval]); the recursion is bounded by a fuel argument, and running
      out of fuel is a distinguished outcome, never a result.
    - The opcodes that need cells, closures, iterators, channels, attribute
      protocols, strings, sets, maps or spawning are outside the embedded
      fragment: reaching one is the distinguished outcome [Unmodelled]. *)

From Stdlib Require Import ZArith String Ascii DecimalString Lia.
From stdpp Require Import base option list strings gmap.

Open Scope string_scope.
Open Scope Z_scope.

(** ** Constants of the package *)

Definition MaxArgs : Z := 255.
Definition MaxFrameDepth : Z := 1024.
Definition MaxStackDepth : Z := 1024.
Definition StopSignal : Z := -1.

(** Go errors are modelled by their message. *)
Definition error := string.

(** [%d] of [fmt]. *)
Definition string_of_Z (z : Z) : string := NilZero.string_of_int (Z.to_int z).

(** [%q] of [fmt] on a string without special characters. *)
Definition quote (s : string) : string :=
  String (ascii_of_nat 34) (s ++ String (ascii_of_nat 34) EmptyString).

(** The error taxonomy of the package: every message built by the
    dispatcher starts with its category. *)
Definition type_error (msg : string) : error := "type error: " ++ msg.
Definition exec_error (msg : string) : error := "exec error: " ++ msg.
Definition import_error (msg : string) : error := "import error: " ++ msg.

(** ** Values

    Modelled from the spec: the value model of package [object], which is
    not part of the embedded file.  Only the kinds the embedded opcodes
    inspect are present.  A compiled code object carries an identity
    ([code_id], standing for the Go pointer), the identity of its root, the
    instruction stream, the constant pool, attribute names, the global symbol
    names of its root tree, the number of local slots and the named flag. *)

#[warnings="-register-all"]
Inductive Object : Type :=
| ONil
| OBool (b : bool)
| OInt (n : Z)
| OString (s : string)
| OList (items : list (option Object))
| OError (msg : string)
| OFunction (f : Function)
| OPartial (p : Partial)
| OBuiltin (name : string)
| OModule (m : Module)
with Function : Type :=
| mkFunction (Parameters : list string) (Defaults : list (option Object))
             (RequiredArgsCount : Z) (fn_code : Code)
with Partial : Type :=
| mkPartial (p_fn : option Object) (p_args : list (option Object))
with Code : Type :=
| mkCode (code_id root_id : nat) (Instructions : list Z)
         (Constants : list (option Object)) (Names : list string)
         (GlobalNames : list string) (LocalsCount : nat) (IsNamed : bool)
with Module : Type :=
| mkModule (m_name : string) (m_code : Code) (m_globals : option nat).

Definition Value := option Object.

Definition Parameters (f : Function) : list string :=
  match f with mkFunction ps _ _ _ => ps end.
Definition Defaults (f : Function) : list Value :=
  match f with mkFunction _ ds _ _ => ds end.
Definition RequiredArgsCount (f : Function) : Z :=
  match f with mkFunction _ _ r _ => r end.
Definition fn_code (f : Function) : Code :=
  match f with mkFunction _ _ _ c => c end.

Definition p_fn (p : Partial) : Value := match p with mkPartial f _ => f end.
Definition p_args (p : Partial) : list Value := match p with mkPartial _ a => a end.

Definition code_id (c : Code) : nat := match c with mkCode i _ _ _ _ _ _ _ => i end.
Definition root_id (c : Code) : nat := match c with mkCode _ r _ _ _ _ _ _ => r end.
Definition Instructions (c : Code) : list Z := match c with mkCode _ _ i _ _ _ _ _ => i end.
Definition Constants (c : Code) : list Value := match c with mkCode _ _ _ k _ _ _ _ => k end.
Definition Names (c : Code) : list string := match c with mkCode _ _ _ _ n _ _ _ => n end.
Definition GlobalNames (c : Code) : list string := match c with mkCode _ _ _ _ _ g _ _ => g end.
Definition LocalsCount (c : Code) : nat := match c with mkCode _ _ _ _ _ _ l _ => l end.
Definition IsNamed (c : Code) : bool := match c with mkCode _ _ _ _ _ _ _ b => b end.

Definition m_name (m : Module) : string := match m with mkModule n _ _ => n end.
Definition m_code (m : Module) : Code := match m with mkModule _ c _ => c end.
Definition m_globals (m : Module) : option nat := match m with mkModule _ _ g => g end.

(** [module.UseGlobals(globals)]: binds the module to a globals vector. *)
Definition UseGlobals (m : Module) (ref : nat) : Module :=
  mkModule (m_name m) (m_code m) (Some ref).

(** ** Opcodes (package [op]) *)

Module op.
Inductive Opcode : Type :=
| Nop | LoadAttr | LoadConst | LoadFast | LoadGlobal | LoadFree
| StoreFast | StoreGlobal | StoreFree | StoreAttr | LoadClosure | MakeCell
| Nil | True | False | CompareOp | BinaryOp | Call | Partial
| ReturnValue | PopJumpForwardIfTrue | PopJumpForwardIfFalse
| PopJumpBackwardIfTrue | PopJumpBackwardIfFalse | JumpForward | JumpBackward
| BuildList | BuildMap | BuildSet | BinarySubscr | StoreSubscr
| UnaryNegative | UnaryNot | ContainsOp | Swap | BuildString | Range | Slice
| Length | Copy | Import | FromImport | PopTop | Unpack | GetIter | ForIter
| Go | Defer | Send | Receive | Halt.
End op.

(** ** The container capability

    Modelled from the spec: [object.Container] (length, indexed get,
    iterator factory).  A view lists the elements in iteration order. *)

Record ContainerView : Type := mkContainer {
  c_len : Z;                                  (* Len().Value() *)
  c_items : list Value;                       (* what Iter()/Next yields *)
  c_get : Value -> Value * option error       (* GetItem(idx) *)
}.

(** Modelled from the spec: a list is a container whose length is its
    number of items, iterated from index 0 upwards, and whose indexed get
    with an integer [i] in range returns the item at position [i]. *)
Definition listGetItem (items : list Value) (idx : Value) : Value * option error :=
  match idx with
  | Some (OInt i) =>
      if (0 <=? i) && (i <? Z.of_nat (length items))
      then (default None (items !! Z.to_nat i), None)
      else (None, Some ("index error: index out of range: " ++ string_of_Z i))
  | _ => (None, Some (type_error "list index must be an int"))
  end.

Definition listContainer (items : list Value) : ContainerView :=
  {| c_len := Z.of_nat (length items);
     c_items := items;
     c_get := listGetItem items |}.

(** ** External collaborators

    The numbering of opcodes (package [op]), the value protocol beyond lists
    (package [object]) and [filepath.Join] are parameters of the embedding. *)

Class External : Type := {
  decodeOp : Z -> option op.Opcode;
  TypeOf : Object -> string;
  IsTruthy : Object -> bool;
  Compare : Z -> Value -> Value -> Value;
  BinaryOperation : Z -> Value -> Value -> Value;
  CallHost : string -> list Value -> Value;
  otherContainer : Object -> option ContainerView;
  pathJoin : list string -> string
}.

(** ** Frames and loaded code

    Modelled from the spec: the frame store of [vm/frame.go] and the loaded
    code wrapper of [vm/code.go], which are not part of the embedded file. *)

(** The loaded wrapper of a compiled code: the compiled code plus a
    reference to the globals vector shared by its root tree. *)
Record code : Type := mkLoaded {
  compiled : Code;
  Globals : nat
}.

Record frame : Type := mkFrame {
  f_code : option code;
  f_locals : list Value;
  f_defers : list Partial;
  returnAddr : Z;
  returnSp : Z;
  f_fn : option Function
}.

Definition zeroFrame : frame :=
  {| f_code := None; f_locals := []; f_defers := [];
     returnAddr := 0; returnSp := 0; f_fn := None |}.

(** Modelled from the spec: each activation writes all the fields of the
    frame; the locals array has the code's number of slots and starts with
    the supplied values. *)
Definition initLocals (n : nat) (vals : list Value) : list Value :=
  take n (vals ++ replicate n None).

(** Modelled from the spec: code activation binds no function; the return
    address lets the end of the code fall through. *)
Definition ActivateCode (c : code) : frame :=
  {| f_code := Some c;
     f_locals := initLocals (LocalsCount (compiled c)) [];
     f_defers := [];
     returnAddr := Z.of_nat (length (Instructions (compiled c)));
     returnSp := 0;
     f_fn := None |}.

Definition ActivateFunction (fn : Function) (c : code) (ra rsp : Z)
    (locals : list Value) : frame :=
  {| f_code := Some c;
     f_locals := initLocals (LocalsCount (compiled c)) locals;
     f_defers := [];
     returnAddr := ra;
     returnSp := rsp;
     f_fn := Some fn |}.

(** Modelled from the spec: [frame.Defer] of [vm/frame.go].  The defer
    list of a frame is last in, first out at fire time, and the teardown
    loop of [callFunction] ranges over it from its head: the partial
    registered last is put in front. *)
Definition frameDefer (p : Partial) (f : frame) : frame :=
  {| f_code := f_code f; f_locals := f_locals f;
     f_defers := p :: f_defers f;
     returnAddr := returnAddr f; returnSp := returnSp f; f_fn := f_fn f |}.

Definition frameSetLocals (l : list Value) (f : frame) : frame :=
  {| f_code := f_code f; f_locals := l; f_defers := f_defers f;
     returnAddr := returnAddr f; returnSp := returnSp f; f_fn := f_fn f |}.

Definition frameSetReturnAddr (ra : Z) (f : frame) : frame :=
  {| f_code := f_code f; f_locals := f_locals f; f_defers := f_defers f;
     returnAddr := ra; returnSp := returnSp f; f_fn := f_fn f |}.

(** ** The machine *)

(** The importer: [Import(ctx, name)] returns a module or an error.  It is
    an external collaborator, taken here to answer as a function of the
    name. *)
Definition Importer := string -> Module + error.

Record VirtualMachine : Type := mkVM {
  ip : Z;
  sp : Z;
  fp : Z;
  halt : Z;
  stack : gmap Z Object;          (* [MaxStackDepth]object.Object *)
  frames : gmap Z frame;          (* [MaxFrameDepth]frame *)
  tmp : gmap Z Object;            (* [MaxArgs]object.Object *)
  activeFrame : option Z;         (* &vm.frames[i], or nil *)
  activeCode : option code;
  main : Code;
  importer : option Importer;
  modules : gmap string Module;
  inputGlobals : gmap string Object;
  globals : gmap string Object;
  loadedCode : gmap nat nat;      (* compiled code identity -> globals vector *)
  running : bool;
  concAllowed : bool;
  heap : list (list Value)        (* the globals vectors allocated so far *)
}.

Definition with_ip (v : Z) (vm : VirtualMachine) : VirtualMachine :=
  mkVM v (sp vm) (fp vm) (halt vm) (stack vm) (frames vm) (tmp vm)
       (activeFrame vm) (activeCode vm) (main vm) (importer vm) (modules vm)
       (inputGlobals vm) (globals vm) (loadedCode vm) (running vm)
       (concAllowed vm) (heap vm).
Definition with_sp (v : Z) (vm : VirtualMachine) : VirtualMachine :=
  mkVM (ip vm) v (fp vm) (halt vm) (stack vm) (frames vm) (tmp vm)
       (activeFrame vm) (activeCode vm) (main vm) (importer vm) (modules vm)
       (inputGlobals vm) (globals vm) (loadedCode vm) (running vm)
       (concAllowed vm) (heap vm).
Definition with_fp (v : Z) (vm : VirtualMachine) : VirtualMachine :=
  mkVM (ip vm) (sp vm) v (halt vm) (stack vm) (frames vm) (tmp vm)
       (activeFrame vm) (activeCode vm) (main vm) (importer vm) (modules vm)
       (inputGlobals vm) (globals vm) (loadedCode vm) (running vm)
       (concAllowed vm) (heap vm).
Definition with_halt (v : Z) (vm : VirtualMachine) : VirtualMachine :=
  mkVM (ip vm) (sp vm) (fp vm) v (stack vm) (frames vm) (tmp vm)
       (activeFrame vm) (activeCode vm) (main vm) (importer vm) (modules vm)
       (inputGlobals vm) (globals vm) (loadedCode vm) (running vm)
       (concAllowed vm) (heap vm).
Definition with_stack (v : gmap Z Object) (vm : VirtualMachine) : VirtualMachine :=
  mkVM (ip vm) (sp vm) (fp vm) (halt vm) v (frames vm) (tmp vm)
       (activeFrame vm) (activeCode vm) (main vm) (importer vm) (modules vm)
       (inputGlobals vm) (globals vm) (loadedCode vm) (running vm)
       (concAllowed vm) (heap vm).
Definition with_frames (v : gmap Z frame) (vm : VirtualMachine) : VirtualMachine :=
  mkVM (ip vm) (sp vm) (fp vm) (halt vm) (stack vm) v (tmp vm)
       (activeFrame vm) (activeCode vm) (main vm) (importer vm) (modules vm)
       (inputGlobals vm) (globals vm) (loadedCode vm) (running vm)
       (concAllowed vm) (heap vm).
Definition with_tmp (v : gmap Z Object) (vm : VirtualMachine) : VirtualMachine :=
  mkVM (ip vm) (sp vm) (fp vm) (halt vm) (stack vm) (frames vm) v
       (activeFrame vm) (activeCode vm) (main vm) (importer vm) (modules vm)
       (inputGlobals vm) (globals vm) (loadedCode vm) (running vm)
       (concAllowed vm) (heap vm).
Definition with_active (f : option Z) (c : option code) (vm : VirtualMachine)
    : VirtualMachine :=
  mkVM (ip vm) (sp vm) (fp vm) (halt vm) (stack vm) (frames vm) (tmp vm)
       f c (main vm) (importer vm) (modules vm)
       (inputGlobals vm) (globals vm) (loadedCode vm) (running vm)
       (concAllowed vm) (heap vm).
Definition with_importer (v : option Importer) (vm : VirtualMachine) : VirtualMachine :=
  mkVM (ip vm) (sp vm) (fp vm) (halt vm) (stack vm) (frames vm) (tmp vm)
       (activeFrame vm) (activeCode vm) (main vm) v (modules vm)
       (inputGlobals vm) (globals vm) (loadedCode vm) (running vm)
       (concAllowed vm) (heap vm).
Definition with_modules (v : gmap string Module) (vm : VirtualMachine) : VirtualMachine :=
  mkVM (ip vm) (sp vm) (fp vm) (halt vm) (stack vm) (frames vm) (tmp vm)
       (activeFrame vm) (activeCode vm) (main vm) (importer vm) v
       (inputGlobals vm) (globals vm) (loadedCode vm) (running vm)
       (concAllowed vm) (heap vm).
Definition with_inputGlobals (v : gmap string Object) (vm : VirtualMachine)
    : VirtualMachine :=
  mkVM (ip vm) (sp vm) (fp vm) (halt vm) (stack vm) (frames vm) (tmp vm)
       (activeFrame vm) (activeCode vm) (main vm) (importer vm) (modules vm)
       v (globals vm) (loadedCode vm) (running vm)
       (concAllowed vm) (heap vm).
Definition with_globals (v : gmap string Object) (vm : VirtualMachine) : VirtualMachine :=
  mkVM (ip vm) (sp vm) (fp vm) (halt vm) (stack vm) (frames vm) (tmp vm)
       (activeFrame vm) (activeCode vm) (main vm) (importer vm) (modules vm)
       (inputGlobals vm) v (loadedCode vm) (running vm)
       (concAllowed vm) (heap vm).
Definition with_loadedCode (v : gmap nat nat) (vm : VirtualMachine) : VirtualMachine :=
  mkVM (ip vm) (sp vm) (fp vm) (halt vm) (stack vm) (frames vm) (tmp vm)
       (activeFrame vm) (activeCode vm) (main vm) (importer vm) (modules vm)
       (inputGlobals vm) (globals vm) v (running vm)
       (concAllowed vm) (heap vm).
Definition with_running (v : bool) (vm : VirtualMachine) : VirtualMachine :=
  mkVM (ip vm) (sp vm) (fp vm) (halt vm) (stack vm) (frames vm) (tmp vm)
       (activeFrame vm) (activeCode vm) (main vm) (importer vm) (modules vm)
       (inputGlobals vm) (globals vm) (loadedCode vm) v
       (concAllowed vm) (heap vm).
Definition with_concAllowed (v : bool) (vm : VirtualMachine) : VirtualMachine :=
  mkVM (ip vm) (sp vm) (fp vm) (halt vm) (stack vm) (frames vm) (tmp vm)
       (activeFrame vm) (activeCode vm) (main vm) (importer vm) (modules vm)
       (inputGlobals vm) (globals vm) (loadedCode vm) (running vm)
       v (heap vm).
Definition with_heap (v : list (list Value)) (vm : VirtualMachine) : VirtualMachine :=
  mkVM (ip vm) (sp vm) (fp vm) (halt vm) (stack vm) (frames vm) (tmp vm)
       (activeFrame vm) (activeCode vm) (main vm) (importer vm) (modules vm)
       (inputGlobals vm) (globals vm) (loadedCode vm) (running vm)
       (concAllowed vm) v.

(** An array slot holding a possibly-nil interface value. *)
Definition slot_set (i : Z) (v : Value) (m : gmap Z Object) : gmap Z Object :=
  match v with
  | Some o => <[i := o]> m
  | None => delete i m
  end.

(** [a[:n]] of an array of interface values. *)
Definition slice_to (m : gmap Z Object) (n : Z) : list Value :=
  (fun i => m !! i) <$> seqZ 0 n.

(** [copy(a[off:], vs)]. *)
Fixpoint copy_at (off : Z) (vs : list Value) (m : gmap Z Object) : gmap Z Object :=
  match vs with
  | [] => m
  | v :: rest => copy_at (off + 1) rest (slot_set off v m)
  end.

(** The frame stored at an index of [vm.frames]. *)
Definition frameAt (vm : VirtualMachine) (i : Z) : frame :=
  default zeroFrame (frames vm !! i).

(** ** Outcomes and the machine monad *)

Inductive Result (A : Type) : Type :=
| Ret (a : A)              (* the Go function returned *)
| Panic (detail : string)  (* a Go panic is unwinding *)
| OutOfFuel                (* the recursion budget of the model ran out *)
| Unmodelled (o : op.Opcode) (* an opcode outside the embedded fragment *).
Arguments Ret {A} a.
Arguments Panic {A} detail.
Arguments OutOfFuel {A}.
Arguments Unmodelled {A} o.

Definition M (A : Type) : Type := VirtualMachine -> Result A * VirtualMachine.

Definition ret {A} (a : A) : M A := fun vm => (Ret a, vm).

Definition bind {A B} (m : M A) (k : A -> M B) : M B :=
  fun vm =>
    match m vm with
    | (Ret a, vm') => k a vm'
    | (Panic d, vm') => (Panic d, vm')
    | (OutOfFuel, vm') => (OutOfFuel, vm')
    | (Unmodelled o, vm') => (Unmodelled o, vm')
    end.

Declare Scope vm_scope.
Delimit Scope vm_scope with vm.
Notation "x <- m ;; k" := (bind m (fun x => k))
  (at level 100, m at next level, right associativity) : vm_scope.
Notation "m ;;; k" := (bind m (fun _ => k))
  (at level 100, right associativity) : vm_scope.
Open Scope vm_scope.

Definition panic {A} (d : string) : M A := fun vm => (Panic d, vm).
Definition gets {A} (f : VirtualMachine -> A) : M A := fun vm => (Ret (f vm), vm).
Definition modify (f : VirtualMachine -> VirtualMachine) : M unit :=
  fun vm => (Ret tt, f vm).

(** Messages of the Go runtime. *)
Definition nilDeref : string :=
  "runtime error: invalid memory address or nil pointer dereference".
Definition indexOutOfRange (i len : Z) : string :=
  if i <? 0
  then "runtime error: index out of range [" ++ string_of_Z i ++ "]"
  else "runtime error: index out of range [" ++ string_of_Z i
       ++ "] with length " ++ string_of_Z len.
Definition sliceOutOfRange (n cap : Z) : string :=
  "runtime error: slice bounds out of range [:" ++ string_of_Z n
  ++ "] with capacity " ++ string_of_Z cap.

(** Bounds check of an index expression. *)
Definition checkIndex (i len : Z) : M unit :=
  if (0 <=? i) && (i <? len) then ret tt else panic (indexOutOfRange i len).

(** [l[i]] on a slice. *)
Definition index {A} (dflt : A) (l : list A) (i : Z) : M A :=
  checkIndex i (Z.of_nat (length l));;;
  ret (default dflt (l !! Z.to_nat i)).

(** ** Stack primitives *)

Definition pop : M Value :=
  s <- gets sp;;
  checkIndex s MaxStackDepth;;;
  obj <- gets (fun vm => stack vm !! s);;
  modify (fun vm => with_sp (s - 1) (with_stack (delete s (stack vm)) vm));;;
  ret obj.

Definition push (obj : Value) : M unit :=
  modify (fun vm => with_sp (sp vm + 1) vm);;;
  s <- gets sp;;
  checkIndex s MaxStackDepth;;;
  modify (fun vm => with_stack (slot_set s obj (stack vm)) vm).

Definition swap (pos : Z) : M unit :=
  s <- gets sp;;
  let otherIndex := s - pos in
  checkIndex s MaxStackDepth;;;
  tos <- gets (fun vm => stack vm !! s);;
  checkIndex otherIndex MaxStackDepth;;;
  other <- gets (fun vm => stack vm !! otherIndex);;
  modify (fun vm => with_stack (slot_set otherIndex tos (stack vm)) vm);;;
  modify (fun vm => with_stack (slot_set s other (stack vm)) vm).

(** The active code, as dereferenced by the dispatcher. *)
Definition theCode : M code :=
  c <- gets activeCode;;
  match c with
  | Some c => ret c
  | None => panic nilDeref
  end.

Definition fetch : M Z :=
  i <- gets ip;;
  modify (with_ip (i + 1));;;
  c <- theCode;;
  w <- index 0 (Instructions (compiled c)) i;;
  ret (w mod 65536).

Definition TOS (vm : VirtualMachine) : Value * bool :=
  if 0 <=? sp vm then (stack vm !! sp vm, true) else (None, false).

Definition GetIP (vm : VirtualMachine) : Z := ip vm.
Definition SetIP (value : Z) (vm : VirtualMachine) : VirtualMachine := with_ip value vm.

(** ** The loaded code registry *)

(** Modelled from the spec: [loadRootCode] allocates a fresh globals
    vector with one slot per global symbol, pre-populated from the host
    globals whose names match. *)
Definition loadRootCode (cc : Code) : M code :=
  ref <- gets (fun vm => length (heap vm));;
  modify (fun vm =>
    with_heap (heap vm ++ [(fun n => globals vm !! n) <$> GlobalNames cc]) vm);;;
  ret (mkLoaded cc ref).

Definition register (id ref : nat) : M unit :=
  modify (fun vm => with_loadedCode (<[id := ref]> (loadedCode vm)) vm).

(** [vm.load]: wrap a compiled code, once per identity; a child shares the
    globals vector of its root, which is loaded first when needed. *)
Definition load (cc : Code) : M code :=
  reg <- gets loadedCode;;
  match reg !! code_id cc with
  | Some ref => ret (mkLoaded cc ref)
  | None =>
      if Nat.eqb (root_id cc) (code_id cc)
      then c <- loadRootCode cc;;
           register (code_id cc) (Globals c);;;
           ret c
      else rootRef <- match reg !! root_id cc with
                      | Some r => ret r
                      | None => c <- loadRootCode cc;;
                                register (root_id cc) (Globals c);;;
                                ret (Globals c)
                      end;;
           register (code_id cc) rootRef;;;
           ret (mkLoaded cc rootRef)
  end.

(** [copy(dst, src)] on slices. *)
Definition copyList {A} (dst src : list A) : list A :=
  take (length dst) src ++ drop (length src) dst.

(** [vm.reload]: reload the main code while preserving global variables. *)
Definition reload (main_ : Code) : M code :=
  reg <- gets loadedCode;;
  match reg !! code_id main_ with
  | None => panic "main code not loaded"
  | Some oldRef =>
      modify (with_loadedCode ∅);;;
      newWrappedMain <- load main_;;
      modify (fun vm =>
        let old := default [] (heap vm !! oldRef) in
        let new := default [] (heap vm !! Globals newWrappedMain) in
        with_heap (<[Globals newWrappedMain := copyList new old]> (heap vm)) vm);;;
      ret newWrappedMain
  end.

(** Modelled from the spec: a module exposes the globals it is bound to as
    attributes, by name. *)
Definition moduleGetAttr (hp : list (list Value)) (m : Module) (name : string)
    : Value * bool :=
  match m_globals m, list_find (fun n => n = name) (GlobalNames (m_code m)) with
  | Some ref, Some (i, _) => (default None (default [] (hp !! ref) !! i), true)
  | _, _ => (None, false)
  end.

(** ** Frame activation and teardown *)

(** The frame the dispatcher is executing, [*vm.activeFrame]. *)
Definition theFrame : M (Z * frame) :=
  a <- gets activeFrame;;
  match a with
  | Some i => f <- gets (fun vm => frameAt vm i);; ret (i, f)
  | None => panic nilDeref
  end.

Definition setFrame (i : Z) (f : frame) : M unit :=
  modify (fun vm => with_frames (<[i := f]> (frames vm)) vm).

(** [for i := vm.sp; i > sp; i-- { vm.stack[i] = nil }] *)
Fixpoint clearSlots (n : nat) (i : Z) : M unit :=
  match n with
  | O => ret tt
  | S n' =>
      checkIndex i MaxStackDepth;;;
      modify (fun vm => with_stack (delete i (stack vm)) vm);;;
      clearSlots n' (i - 1)
  end.

Definition resumeFrame (fp_ ip_ sp_ : Z) : M unit :=
  cur <- gets sp;;
  frameResult <- (if sp_ <? cur then pop else ret None);;
  cur' <- gets sp;;
  clearSlots (Z.to_nat (cur' - sp_)) cur';;;
  modify (with_sp sp_);;;
  match frameResult with
  | Some _ => push frameResult
  | None => ret tt
  end;;;
  modify (with_fp fp_);;;
  modify (with_ip ip_);;;
  checkIndex fp_ MaxFrameDepth;;;
  modify (fun vm => with_active (Some fp_) (f_code (frameAt vm fp_)) vm).

Definition activateCode (fp_ ip_ : Z) (c : code) : M unit :=
  modify (with_fp fp_);;;
  modify (with_ip ip_);;;
  checkIndex fp_ MaxFrameDepth;;;
  setFrame fp_ (ActivateCode c);;;
  modify (with_active (Some fp_) (Some c)).

Definition activateFunction (fp_ ip_ : Z) (fn : Function) (locals : list Value)
    : M unit :=
  c <- load (fn_code fn);;
  ra <- gets ip;;
  rsp <- gets sp;;
  modify (with_fp fp_);;;
  modify (with_ip ip_);;;
  checkIndex fp_ MaxFrameDepth;;;
  setFrame fp_ (ActivateFunction fn c ra rsp locals);;;
  modify (with_active (Some fp_) (Some c)).

(** ** Argument checking *)

Definition checkCallArgs (fn : Function) (argc : Z) : option error :=
  let paramsCount := Z.of_nat (length (Parameters fn)) in
  let requiredArgsCount := RequiredArgsCount fn in
  if (paramsCount <? argc) || (argc <? requiredArgsCount) then
    match paramsCount with
    | 0 => Some (type_error ("function takes no arguments ("
                             ++ string_of_Z argc ++ " given)"))
    | 1 => Some (type_error ("function takes 1 argument ("
                             ++ string_of_Z argc ++ " given)"))
    | _ => Some (type_error ("function takes " ++ string_of_Z paramsCount
                             ++ " arguments (" ++ string_of_Z argc ++ " given)"))
    end
  else None.

(** ** Go's [defer] and [recover] *)

(** [deferring onReturn onPanic body]: the deferred function runs when the
    body returns (where it may change the named results) and when a panic
    unwinds through it; a panic of the deferred function replaces the one in
    flight. *)
Definition deferring {A} (onReturn : A -> M A) (onPanic : M unit) (body : M A)
    : M A :=
  fun vm =>
    match body vm with
    | (Ret a, vm1) => onReturn a vm1
    | (Panic d, vm1) =>
        match onPanic vm1 with
        | (Ret _, vm2) => (Panic d, vm2)
        | (Panic d', vm2) => (Panic d', vm2)
        | (OutOfFuel, vm2) => (OutOfFuel, vm2)
        | (Unmodelled o, vm2) => (Unmodelled o, vm2)
        end
    | (OutOfFuel, vm1) => (OutOfFuel, vm1)
    | (Unmodelled o, vm1) => (Unmodelled o, vm1)
    end.

Definition withDefer {A} (d : M unit) (body : M A) : M A :=
  deferring (fun a => d;;; ret a) d body.

(** [defer func() { if r := recover(); r != nil { err = fmt.Errorf("panic: %v", r) } }()] *)
Definition recovering (body : M (option error)) : M (option error) :=
  fun vm =>
    match body vm with
    | (Panic d, vm1) => (Ret (Some ("panic: " ++ d)), vm1)
    | other => other
    end.

(** The evaluation context: [ctx.Err()] is what the dispatcher reports when
    it observes the halt flag. *)
Record Context : Type := mkContext { ctxErr : option error }.

(** What the goroutine started by [Run] does once the context is done:
    [atomic.StoreInt32(&vm.halt, 1)]. *)
Definition haltStore (vm : VirtualMachine) : VirtualMachine := with_halt 1 vm.

(** ** The dispatcher *)

(** How one iteration of the dispatch loop ends. *)
Inductive Flow : Type :=
| Continue                      (* go on with the next instruction *)
| Return (err : option error)   (* [return err] from [eval] *).

Definition wrap64 (n : Z) : Z := (n + 2 ^ 63) mod 2 ^ 64 - 2 ^ 63.

Section Dispatcher.
Context `{External}.

Definition failf (msg : error) : M Flow := ret (Return (Some msg)).

(** [obj.Type()] through an interface value. *)
Definition typeName (v : Value) : M string :=
  match v with
  | Some o => ret (TypeOf o)
  | None => panic nilDeref
  end.

(** [obj.(object.Container)] *)
Definition asContainer (v : Value) : option ContainerView :=
  match v with
  | Some (OList items) => Some (listContainer items)
  | Some o => otherContainer o
  | None => None
  end.

Definition notA (what : string) (v : Value) : M Flow :=
  t <- typeName v;;
  failf (type_error ("object is not " ++ what ++ " (got " ++ t ++ ")")).

(** [for i := 0; i < count; i++ { items[dst(i)] = vm.pop() }], from
    iteration [i], with [n] iterations left. *)
Fixpoint popLoop (n i : nat) (dst : nat -> nat) (items : list Value)
    : M (list Value) :=
  match n with
  | O => ret items
  | S n' =>
      v <- pop;;
      popLoop n' (S i) dst (<[dst i := v]> items)
  end.

(** [for argIndex := argc - 1; argIndex >= 0; argIndex-- { vm.tmp[argIndex] = vm.pop() }] *)
Fixpoint popToTmp (argc : nat) : M unit :=
  match argc with
  | O => ret tt
  | S argIndex =>
      v <- pop;;
      checkIndex (Z.of_nat argIndex) MaxArgs;;;
      modify (fun vm => with_tmp (slot_set (Z.of_nat argIndex) v (tmp vm)) vm);;;
      popToTmp argIndex
  end.

(** [vm.tmp[:n]] *)
Definition sliceTmp (n : Z) : M (list Value) :=
  if (0 <=? n) && (n <=? MaxArgs)
  then gets (fun vm => slice_to (tmp vm) n)
  else panic (sliceOutOfRange n MaxArgs).

(** [for i := from; i < len(vs); i++ { vm.tmp[i] = vs[i] }], on the values
    from index [i] on. *)
Fixpoint storeTmp (i : Z) (vs : list Value) : M unit :=
  match vs with
  | [] => ret tt
  | v :: rest =>
      checkIndex i MaxArgs;;;
      modify (fun vm => with_tmp (slot_set i v (tmp vm)) vm);;;
      storeTmp (i + 1) rest
  end.

(** The iteration of [Unpack]: push every value the iterator yields. *)
Fixpoint pushAll (vs : list Value) : M unit :=
  match vs with
  | [] => ret tt
  | v :: rest => push v;;; pushAll rest
  end.

(** The first loop of [FromImport]: pop [k] names, in pop order. *)
Fixpoint popNames (k : nat) (names : list string) : M (list string + error) :=
  match k with
  | O => ret (inl names)
  | S k' =>
      v <- pop;;
      match v with
      | Some (OString name) => popNames k' (names ++ [name])
      | _ => ret (inr (type_error ("object is not a string (got "
                                   ++ TypeOf (OString "") ++ ")")))
      end
  end.

(** The second loop of [FromImport]: [for i := k - 1; i >= 0; i--] pop a
    string into [from[i]]. *)
Fixpoint popFrom (k : nat) (from : list string) : M (list string + error) :=
  match k with
  | O => ret (inl from)
  | S i =>
      v <- pop;;
      match v with
      | Some (OString s) =>
          checkIndex (Z.of_nat i) (Z.of_nat (length from));;;
          popFrom i (<[i := s]> from)
      | _ => ret (inr (type_error ("object is not a string (got "
                                   ++ TypeOf (OString "") ++ ")")))
      end
  end.

(** The third loop of [FromImport]: a name is a submodule of the parent
    or, failing that, an attribute of the parent module. *)
Fixpoint importNames (loadModule_ : string -> M (Module + error))
    (from : list string) (names : list string) : M Flow :=
  match names with
  | [] => ret Continue
  | name :: rest =>
      r <- loadModule_ (pathJoin [pathJoin from; name]);;
      match r with
      | inl module => push (Some (OModule module));;;
                      importNames loadModule_ from rest
      | inr _ =>
          r2 <- loadModule_ (pathJoin from);;
          match r2 with
          | inr err => failf err
          | inl module =>
              hp <- gets heap;;
              match moduleGetAttr hp module name with
              | (_, false) =>
                  failf (import_error ("cannot import name " ++ quote name
                                       ++ " from " ++ quote (m_name module)))
              | (attr, true) => push attr;;;
                                importNames loadModule_ from rest
              end
          end
      end
  end.

(** The conditional jumps share one shape: pop, fetch, test, shift. *)
Definition popJump (wanted : bool) (shift : Z -> Z -> Z) : M Flow :=
  tos <- pop;;
  operand <- fetch;;
  let delta := operand - 2 in
  match tos with
  | None => panic nilDeref
  | Some o =>
      if Bool.eqb (IsTruthy o) wanted
      then modify (fun vm => with_ip (shift (ip vm) delta) vm);;; ret Continue
      else ret Continue
  end.

(** The [switch opcode] of [eval], for the instruction whose opcode word was
    just read and stepped over.  The two reentrant operations are
    parameters: [call_] is [vm.call] and [loadModule_] is [vm.loadModule]. *)
Definition dispatch (call_ : Value -> list Value -> M (option error))
    (loadModule_ : string -> M (Module + error)) (opcode : Z) : M Flow :=
  match decodeOp opcode with
  | Some op.Nop => ret Continue
  | Some op.LoadConst =>
      idx <- fetch;;
      c <- theCode;;
      v <- index None (Constants (compiled c)) idx;;
      push v;;; ret Continue
  | Some op.LoadFast =>
      fr <- theFrame;;
      idx <- fetch;;
      v <- index None (f_locals fr.2) idx;;
      push v;;; ret Continue
  | Some op.LoadGlobal =>
      c <- theCode;;
      idx <- fetch;;
      vec <- gets (fun vm => default [] (heap vm !! Globals c));;
      v <- index None vec idx;;
      push v;;; ret Continue
  | Some op.StoreFast =>
      idx <- fetch;;
      obj <- pop;;
      fr <- theFrame;;
      checkIndex idx (Z.of_nat (length (f_locals fr.2)));;;
      setFrame fr.1 (frameSetLocals (<[Z.to_nat idx := obj]> (f_locals fr.2)) fr.2);;;
      ret Continue
  | Some op.StoreGlobal =>
      c <- theCode;;
      idx <- fetch;;
      obj <- pop;;
      vec <- gets (fun vm => default [] (heap vm !! Globals c));;
      checkIndex idx (Z.of_nat (length vec));;;
      modify (fun vm =>
        with_heap (<[Globals c := <[Z.to_nat idx := obj]> vec]> (heap vm)) vm);;;
      ret Continue
  | Some op.Nil => push (Some ONil);;; ret Continue
  | Some op.True => push (Some (OBool true));;; ret Continue
  | Some op.False => push (Some (OBool false));;; ret Continue
  | Some op.CompareOp =>
      opType <- fetch;;
      b <- pop;;
      a <- pop;;
      push (Compare opType a b);;; ret Continue
  | Some op.BinaryOp =>
      opType <- fetch;;
      b <- pop;;
      a <- pop;;
      push (BinaryOperation opType a b);;; ret Continue
  | Some op.Call =>
      argc <- fetch;;
      popToTmp (Z.to_nat argc);;;
      obj <- pop;;
      args <- sliceTmp argc;;
      err <- call_ obj args;;
      match err with
      | Some e => ret (Return (Some e))
      | None => ret Continue
      end
  | Some op.Partial =>
      argc <- fetch;;
      let n := Z.to_nat argc in
      args <- popLoop n 0 (fun i => (n - 1 - i)%nat) (replicate n None);;
      obj <- pop;;
      push (Some (OPartial (mkPartial obj args)));;; ret Continue
  | Some op.ReturnValue =>
      fr <- theFrame;;
      let returnAddr_ := returnAddr fr.2 in
      let returnSp_ := returnSp fr.2 in
      returnFp <- gets (fun vm => fp vm - 1);;
      resumeFrame returnFp returnAddr_ returnSp_;;;
      if returnAddr_ =? StopSignal then ret (Return None) else ret Continue
  | Some op.PopJumpForwardIfTrue => popJump true (fun i delta => i + delta)
  | Some op.PopJumpForwardIfFalse => popJump false (fun i delta => i + delta)
  | Some op.PopJumpBackwardIfTrue => popJump true (fun i delta => i - delta)
  | Some op.PopJumpBackwardIfFalse => popJump false (fun i delta => i - delta)
  | Some op.JumpForward =>
      base <- gets (fun vm => ip vm - 1);;
      delta <- fetch;;
      modify (with_ip (base + delta));;; ret Continue
  | Some op.JumpBackward =>
      base <- gets (fun vm => ip vm - 1);;
      delta <- fetch;;
      modify (with_ip (base - delta));;; ret Continue
  | Some op.BuildList =>
      count <- fetch;;
      let n := Z.to_nat count in
      items <- popLoop n 0 (fun i => (n - 1 - i)%nat) (replicate n None);;
      push (Some (OList items));;; ret Continue
  | Some op.BinarySubscr =>
      idx <- pop;;
      lhs <- pop;;
      match asContainer lhs with
      | None => notA "a container" lhs
      | Some container =>
          match c_get container idx with
          | (_, Some err) => failf err
          | (result, None) => push result;;; ret Continue
          end
      end
  | Some op.UnaryNegative =>
      obj <- pop;;
      match obj with
      | Some (OInt n) => push (Some (OInt (wrap64 (- n))));;; ret Continue
      | _ => notA "a number" obj
      end
  | Some op.UnaryNot =>
      obj <- pop;;
      match obj with
      | None => panic nilDeref
      | Some o =>
          (if IsTruthy o then push (Some (OBool false))
           else push (Some (OBool true)));;;
          ret Continue
      end
  | Some op.Swap =>
      pos <- fetch;;
      swap pos;;; ret Continue
  | Some op.Length =>
      containerObj <- pop;;
      match asContainer containerObj with
      | None => notA "a container" containerObj
      | Some container => push (Some (OInt (c_len container)));;; ret Continue
      end
  | Some op.Copy =>
      offset <- fetch;;
      s <- gets sp;;
      checkIndex (s - offset) MaxStackDepth;;;
      v <- gets (fun vm => stack vm !! (s - offset));;
      push v;;; ret Continue
  | Some op.Import =>
      v <- pop;;
      match v with
      | Some (OString name) =>
          r <- loadModule_ name;;
          match r with
          | inr err => failf err
          | inl module => push (Some (OModule module));;; ret Continue
          end
      | _ => failf (type_error ("object is not a string (got "
                                ++ TypeOf (OString "") ++ ")"))
      end
  | Some op.FromImport =>
      parentLen <- fetch;;
      importsCount <- fetch;;
      if 255 <? importsCount
      then failf (exec_error ("invalid imports count: " ++ string_of_Z importsCount))
      else
        names <- popNames (Z.to_nat importsCount) [];;
        match names with
        | inr err => failf err
        | inl names =>
            from <- popFrom (Z.to_nat ((parentLen - 1) mod 65536 + 1))
                            (replicate (Z.to_nat parentLen) "");;
            match from with
            | inr err => failf err
            | inl from => importNames loadModule_ from names
            end
        end
  | Some op.PopTop => pop;;; ret Continue
  | Some op.Unpack =>
      containerObj <- pop;;
      nameCount <- fetch;;
      match asContainer containerObj with
      | None => notA "a container" containerObj
      | Some container =>
          let containerSize := c_len container in
          if negb (containerSize =? nameCount)
          then failf (exec_error ("unpack count mismatch: "
                                  ++ string_of_Z containerSize ++ " != "
                                  ++ string_of_Z nameCount))
          else pushAll (c_items container);;; ret Continue
      end
  | Some op.Defer =>
      obj <- pop;;
      match obj with
      | Some (OPartial partial) =>
          fr <- theFrame;;
          setFrame fr.1 (frameDefer partial fr.2);;; ret Continue
      | _ => notA "a partial" obj
      end
  | Some op.Halt => ret (Return None)
  | Some o => fun vm => (Unmodelled o, vm)
  | None => failf (exec_error ("unknown opcode: " ++ string_of_Z opcode))
  end.

(** The deferred closure of [callFunction]:
    [for _, partial := range callFrame.defers { if err := vm.call(...); err != nil
       { result = nil; resultErr = err } }] *)
Fixpoint fireDefers (call_ : Value -> list Value -> M (option error))
    (partials : list Partial) (res : Value + error) : M (Value + error) :=
  match partials with
  | [] => ret res
  | partial :: rest =>
      err <- call_ (p_fn partial) (p_args partial);;
      fireDefers call_ rest (match err with
                             | Some e => inr e
                             | None => res
                             end)
  end.

(** The body of [callFunction] between the argument check and the
    evaluation: assemble the locals in [vm.tmp] and activate the frame. *)
Definition enterFunction (fn : Function) (args : list Value) : M Z :=
  let paramsCount := Z.of_nat (length (Parameters fn)) in
  let argc := Z.of_nat (length args) in
  _ <- sliceTmp argc;;
  modify (fun vm => with_tmp (copy_at 0 args (tmp vm)) vm);;;
  argc <- (if argc <? paramsCount
           then storeTmp argc (drop (Z.to_nat argc) (Defaults fn));;;
                ret paramsCount
           else ret argc);;
  argc <- (if IsNamed (fn_code fn)
           then checkIndex paramsCount MaxArgs;;;
                modify (fun vm =>
                  with_tmp (slot_set paramsCount (Some (OFunction fn)) (tmp vm)) vm);;;
                ret (argc + 1)
           else ret argc);;
  locals <- sliceTmp argc;;
  newFp <- gets (fun vm => fp vm + 1);;
  activateFunction newFp 0 fn locals;;;
  fr <- theFrame;;
  setFrame fr.1 (frameSetReturnAddr StopSignal fr.2);;;
  ret fr.1.

Fixpoint eval (fuel : nat) (ctx : Context) {struct fuel} : M (option error) :=
  fun vm =>
    match activeCode vm with
    | None => (Panic nilDeref, vm)
    | Some c =>
        if ip vm <? Z.of_nat (length (Instructions (compiled c))) then
          if halt vm =? 1 then (Ret (ctxErr ctx), vm)
          else
            match fuel with
            | O => (OutOfFuel, vm)
            | S n =>
                (opcode <- index 0 (Instructions (compiled c)) (ip vm);;
                 modify (fun vm => with_ip (ip vm + 1) vm);;;
                 flow <- dispatch (call n ctx) (loadModule n ctx) opcode;;
                 match flow with
                 | Continue => eval n ctx
                 | Return err => ret err
                 end) vm
            end
        else (Ret None, vm)
    end

with call (fuel : nat) (ctx : Context) (fn : Value) (args : list Value)
    {struct fuel} : M (option error) :=
  match fuel with
  | O => fun vm => (OutOfFuel, vm)
  | S n =>
      let argc := Z.of_nat (length args) in
      match fn with
      | Some (OFunction fn) =>
          r <- callFunction n ctx fn args;;
          match r with
          | inr err => ret (Some err)
          | inl result => push result;;; ret None
          end
      | Some (OPartial fn) =>
          let expandedCount := argc + Z.of_nat (length (p_args fn)) in
          if MaxArgs <? expandedCount
          then ret (Some (exec_error ("max arguments limit of " ++ string_of_Z MaxArgs
                                      ++ " exceeded (got "
                                      ++ string_of_Z expandedCount ++ ")")))
          else
            modify (fun vm => with_tmp (copy_at 0 args (tmp vm)) vm);;;
            modify (fun vm => with_tmp (copy_at argc (p_args fn) (tmp vm)) vm);;;
            args' <- sliceTmp expandedCount;;
            call n ctx (p_fn fn) args'
      | Some (OBuiltin name) =>
          match CallHost name args with
          | Some (OError msg) => ret (Some msg)
          | result => push result;;; ret None
          end
      | Some o =>
          ret (Some (type_error ("object is not callable (got " ++ TypeOf o ++ ")")))
      | None => panic nilDeref
      end
  end

with callFunction (fuel : nat) (ctx : Context) (fn : Function) (args : list Value)
    {struct fuel} : M (Value + error) :=
  fun vm =>
    let baseFP := fp vm in
    let baseIP := ip vm in
    let baseSP := sp vm in
    match checkCallArgs fn (Z.of_nat (length args)) with
    | Some err => (Ret (inr err), vm)
    | None =>
        match fuel with
        | O => (OutOfFuel, vm)
        | S n =>
            withDefer (resumeFrame baseFP baseIP baseSP)
              (callFrame <- enterFunction fn args;;
               deferring
                 (fun res =>
                    ds <- gets (fun vm => f_defers (frameAt vm callFrame));;
                    fireDefers (call n ctx) ds res)
                 (ds <- gets (fun vm => f_defers (frameAt vm callFrame));;
                  fireDefers (call n ctx) ds (inl None);;; ret tt)
                 (err <- eval n ctx;;
                  match err with
                  | Some e => ret (inr e)
                  | None => v <- pop;; ret (inl v)
                  end)) vm
        end
    end

with loadModule (fuel : nat) (ctx : Context) (name : string) {struct fuel}
    : M (Module + error) :=
  fun vm =>
    match modules vm !! name with
    | Some module => (Ret (inl module), vm)
    | None =>
        match importer vm with
        | None => (Ret (inr (exec_error "imports are disabled")), vm)
        | Some imp =>
            match imp name with
            | inr err => (Ret (inr err), vm)
            | inl module =>
                match fuel with
                | O => (OutOfFuel, vm)
                | S n =>
                    let baseFP := fp vm in
                    let baseIP := ip vm in
                    let baseSP := sp vm in
                    (c <- load (m_code module);;
                     activateCode (baseFP + 1) 0 c;;;
                     withDefer (resumeFrame baseFP baseIP baseSP)
                       (err <- eval n ctx;;
                        match err with
                        | Some e => ret (inr e)
                        | None =>
                            let module' := UseGlobals module (Globals c) in
                            modify (fun vm =>
                              with_modules (<[name := module']> (modules vm)) vm);;;
                            ret (inl module')
                        end)) vm
                end
            end
        end
    end.

(** [vm.Call]: the embedder's entry point for invoking a compiled function. *)
Definition Call (fuel : nat) (ctx : Context) (fn : Function) (args : list Value)
    : M (Value + error) :=
  r <- gets running;;
  if (r : bool)
  then ret (inr "exec error: cannot call function while the vm is running")
  else callFunction fuel ctx fn args.

(** The loop of [Run] over the constants of the main code. *)
Fixpoint loadConstants (cs : list Value) : M unit :=
  match cs with
  | [] => ret tt
  | Some (OFunction fn) :: rest => load (fn_code fn);;; loadConstants rest
  | _ :: rest => loadConstants rest
  end.

Definition asModule (o : Object) : option Module :=
  match o with
  | OModule m => Some m
  | _ => None
  end.

(** The body of [vm.Run], under its deferred [recover].  The host globals
    are taken already converted, so [object.AsObjects] is the identity; the
    goroutine that waits for the context is the environment's [haltStore]. *)
Definition runBody (fuel : nat) (ctx : Context) : M (option error) :=
  modify (fun vm => with_globals (inputGlobals vm) vm);;;
  modify (fun vm => with_modules (omap asModule (globals vm) ∪ modules vm) vm);;;
  modify (with_running true);;;
  withDefer (modify (with_running false))
    (main_ <- gets main;;
     loadConstants (Constants main_);;;
     reg <- gets loadedCode;;
     c <- (if decide (size reg = 0%nat) then load main_ else reload main_);;
     ip0 <- gets ip;;
     activateCode 0 ip0 c;;;
     eval fuel ctx).

(** [vm.Run]: any panic of the body is translated into an error. *)
Definition Run (fuel : nat) (ctx : Context) : M (option error) :=
  recovering (runBody fuel ctx).

End Dispatcher.

(** ** Construction and cloning *)

Definition New (main_ : Code) : VirtualMachine :=
  {| ip := 0; sp := -1; fp := 0; halt := 0;
     stack := ∅; frames := ∅; tmp := ∅;
     activeFrame := None; activeCode := None;
     main := main_; importer := None; modules := ∅;
     inputGlobals := ∅; globals := ∅; loadedCode := ∅;
     running := false; concAllowed := false; heap := [] |}.

Definition WithInstructionOffset (offset : Z) (vm : VirtualMachine) := with_ip offset vm.
Definition WithImporter (imp : Importer) (vm : VirtualMachine) := with_importer (Some imp) vm.
Definition WithGlobals (g : gmap string Object) (vm : VirtualMachine) :=
  with_inputGlobals (g ∪ inputGlobals vm) vm.
Definition WithConcurrency (vm : VirtualMachine) := with_concAllowed true vm.

(** [vm.Clone]: snapshots of the module cache and of the loaded code, no
    importer, empty registers; the main code is activated in frame 0 at the
    parent's instruction pointer.  The globals vectors, which Go shares by
    reference, are carried over as they are at clone time. *)
Definition Clone (vm : VirtualMachine) : VirtualMachine :=
  let clone :=
    {| ip := 0; sp := -1; fp := 0; halt := 0;
       stack := ∅; frames := ∅; tmp := ∅;
       activeFrame := None; activeCode := None;
       main := main vm; importer := None; modules := modules vm;
       inputGlobals := inputGlobals vm; globals := globals vm;
       loadedCode := loadedCode vm;
       running := false; concAllowed := false; heap := heap vm |} in
  ((c <- load (main clone);; activateCode 0 (ip vm) c) clone).2.

(** ** A concrete instance of the external collaborators

    Used to run the machine on concrete programs.  Opcodes are numbered from
    1 in the order of their declaration; truthiness, type names, addition
    and path joining follow the usual conventions of the language. *)

Module Demo.

Definition allOpcodes : list op.Opcode :=
  [ op.Nop; op.LoadAttr; op.LoadConst; op.LoadFast; op.LoadGlobal; op.LoadFree;
    op.StoreFast; op.StoreGlobal; op.StoreFree; op.StoreAttr; op.LoadClosure;
    op.MakeCell; op.Nil; op.True; op.False; op.CompareOp; op.BinaryOp; op.Call;
    op.Partial; op.ReturnValue; op.PopJumpForwardIfTrue; op.PopJumpForwardIfFalse;
    op.PopJumpBackwardIfTrue; op.PopJumpBackwardIfFalse; op.JumpForward;
    op.JumpBackward; op.BuildList; op.BuildMap; op.BuildSet; op.BinarySubscr;
    op.StoreSubscr; op.UnaryNegative; op.UnaryNot; op.ContainsOp; op.Swap;
    op.BuildString; op.Range; op.Slice; op.Length; op.Copy; op.Import;
    op.FromImport; op.PopTop; op.Unpack; op.GetIter; op.ForIter; op.Go; op.Defer;
    op.Send; op.Receive; op.Halt ].

Definition decode (w : Z) : option op.Opcode :=
  if 1 <=? w then allOpcodes !! Z.to_nat (w - 1) else None.

Definition NOP := 1.
Definition LOAD_CONST := 3.
Definition LOAD_FAST := 4.
Definition LOAD_GLOBAL := 5.
Definition STORE_GLOBAL := 8.
Definition NIL := 13.
Definition BINARY_OP := 17.
Definition CALL := 18.
Definition PARTIAL := 19.
Definition RETURN_VALUE := 20.
Definition POP_JUMP_FORWARD_IF_TRUE := 21.
Definition POP_JUMP_FORWARD_IF_FALSE := 22.
Definition POP_JUMP_BACKWARD_IF_TRUE := 23.
Definition POP_JUMP_BACKWARD_IF_FALSE := 24.
Definition JUMP_BACKWARD := 26.
Definition BUILD_LIST := 27.
Definition BINARY_SUBSCR := 30.
Definition IMPORT := 41.
Definition FROM_IMPORT := 42.
Definition POP_TOP := 43.
Definition UNPACK := 44.
Definition DEFER := 48.
Definition HALT := 51.

Definition typeOf (o : Object) : string :=
  match o with
  | ONil => "nil"
  | OBool _ => "bool"
  | OInt _ => "int"
  | OString _ => "string"
  | OList _ => "list"
  | OError _ => "error"
  | OFunction _ => "function"
  | OPartial _ => "partial"
  | OBuiltin _ => "builtin"
  | OModule _ => "module"
  end.

Definition isTruthy (o : Object) : bool :=
  match o with
  | ONil => false
  | OBool b => b
  | OInt n => negb (n =? 0)
  | OString s => negb (String.eqb s "")
  | OList items => negb (Nat.eqb (length items) 0)
  | _ => true
  end.

(** Selector 1 is addition: of integers, or concatenation of strings. *)
Definition binaryOp (k : Z) (a b : Value) : Value :=
  match k, a, b with
  | 1, Some (OInt x), Some (OInt y) => Some (OInt (wrap64 (x + y)))
  | 1, Some (OString x), Some (OString y) => Some (OString (x ++ y))
  | _, _, _ => Some (OError "type error: unsupported operands")
  end.

(** Selector 1 is equality of integers. *)
Definition compare (k : Z) (a b : Value) : Value :=
  match k, a, b with
  | 1, Some (OInt x), Some (OInt y) => Some (OBool (x =? y))
  | _, _, _ => Some (OError "type error: unsupported operands")
  end.

Definition join (parts : list string) : string :=
  foldr (fun p acc =>
           if String.eqb p "" then acc
           else if String.eqb acc "" then p
           else p ++ "/" ++ acc) "" parts.

#[export] Instance external : External :=
  {| decodeOp := decode;
     TypeOf := typeOf;
     IsTruthy := isTruthy;
     Compare := compare;
     BinaryOperation := binaryOp;
     CallHost := fun _ _ => Some ONil;
     otherContainer := fun _ => None;
     pathJoin := join |}.

(** The context of an evaluation that has been cancelled. *)
Definition cancelled : Context := {| ctxErr := Some "context canceled" |}.
(** The context of an evaluation that has not been cancelled. *)
Definition background : Context := {| ctxErr := None |}.

End Demo.


(** ** Vocabulary of the statements *)

(** The message of the arity error as the specification words it: [N] is
    the number of parameters and [M] the number of arguments given. *)
Definition arityMessage (N M : Z) : string :=
  if N =? 0 then "function takes no arguments (" ++ string_of_Z M ++ " given)"
  else if N =? 1 then "function takes 1 argument (" ++ string_of_Z M ++ " given)"
  else "function takes " ++ string_of_Z N ++ " arguments ("
       ++ string_of_Z M ++ " given)".

(** The four conditional jumps: the truthiness they wait for and the
    direction of the shift ([1] forward, [-1] backward). *)
Definition condJump (o : op.Opcode) : option (bool * Z) :=
  match o with
  | op.PopJumpForwardIfTrue => Some (true, 1)
  | op.PopJumpForwardIfFalse => Some (false, 1)
  | op.PopJumpBackwardIfTrue => Some (true, -1)
  | op.PopJumpBackwardIfFalse => Some (false, -1)
  | _ => None
  end.

(** The values held by [n] consecutive stack slots from [lo] upwards. *)
Definition stackSegment (st : gmap Z Object) (lo : Z) (n : nat) : list Value :=
  (fun p : nat => st !! (lo + Z.of_nat p)) <$> seq 0 n.

(** The stack after the slots [s], [s - 1], ... ([k] of them) were vacated. *)
Fixpoint vacate (k : nat) (s : Z) (st : gmap Z Object) : gmap Z Object :=
  match k with
  | O => st
  | S k' => vacate k' (s - 1) (delete s st)
  end.

(** A machine computation keeps a property of the machine. *)
Definition preserves {A} (P : VirtualMachine -> Prop) (m : M A) : Prop :=
  forall vm, P vm -> P (m vm).2.

(** A machine without importer whose module cache is [C]: the state of a
    clone, with [C] the cache snapshotted from its parent, and of an
    execution on it. *)
Definition sealedCache (C : gmap string Module) (v : VirtualMachine) : Prop :=
  importer v = None /\ modules v = C.

(** The machine as [Run] sets it up before it loads any code: the host
    globals converted, the modules found among them put in the module
    cache (over an entry of the same name), the running latch up. *)
Definition seeded (vm : VirtualMachine) : VirtualMachine :=
  with_running true
    (with_modules (omap asModule (inputGlobals vm) ∪ modules vm)
       (with_globals (inputGlobals vm) vm)).

(** ** Concrete programs

    The programs the closing examples run, written with the opcode numbers
    of [Demo]. *)

Module Examples.
Import Demo.

(** [vm.Get] restricted to its successful path: the value of the global
    [name] of the active code. *)
Definition Get (name : string) (vm : VirtualMachine) : option Value :=
  match activeCode vm with
  | None => None
  | Some c =>
      match list_find (fun n => n = name) (GlobalNames (compiled c)) with
      | Some (i, _) => default [] (heap vm !! Globals c) !! i
      | None => None
      end
  end.

(** [func() { log = log + letter }] *)
Definition appendCode (id : nat) (letter : string) : Code :=
  mkCode id 0
    [LOAD_GLOBAL; 0; LOAD_CONST; 0; BINARY_OP; 1; STORE_GLOBAL; 0; NIL; RETURN_VALUE]
    [Some (OString letter)] [] ["log"] 0 false.
Definition fnA : Function := mkFunction [] [] 0 (appendCode 1 "a").
Definition fnB : Function := mkFunction [] [] 0 (appendCode 2 "b").

(** [func() { defer fnA(); defer fnB(); return 7 }] *)
Definition deferTwiceCode : Code :=
  mkCode 3 0
    [LOAD_CONST; 0; PARTIAL; 0; DEFER;
     LOAD_CONST; 1; PARTIAL; 0; DEFER;
     LOAD_CONST; 2; RETURN_VALUE]
    [Some (OFunction fnA); Some (OFunction fnB); Some (OInt 7)] [] ["log"] 0 false.
Definition deferTwice : Function := mkFunction [] [] 0 deferTwiceCode.

(** The main code calls [deferTwice]; the host supplies [log = ""]. *)
Definition deferMain : Code :=
  mkCode 0 0 [LOAD_CONST; 0; CALL; 0] [Some (OFunction deferTwice)] [] ["log"] 0 false.
Definition deferVM : VirtualMachine :=
  WithGlobals {[ "log" := OString "" ]} (New deferMain).

(** [func() { return 99 }] *)
Definition ninetyNine : Function :=
  mkFunction [] [] 0
    (mkCode 1 0 [LOAD_CONST; 0; RETURN_VALUE] [Some (OInt 99)] [] [] 0 false).

(** [func() { defer ninetyNine(); return 7 }] *)
Definition deferOnce : Function :=
  mkFunction [] [] 0
    (mkCode 2 0 [LOAD_CONST; 0; PARTIAL; 0; DEFER; LOAD_CONST; 1; RETURN_VALUE]
       [Some (OFunction ninetyNine); Some (OInt 7)] [] [] 0 false).

(** [func() { return 7 }], the same function without its defer. *)
Definition plainSeven : Function :=
  mkFunction [] [] 0
    (mkCode 2 0 [LOAD_CONST; 1; RETURN_VALUE]
       [Some (OFunction ninetyNine); Some (OInt 7)] [] [] 0 false).

Definition callMain (f : Function) : Code :=
  mkCode 0 0 [LOAD_CONST; 0; CALL; 0] [Some (OFunction f)] [] [] 0 false.

(** [func f() { f() }]: a named function that calls itself for ever. *)
Definition forever : Function :=
  mkFunction [] [] 0
    (mkCode 1 0 [LOAD_FAST; 0; CALL; 0; RETURN_VALUE] [] [] [] 1 true).

(** A main code that only evaluates to the function [f]. *)
Definition loadMain (f : Function) : Code :=
  mkCode 0 0 [LOAD_CONST; 0] [Some (OFunction f)] [] [] 0 false.

(** A function of two required parameters. *)
Definition twoParams : Function :=
  mkFunction ["x"; "y"] [None; None] 2
    (mkCode 1 0 [LOAD_FAST; 0; RETURN_VALUE] [] [] [] 2 false).

(** A machine stopped at the operand of the only instruction of [instrs],
    with [st] on its stack. *)
Definition atOperand (instrs : list Z) (st : list Object) : VirtualMachine :=
  let cc := mkCode 0 0 instrs [] [] [] 0 false in
  with_active (Some 0) (Some (mkLoaded cc 0))
    (with_ip 1
       (with_sp (Z.of_nat (length st) - 1)
          (with_stack (copy_at 0 (Some <$> st) ∅) (New cc)))).

(** An importer that knows the module [m], whose code is empty. *)
Definition emptyModule : Module :=
  mkModule "m" (mkCode 5 5 [] [] [] [] 0 false) None.
Definition importerOfM : Importer :=
  fun name => if String.eqb name "m" then inl emptyModule
              else inr ("import error: module not found").
Definition importingVM : VirtualMachine :=
  (activateCode 0 0 (mkLoaded (callMain plainSeven) 0)
     (WithImporter importerOfM (New (callMain plainSeven)))).2.

(** A module the host passes as the global ["m"]; it is not the module
    the importer knows under that name. *)
Definition hostModule : Module :=
  mkModule "m" (mkCode 6 6 [] [] [] [] 0 false) None.

(** [import m] as main code, and [func() { return import m }]. *)
Definition importMain : Code :=
  mkCode 0 0 [LOAD_CONST; 0; IMPORT] [Some (OString "m")] [] [] 0 false.
Definition importFn : Function :=
  mkFunction [] [] 0
    (mkCode 3 0 [LOAD_CONST; 0; IMPORT; RETURN_VALUE] [Some (OString "m")] [] [] 0 false).

(** A machine that has not run yet, with the host global ["m"]: with the
    importer of [emptyModule], and without importer. *)
Definition hostedVM : VirtualMachine :=
  WithGlobals {[ "m" := OModule hostModule ]} (WithImporter importerOfM (New importMain)).
Definition hostedParent : VirtualMachine :=
  WithGlobals {[ "m" := OModule hostModule ]} (New importMain).

End Examples.

(** ** Further vocabulary and sample machines *)

(** The two unconditional jumps and the sign of their shift. *)
Definition jumpSign (o : op.Opcode) : option Z :=
  match o with
  | op.JumpForward => Some 1
  | op.JumpBackward => Some (-1)
  | _ => None
  end.

(** The locals [callFunction] assembles in [vm.tmp]: the arguments, the
    defaults of the parameters that got no argument, and the function
    itself when it is named. *)
Definition assembledLocals (fn : Function) (args : list Value) : list Value :=
  (args ++ drop (length args) (Defaults fn)
        ++ (if IsNamed (fn_code fn) then [Some (OFunction fn)] else []))%list.

(** The part of a machine that is set up from outside: the halt flag, the
    main code, the importer, the host globals and their conversion, the
    running latch and the concurrency switch. *)
Definition config (vm : VirtualMachine)
    : Z * Code * option Importer * gmap string Object * gmap string Object
      * bool * bool :=
  (halt vm, main vm, importer vm, inputGlobals vm, globals vm, running vm,
   concAllowed vm).

Definition configIs
    (k : Z * Code * option Importer * gmap string Object * gmap string Object
         * bool * bool)
    (vm : VirtualMachine) : Prop :=
  config vm = k.

(** Sample machines for the further properties: a code with two globals
    and two locals, loaded and activated in frame 0 the way [Run] does it,
    with [st] on the stack. *)

Module Samples.
Import Demo.

Definition STORE_FAST := 7.
Definition JUMP_FORWARD := 25.
Definition UNARY_NEGATIVE := 32.
Definition UNARY_NOT := 33.

Definition scratchCode (instrs : list Z) : Code :=
  mkCode 0 0 instrs [] [] ["g"; "h"] 2 false.

Definition scratch (instrs : list Z) (st : list Object) : VirtualMachine :=
  with_sp (Z.of_nat (length st) - 1)
    (with_stack (copy_at 0 (Some <$> st) ∅)
       ((c <- load (scratchCode instrs);; activateCode 0 0 c)
          (New (scratchCode instrs))).2).

(** A child code of the tree of [scratchCode]. *)
Definition childCode : Code :=
  mkCode 1 0 [LOAD_GLOBAL; 0; RETURN_VALUE] [] [] ["g"; "h"] 0 false.

(** [func f(x, y = 9) { return y }], a named function with one default. *)
Definition withDefault : Function :=
  mkFunction ["x"; "y"] [None; Some (OInt 9)] 1
    (mkCode 1 0 [LOAD_FAST; 1; RETURN_VALUE] [] [] [] 3 true).

(** A machine inside a call of [plainSeven], its result on the stack:
    the function object at slot 0 belongs to the caller. *)
Definition returning : VirtualMachine :=
  (push (Some (OInt 7))
     (enterFunction Examples.plainSeven []
        (Run 10 background (New (Examples.loadMain Examples.plainSeven))).2).2).2.

(** A function of another compilation, called before the first run of a
    machine whose main code has no function constants. *)
Definition foreign : Function :=
  mkFunction [] [] 0 (mkCode 7 7 [NIL; RETURN_VALUE] [] [] [] 0 false).
Definition afterForeignCall : VirtualMachine :=
  (callFunction 10 background foreign [] (New (mkCode 0 0 [NIL] [] [] [] 0 false))).2.

End Samples.

(** * Properties of the machine *)

Create HintDb pres.


(** ** Symbolic execution of the primitives *)

Lemma bind_Ret {A B} (m : M A) (k : A -> M B) vm a vm' :
  m vm = (Ret a, vm') -> bind m k vm = k a vm'.
Proof. unfold bind. intros ->. reflexivity. Qed.

Lemma bind_Panic {A B} (m : M A) (k : A -> M B) vm d vm' :
  m vm = (Panic d, vm') -> bind m k vm = (Panic d, vm').
Proof. unfold bind. intros ->. reflexivity. Qed.

Lemma checkIndex_ok i len vm :
  0 <= i < len -> checkIndex i len vm = (Ret tt, vm).
Proof.
  intros Hi. unfold checkIndex.
  destruct (0 <=? i) eqn:E1; [|lia].
  destruct (i <? len) eqn:E2; [|lia].
  reflexivity.
Qed.

Lemma checkIndex_fail i len vm :
  ~ (0 <= i < len) -> checkIndex i len vm = (Panic (indexOutOfRange i len), vm).
Proof.
  intros Hi. unfold checkIndex.
  destruct (0 <=? i) eqn:E1; destruct (i <? len) eqn:E2; try reflexivity; lia.
Qed.

Lemma index_ok {A} (d : A) (l : list A) i x vm :
  0 <= i -> l !! Z.to_nat i = Some x -> index d l i vm = (Ret x, vm).
Proof.
  intros Hi Hl. unfold index.
  rewrite (bind_Ret _ _ vm tt vm).
  - rewrite Hl. reflexivity.
  - apply checkIndex_ok. apply lookup_lt_Some in Hl. lia.
Qed.

Lemma pop_ok vm :
  0 <= sp vm < MaxStackDepth ->
  pop vm = (Ret (stack vm !! sp vm),
            with_sp (sp vm - 1) (with_stack (delete (sp vm) (stack vm)) vm)).
Proof.
  intros Hs. unfold pop, bind at 1, gets at 1.
  rewrite (bind_Ret _ _ vm tt vm) by (apply checkIndex_ok; exact Hs).
  reflexivity.
Qed.

Lemma pop_empty vm :
  sp vm = -1 -> pop vm = (Panic "runtime error: index out of range [-1]", vm).
Proof.
  intros Hs. unfold pop, bind at 1, gets at 1.
  rewrite (bind_Panic _ _ vm (indexOutOfRange (sp vm) MaxStackDepth) vm)
    by (apply checkIndex_fail; lia).
  rewrite Hs. reflexivity.
Qed.

Lemma push_ok v vm :
  -1 <= sp vm -> sp vm + 1 < MaxStackDepth ->
  push v vm = (Ret tt, with_stack (slot_set (sp vm + 1) v (stack vm))
                         (with_sp (sp vm + 1) vm)).
Proof.
  intros H1 H2. unfold push, bind at 1, modify at 1, bind at 1, gets at 1.
  rewrite (bind_Ret _ _ (with_sp (sp vm + 1) vm) tt (with_sp (sp vm + 1) vm)).
  - reflexivity.
  - apply checkIndex_ok. simpl. lia.
Qed.

Lemma fetch_ok vm c w :
  activeCode vm = Some c -> 0 <= ip vm ->
  Instructions (compiled c) !! Z.to_nat (ip vm) = Some w ->
  fetch vm = (Ret (w mod 65536), with_ip (ip vm + 1) vm).
Proof.
  intros Hc Hi Hw. unfold fetch, bind at 1, gets at 1, bind at 1, modify at 1.
  unfold bind at 1, theCode, bind at 1, gets at 1. simpl. rewrite Hc.
  unfold ret at 1.
  rewrite (bind_Ret _ _ _ w (with_ip (ip vm + 1) vm)) by (apply index_ok; assumption).
  reflexivity.
Qed.

Lemma slot_set_lookup i v (m : gmap Z Object) : slot_set i v m !! i = v.
Proof.
  destruct v as [o|]; simpl.
  - apply lookup_insert_eq.
  - apply lookup_delete_eq.
Qed.

Lemma slot_set_lookup_ne i j v (m : gmap Z Object) :
  i <> j -> slot_set i v m !! j = m !! j.
Proof.
  intros Hne. destruct v as [o|]; simpl.
  - apply lookup_insert_ne. exact Hne.
  - apply lookup_delete_ne. exact Hne.
Qed.

(** ** Argument count errors *)

Section CallArguments.
Context `{External}.

(** C3.  A call of a compiled function with [argc] arguments fails with the
    type error [function takes N arguments (M given)] (worded
    [no arguments] for [N = 0] and [1 argument] for [N = 1]) exactly when
    [argc] exceeds the number of parameters or is below the number of
    required arguments; [callFunction] then returns that error and leaves the
    machine as it was.  Otherwise the check produces no error. *)
Theorem checkCallArgs_arity_error (fn : Function) (args : list Value) :
  let N := Z.of_nat (length (Parameters fn)) in
  let argc := Z.of_nat (length args) in
  (N < argc \/ argc < RequiredArgsCount fn ->
     checkCallArgs fn argc = Some (type_error (arityMessage N argc)) /\
     forall fuel ctx vm,
       callFunction fuel ctx fn args vm
       = (Ret (inr (type_error (arityMessage N argc))), vm)) /\
  (~ (N < argc \/ argc < RequiredArgsCount fn) ->
     checkCallArgs fn argc = None).
Proof.
  intros N argc. split.
  - intros Hbad.
    assert (Hc : checkCallArgs fn argc = Some (type_error (arityMessage N argc))).
    { unfold checkCallArgs. fold N.
      destruct ((N <? argc) || (argc <? RequiredArgsCount fn)) eqn:E.
      - unfold arityMessage.
        destruct N as [|p|p]; try reflexivity.
        destruct p; reflexivity.
      - apply orb_false_iff in E. destruct E as [E1 E2]. lia. }
    split; [exact Hc|].
    intros fuel ctx vm. destruct fuel; simpl; fold argc; rewrite Hc; reflexivity.
  - intros Hgood. unfold checkCallArgs. fold N.
    destruct ((N <? argc) || (argc <? RequiredArgsCount fn)) eqn:E; [|reflexivity].
    apply orb_true_iff in E. destruct E as [E|E]; lia.
Qed.

End CallArguments.

(** ** Conditional jumps *)

Section Jumps.
Context `{External}.

(** C6.  Each conditional jump pops the top of the stack whatever its
    value; [ip vm] is the address of the operand word, the opcode word
    having been stepped over.  When the truthiness of the popped value is
    the one the opcode waits for, the instruction pointer, which stands
    after the operand word, is shifted forward (resp. backward) by the
    operand minus 2; otherwise it stays after the operand word, at the next
    instruction. *)
Theorem cond_jump_pops_and_shifts
    (call_ : Value -> list Value -> M (option error))
    (loadModule_ : string -> M (Module + error))
    (opcode : Z) (o : op.Opcode) (wanted : bool) (dir : Z)
    (vm : VirtualMachine) (c : code) (tos : Object) (operand : Z) :
  decodeOp opcode = Some o ->
  condJump o = Some (wanted, dir) ->
  0 <= sp vm < MaxStackDepth ->
  stack vm !! sp vm = Some tos ->
  activeCode vm = Some c ->
  0 <= ip vm ->
  Instructions (compiled c) !! Z.to_nat (ip vm) = Some operand ->
  0 <= operand < 65536 ->
  dispatch call_ loadModule_ opcode vm
  = (Ret Continue,
     with_ip (if Bool.eqb (IsTruthy tos) wanted
              then ip vm + 1 + dir * (operand - 2)
              else ip vm + 1)
       (with_sp (sp vm - 1) (with_stack (delete (sp vm) (stack vm)) vm))).
Proof.
  intros Hdec Hj Hsp Htos Hc Hip Hop Hw.
  unfold dispatch. rewrite Hdec.
  destruct o; simpl in Hj; try discriminate; injection Hj as <- <-;
    unfold popJump;
    rewrite (bind_Ret _ _ _ _ _ (pop_ok vm Hsp));
    (erewrite bind_Ret by (eapply fetch_ok; simpl; eassumption));
    rewrite Htos, (Z.mod_small operand) by lia;
    destruct (IsTruthy tos); simpl; unfold bind, modify, ret; simpl;
    unfold with_ip; simpl; repeat f_equal; lia.
Qed.

End Jumps.

(** ** Cancellation *)

Section Cancellation.
Context `{External}.

(** C2.  The dispatcher polls the halt flag once at the head of every
    iteration of its loop, before the opcode is read.  When it reads 1 (as
    after the store made once the context is done) and an instruction
    remains, [eval] returns [ctx.Err()], the cancellation cause of the
    context, and the machine is left untouched: no further instruction is
    executed.  When it does not read 1, exactly one instruction is
    dispatched and the loop comes back to the next poll. *)
Theorem halt_polled_before_each_instruction
    (fuel : nat) (ctx : Context) (vm : VirtualMachine) (c : code) :
  activeCode vm = Some c ->
  ip vm < Z.of_nat (length (Instructions (compiled c))) ->
  eval fuel ctx (haltStore vm) = (Ret (ctxErr ctx), haltStore vm) /\
  (halt vm = 1 -> eval fuel ctx vm = (Ret (ctxErr ctx), vm)) /\
  (forall cause, halt vm = 1 -> ctxErr ctx = Some cause ->
     eval fuel ctx vm = (Ret (Some cause), vm)) /\
  (halt vm <> 1 ->
     eval (S fuel) ctx vm
     = (opcode <- index 0 (Instructions (compiled c)) (ip vm);;
        modify (fun vm => with_ip (ip vm + 1) vm);;;
        flow <- dispatch (call fuel ctx) (loadModule fuel ctx) opcode;;
        match flow with
        | Continue => eval fuel ctx
        | Return err => ret err
        end) vm).
Proof.
  intros Hc Hip.
  assert (Hone : forall vm', activeCode vm' = Some c -> ip vm' = ip vm ->
                   halt vm' = 1 -> eval fuel ctx vm' = (Ret (ctxErr ctx), vm')).
  { intros vm' Hc' Hip' Hh.
    destruct fuel; simpl; rewrite Hc', Hip', Hh;
      (destruct (ip vm <? _) eqn:E; [reflexivity|lia]). }
  repeat split.
  - apply Hone; reflexivity || assumption.
  - intros Hh. apply Hone; reflexivity || assumption.
  - intros cause Hh <-. apply Hone; reflexivity || assumption.
  - intros Hh. simpl. rewrite Hc.
    destruct (ip vm <? _) eqn:E; [|lia].
    destruct (halt vm =? 1) eqn:E1; [lia|]. reflexivity.
Qed.

End Cancellation.

(** ** Pushing a sequence of values *)

Ltac zbool :=
  repeat match goal with
         | |- context [?a <=? ?b] => destruct (Z.leb_spec a b)
         | |- context [?a <? ?b] => destruct (Z.ltb_spec a b)
         | |- context [?a =? ?b] => destruct (Z.eqb_spec a b)
         end;
  cbn [andb orb negb].

Lemma copy_at_lookup (vs : list Value) (off : Z) (m : gmap Z Object) (k : Z) :
  copy_at off vs m !! k
  = if (off <=? k) && (k <? off + Z.of_nat (length vs))
    then mjoin (vs !! Z.to_nat (k - off))
    else m !! k.
Proof.
  revert off m. induction vs as [|v vs IH]; intros off m.
  - cbn [copy_at length]. zbool; try reflexivity; lia.
  - cbn [copy_at]. rewrite IH. cbn [length]. rewrite Nat2Z.inj_succ.
    destruct (decide (k = off)) as [->|Hne].
    + zbool; try lia. rewrite slot_set_lookup.
      replace (off - off) with 0 by lia. reflexivity.
    + rewrite slot_set_lookup_ne by congruence.
      zbool; try lia; try reflexivity.
      replace (Z.to_nat (k - off)) with (S (Z.to_nat (k - (off + 1)))) by lia.
      reflexivity.
Qed.

Lemma pushAll_ok (vs : list Value) (vm : VirtualMachine) :
  -1 <= sp vm -> sp vm + Z.of_nat (length vs) < MaxStackDepth ->
  pushAll vs vm
  = (Ret tt, with_stack (copy_at (sp vm + 1) vs (stack vm))
               (with_sp (sp vm + Z.of_nat (length vs)) vm)).
Proof.
  revert vm. induction vs as [|v vs IH]; intros vm H1 H2.
  - cbn [pushAll copy_at length]. unfold ret.
    destruct vm; unfold with_stack, with_sp; cbn in *.
    do 2 f_equal. lia.
  - cbn [pushAll length] in *. rewrite Nat2Z.inj_succ in *.
    rewrite (bind_Ret _ _ _ _ _ (push_ok v vm H1 ltac:(lia))).
    rewrite IH by (cbn; lia).
    cbn [copy_at]. destruct vm; unfold with_stack, with_sp; cbn in *.
    do 2 f_equal. lia.
Qed.

(** ** Unpack *)

Section Unpacking.
Context `{External}.

(** C7.  [Unpack n] pops a container of length [L]; [ip vm] is the address
    of the operand word.  If [L] differs from [n], evaluation fails with the
    execution error [unpack count mismatch: L != n] and nothing is pushed:
    the machine has only lost the container and stepped over the operand.
    If [L] equals [n] (and the stack has room), the elements of the
    container are pushed in iteration order, the first one in the slot the
    container occupied. *)
Theorem unpack_checks_length_then_pushes
    (call_ : Value -> list Value -> M (option error))
    (loadModule_ : string -> M (Module + error))
    (opcode : Z) (vm : VirtualMachine) (c : code) (obj : Object)
    (container : ContainerView) (n : Z) :
  decodeOp opcode = Some op.Unpack ->
  0 <= sp vm < MaxStackDepth ->
  stack vm !! sp vm = Some obj ->
  asContainer (Some obj) = Some container ->
  activeCode vm = Some c ->
  0 <= ip vm ->
  Instructions (compiled c) !! Z.to_nat (ip vm) = Some n ->
  0 <= n < 65536 ->
  let L := c_len container in
  let popped := with_ip (ip vm + 1)
                  (with_sp (sp vm - 1) (with_stack (delete (sp vm) (stack vm)) vm)) in
  (L <> n ->
     dispatch call_ loadModule_ opcode vm
     = (Ret (Return (Some (exec_error ("unpack count mismatch: " ++ string_of_Z L
                                       ++ " != " ++ string_of_Z n)))),
        popped)) /\
  (L = n ->
   Z.of_nat (length (c_items container)) = L ->
   sp vm - 1 + L < MaxStackDepth ->
   exists vm',
     dispatch call_ loadModule_ opcode vm = (Ret Continue, vm') /\
     sp vm' = sp vm - 1 + L /\
     ip vm' = ip vm + 1 /\
     (forall j : nat, (j < length (c_items container))%nat ->
        stack vm' !! (sp vm + Z.of_nat j) = mjoin (c_items container !! j)) /\
     (forall k, k < sp vm -> stack vm' !! k = stack vm !! k)).
Proof.
  intros Hdec Hsp Hobj Hcont Hc Hip Hop Hn L popped.
  assert (Hstart :
    dispatch call_ loadModule_ opcode vm
    = (if negb (L =? n)
       then failf (exec_error ("unpack count mismatch: " ++ string_of_Z L
                               ++ " != " ++ string_of_Z n))
       else pushAll (c_items container);;; ret Continue) popped).
  { unfold dispatch. rewrite Hdec.
    rewrite (bind_Ret _ _ _ _ _ (pop_ok vm Hsp)).
    erewrite bind_Ret by (eapply fetch_ok; simpl; eassumption).
    rewrite Hobj, Hcont, (Z.mod_small n) by lia. reflexivity. }
  split.
  - intros Hne. rewrite Hstart.
    destruct (L =? n) eqn:E; [lia|]. reflexivity.
  - intros Heq Hlen Hroom. rewrite Hstart.
    destruct (L =? n) eqn:E; [|lia]. cbn [negb].
    assert (Hp : sp popped = sp vm - 1) by reflexivity.
    rewrite (bind_Ret _ _ _ _ _ (pushAll_ok (c_items container) popped
               ltac:(rewrite Hp; lia) ltac:(rewrite Hp; lia))).
    eexists. split; [reflexivity|].
    simpl. repeat split.
    + lia.
    + intros j Hj. rewrite copy_at_lookup.
      zbool; try lia. f_equal. f_equal. lia.
    + intros k Hk. rewrite copy_at_lookup.
      zbool; try lia; apply lookup_delete_ne; lia.
Qed.

End Unpacking.

(** ** Building a list *)

Lemma vacate_lookup_below k s st j :
  j <= s - Z.of_nat k -> vacate k s st !! j = st !! j.
Proof.
  revert s st. induction k as [|k IH]; intros s st Hj; [reflexivity|].
  cbn [vacate]. rewrite IH by lia. apply lookup_delete_ne. lia.
Qed.

Lemma stackSegment_delete_above st lo n s :
  lo + Z.of_nat n <= s ->
  stackSegment (delete s st) lo n = stackSegment st lo n.
Proof.
  intros Hs. unfold stackSegment. apply list_fmap_ext.
  intros i p Hp. apply lookup_seq in Hp as [-> Hlt].
  apply lookup_delete_ne. lia.
Qed.

Lemma stackSegment_snoc st lo n :
  stackSegment st lo (S n) = (stackSegment st lo n ++ [st !! (lo + Z.of_nat n)])%list.
Proof.
  unfold stackSegment. rewrite seq_S, fmap_app. reflexivity.
Qed.

(** The loop of [BuildList] and [Partial] reads the [k] topmost slots into
    the first [k] positions of the array, bottom-most first. *)
Lemma popLoop_reads_segment (n k i : nat) (items : list Value) (vm : VirtualMachine) :
  (i + k = n)%nat ->
  length items = n ->
  sp vm < MaxStackDepth ->
  -1 <= sp vm - Z.of_nat k ->
  popLoop k i (fun j => (n - 1 - j)%nat) items vm
  = (Ret (stackSegment (stack vm) (sp vm - Z.of_nat k + 1) k ++ drop k items)%list,
     with_sp (sp vm - Z.of_nat k)
       (with_stack (vacate k (sp vm) (stack vm)) vm)).
Proof.
  revert i items vm. induction k as [|k IH]; intros i items vm Hik Hlen Hsp Hlo.
  - cbn [popLoop vacate]. unfold ret, stackSegment. rewrite drop_0. cbn [seq fmap list_fmap app].
    destruct vm; unfold with_sp, with_stack; cbn in *. do 2 f_equal. lia.
  - cbn [popLoop vacate].
    rewrite (bind_Ret _ _ _ _ _ (pop_ok vm ltac:(lia))).
    rewrite (IH (S i)); cbn [sp stack with_sp with_stack]; try lia.
    2:{ rewrite length_insert. exact Hlen. }
    f_equal.
    + f_equal. rewrite stackSegment_delete_above by lia.
      rewrite stackSegment_snoc.
      replace (sp vm - 1 - Z.of_nat k + 1) with (sp vm - Z.of_nat (S k) + 1) by lia.
      rewrite <- app_assoc. f_equal.
      replace (n - 1 - i)%nat with k by lia.
      replace (sp vm - Z.of_nat (S k) + 1 + Z.of_nat k) with (sp vm) by lia.
      rewrite insert_take_drop by lia.
      rewrite drop_app_length' by (rewrite length_take; lia).
      reflexivity.
    + destruct vm; unfold with_sp, with_stack; cbn in *. f_equal. lia.
Qed.

Section Lists.
Context `{External}.

(** C5.  [BuildList n] turns the [n] topmost stack values into a list in
    which the bottom-most of them is at index 0 ([vs] lists the [n] slots
    from the bottom-most up; [ip vm] is the address of the operand word).
    Pushing an integer [i] with [0 <= i < n] and dispatching [BinarySubscr]
    then leaves the [i]-th pushed value on top of the stack. *)
Theorem build_list_then_subscript
    (call_ : Value -> list Value -> M (option error))
    (loadModule_ : string -> M (Module + error))
    (opBuild opSubscr : Z) (vm : VirtualMachine) (c : code)
    (n : Z) (vs : list Value) (i : Z) :
  decodeOp opBuild = Some op.BuildList ->
  decodeOp opSubscr = Some op.BinarySubscr ->
  activeCode vm = Some c ->
  0 <= ip vm ->
  Instructions (compiled c) !! Z.to_nat (ip vm) = Some n ->
  0 <= n < 65536 ->
  sp vm < MaxStackDepth ->
  0 <= sp vm - n + 1 ->
  sp vm - n + 2 < MaxStackDepth ->
  stackSegment (stack vm) (sp vm - n + 1) (Z.to_nat n) = vs ->
  0 <= i < n ->
  exists vm1,
    dispatch call_ loadModule_ opBuild vm = (Ret Continue, vm1) /\
    sp vm1 = sp vm - n + 1 /\
    TOS vm1 = (Some (OList vs), true) /\
    (forall k, k <= sp vm - n -> stack vm1 !! k = stack vm !! k) /\
    exists vm2,
      (push (Some (OInt i));;; dispatch call_ loadModule_ opSubscr) vm1
      = (Ret Continue, vm2) /\
      sp vm2 = sp vm1 /\
      TOS vm2 = (mjoin (vs !! Z.to_nat i), true).
Proof.
  intros Hb Hs Hc Hip Hop Hn Hsp Hlo Hroom Hvs Hi.
  assert (Hlen : length vs = Z.to_nat n).
  { rewrite <- Hvs. unfold stackSegment. rewrite length_fmap, length_seq. reflexivity. }
  set (vm0 := with_ip (ip vm + 1) vm).
  set (vmk := with_sp (sp vm0 - Z.of_nat (Z.to_nat n))
                (with_stack (vacate (Z.to_nat n) (sp vm0) (stack vm0)) vm0)).
  assert (Hpoploop :
    popLoop (Z.to_nat n) 0 (fun j => (Z.to_nat n - 1 - j)%nat)
            (replicate (Z.to_nat n) None) vm0 = (Ret vs, vmk)).
  { rewrite (popLoop_reads_segment (Z.to_nat n));
      [| lia | apply length_replicate | exact Hsp | cbn; lia].
    unfold vmk. f_equal. f_equal.
    rewrite drop_replicate, Nat.sub_diag. cbn [replicate].
    rewrite app_nil_r. rewrite <- Hvs. cbn. f_equal. lia. }
  set (vm1 := with_stack (slot_set (sp vmk + 1) (Some (OList vs)) (stack vmk))
                (with_sp (sp vmk + 1) vmk)).
  assert (Hspk : sp vmk = sp vm - n) by (cbn; lia).
  assert (Hbuild : dispatch call_ loadModule_ opBuild vm = (Ret Continue, vm1)).
  { unfold dispatch. rewrite Hb.
    erewrite bind_Ret by (eapply fetch_ok; eassumption).
    rewrite (Z.mod_small n) by lia. fold vm0.
    rewrite (bind_Ret _ _ _ _ _ Hpoploop).
    rewrite (bind_Ret _ _ _ _ _ (push_ok _ vmk ltac:(lia) ltac:(lia))).
    reflexivity. }
  assert (Hsp1 : sp vm1 = sp vm - n + 1) by (cbn; lia).
  assert (Htos1 : stack vm1 !! sp vm1 = Some (OList vs)).
  { cbn. apply lookup_insert_eq. }
  exists vm1. split; [exact Hbuild|]. split; [exact Hsp1|]. split.
  { unfold TOS. rewrite Htos1. destruct (Z.leb_spec 0 (sp vm1)); [reflexivity|lia]. }
  split.
  { intros k Hk. cbn. rewrite lookup_insert_ne by lia.
    apply vacate_lookup_below. lia. }
  set (vm2 := with_stack (slot_set (sp vm1 + 1) (Some (OInt i)) (stack vm1))
                (with_sp (sp vm1 + 1) vm1)).
  assert (Hpush : push (Some (OInt i)) vm1 = (Ret tt, vm2)).
  { apply push_ok; lia. }
  set (vm3 := with_sp (sp vm2 - 1) (with_stack (delete (sp vm2) (stack vm2)) vm2)).
  set (vm4 := with_sp (sp vm3 - 1) (with_stack (delete (sp vm3) (stack vm3)) vm3)).
  assert (Hidx : stack vm2 !! sp vm2 = Some (OInt i)).
  { cbn [vm2 stack sp with_stack with_sp]. apply slot_set_lookup. }
  assert (Hlhs : stack vm3 !! sp vm3 = Some (OList vs)).
  { unfold vm3, vm2. cbn [stack sp with_stack with_sp slot_set].
    rewrite lookup_delete_ne by lia. rewrite lookup_insert_ne by lia.
    replace (sp vm1 + 1 - 1) with (sp vm1) by lia. exact Htos1. }
  assert (Hsp2 : sp vm2 = sp vm1 + 1) by reflexivity.
  assert (Hsp3 : sp vm3 = sp vm1) by (cbn [vm3 sp with_sp]; lia).
  assert (Hsp4 : sp vm4 = sp vm1 - 1) by (cbn [vm4 sp with_sp]; lia).
  eexists. split.
  { rewrite (bind_Ret _ _ _ _ _ Hpush).
    unfold dispatch. rewrite Hs.
    rewrite (bind_Ret _ _ _ _ _ (pop_ok vm2 ltac:(lia))). fold vm3.
    rewrite (bind_Ret _ _ _ _ _ (pop_ok vm3 ltac:(lia))). fold vm4.
    rewrite Hidx, Hlhs. cbn [asContainer listContainer c_get listGetItem].
    destruct (Z.leb_spec 0 i); [|lia].
    destruct (Z.ltb_spec i (Z.of_nat (length vs))); [|lia].
    cbn [andb].
    rewrite (bind_Ret _ _ _ _ _ (push_ok _ vm4 ltac:(lia) ltac:(lia))).
    reflexivity. }
  split.
  { cbn [sp with_stack with_sp]. lia. }
  unfold TOS. cbn [sp with_stack with_sp stack].
  rewrite slot_set_lookup.
  destruct (Z.leb_spec 0 (sp vm4 + 1)); [|lia].
  reflexivity.
Qed.

End Lists.
(** ** Invariants of the module cache

    A generic preservation argument: a property of the machine that only
    depends on the importer and on the module cache is kept by every
    primitive of the dispatcher; the only writer of the cache is the last
    step of [loadModule]. *)

Section Preservation.
Context `{External}.
Variable P : VirtualMachine -> Prop.
Hypothesis P_stable : forall vm vm',
  importer vm' = importer vm -> modules vm' = modules vm -> P vm -> P vm'.
Hypothesis P_insert : forall vm vm2 name m imp,
  P vm -> modules vm !! name = None -> importer vm = Some imp ->
  P vm2 -> P (with_modules (<[name := m]> (modules vm2)) vm2).

Lemma preserves_ret {A} (a : A) : preserves P (ret a).
Proof. intros vm HP. exact HP. Qed.

Lemma preserves_panic {A} d : preserves P (@panic A d).
Proof. intros vm HP. exact HP. Qed.

Lemma preserves_const {A} (r : Result A) : preserves P (fun vm => (r, vm)).
Proof. intros vm HP. exact HP. Qed.

Lemma preserves_gets {A} (f : VirtualMachine -> A) : preserves P (gets f).
Proof. intros vm HP. exact HP. Qed.

Lemma preserves_modify (f : VirtualMachine -> VirtualMachine) :
  (forall vm, importer (f vm) = importer vm /\ modules (f vm) = modules vm) ->
  preserves P (modify f).
Proof. intros Hf vm HP. destruct (Hf vm). eapply P_stable; eauto. Qed.

Lemma preserves_bind {A B} (m : M A) (k : A -> M B) :
  preserves P m -> (forall a, preserves P (k a)) -> preserves P (bind m k).
Proof.
  intros Hm Hk vm HP. unfold bind. specialize (Hm vm HP).
  destruct (m vm) as [[a|d| |o] vm1]; cbn in *; try exact Hm.
  apply Hk. exact Hm.
Qed.

Lemma preserves_deferring {A} (onReturn : A -> M A) (onPanic : M unit) (body : M A) :
  preserves P body -> (forall a, preserves P (onReturn a)) -> preserves P onPanic ->
  preserves P (deferring onReturn onPanic body).
Proof.
  intros Hb Hr Hp vm HP. unfold deferring. specialize (Hb vm HP).
  destruct (body vm) as [[a|d| |o] vm1]; cbn in *; try exact Hb.
  - apply Hr. exact Hb.
  - specialize (Hp vm1 Hb).
    destruct (onPanic vm1) as [[a|d'| |o] vm2]; cbn in *; exact Hp.
Qed.

Ltac pres_step :=
  lazymatch goal with
  | |- preserves _ (ret _) => apply preserves_ret
  | |- preserves _ (panic _) => apply preserves_panic
  | |- preserves _ (gets _) => apply preserves_gets
  | |- preserves _ (fun vm => (_, vm)) => apply preserves_const
  | |- preserves _ (modify _) =>
      apply preserves_modify; intros ?; split; reflexivity
  | |- preserves _ (bind _ _) => apply preserves_bind; [|intros ?]
  | |- preserves _ (deferring _ _ _) => apply preserves_deferring; [|intros ?|]
  | |- preserves _ (match ?x with _ => _ end) => destruct x
  | |- preserves _ (let _ := _ in _) => cbv zeta
  | |- preserves _ _ => solve [auto with pres]
  end.
Ltac pres := repeat pres_step.

Lemma preserves_checkIndex i len : preserves P (checkIndex i len).
Proof. unfold checkIndex. pres. Qed.
Hint Resolve preserves_checkIndex : pres.

Lemma preserves_index {A} (d : A) l i : preserves P (index d l i).
Proof. unfold index. pres. Qed.
Hint Resolve preserves_index : pres.

Lemma preserves_pop : preserves P pop.
Proof. unfold pop. pres. Qed.
Hint Resolve preserves_pop : pres.

Lemma preserves_push v : preserves P (push v).
Proof. unfold push. pres. Qed.
Hint Resolve preserves_push : pres.

Lemma preserves_swap pos : preserves P (swap pos).
Proof. unfold swap. pres. Qed.
Hint Resolve preserves_swap : pres.

Lemma preserves_theCode : preserves P theCode.
Proof. unfold theCode. pres. Qed.
Hint Resolve preserves_theCode : pres.

Lemma preserves_fetch : preserves P fetch.
Proof. unfold fetch. pres. Qed.
Hint Resolve preserves_fetch : pres.

Lemma preserves_theFrame : preserves P theFrame.
Proof. unfold theFrame. pres. Qed.
Hint Resolve preserves_theFrame : pres.

Lemma preserves_setFrame i f : preserves P (setFrame i f).
Proof. unfold setFrame. pres. Qed.
Hint Resolve preserves_setFrame : pres.

Lemma preserves_clearSlots n i : preserves P (clearSlots n i).
Proof. revert i. induction n; intros i; cbn [clearSlots]; pres. Qed.
Hint Resolve preserves_clearSlots : pres.

Lemma preserves_resumeFrame fp_ ip_ sp_ : preserves P (resumeFrame fp_ ip_ sp_).
Proof. unfold resumeFrame. pres. Qed.
Hint Resolve preserves_resumeFrame : pres.

Lemma preserves_activateCode fp_ ip_ c : preserves P (activateCode fp_ ip_ c).
Proof. unfold activateCode. pres. Qed.
Hint Resolve preserves_activateCode : pres.

Lemma preserves_load cc : preserves P (load cc).
Proof. unfold load, loadRootCode, register. pres. Qed.
Hint Resolve preserves_load : pres.

Lemma preserves_activateFunction fp_ ip_ fn locals :
  preserves P (activateFunction fp_ ip_ fn locals).
Proof. unfold activateFunction. pres. Qed.
Hint Resolve preserves_activateFunction : pres.

Lemma preserves_notA what v : preserves P (notA what v).
Proof. unfold notA, typeName, failf. pres. Qed.
Hint Resolve preserves_notA : pres.

Lemma preserves_popLoop n i dst items : preserves P (popLoop n i dst items).
Proof. revert i items. induction n; intros i items; cbn [popLoop]; pres. Qed.
Hint Resolve preserves_popLoop : pres.

Lemma preserves_popToTmp n : preserves P (popToTmp n).
Proof. induction n; cbn [popToTmp]; pres. Qed.
Hint Resolve preserves_popToTmp : pres.

Lemma preserves_sliceTmp n : preserves P (sliceTmp n).
Proof. unfold sliceTmp. pres. Qed.
Hint Resolve preserves_sliceTmp : pres.

Lemma preserves_storeTmp i vs : preserves P (storeTmp i vs).
Proof. revert i. induction vs; intros i; cbn [storeTmp]; pres. Qed.
Hint Resolve preserves_storeTmp : pres.

Lemma preserves_pushAll vs : preserves P (pushAll vs).
Proof. induction vs; cbn [pushAll]; pres. Qed.
Hint Resolve preserves_pushAll : pres.

Lemma preserves_popNames k names : preserves P (popNames k names).
Proof. revert names. induction k; intros names; cbn [popNames]; pres. Qed.
Hint Resolve preserves_popNames : pres.

Lemma preserves_popFrom k from : preserves P (popFrom k from).
Proof. revert from. induction k; intros from; cbn [popFrom]; pres. Qed.
Hint Resolve preserves_popFrom : pres.

Lemma preserves_popJump wanted shift : preserves P (popJump wanted shift).
Proof. unfold popJump. pres. Qed.
Hint Resolve preserves_popJump : pres.

Lemma preserves_importNames loadModule_ from names :
  (forall name, preserves P (loadModule_ name)) ->
  preserves P (importNames loadModule_ from names).
Proof.
  intros Hl. induction names; cbn [importNames]; unfold failf; pres.
Qed.

Lemma preserves_fireDefers call_ partials res :
  (forall fn args, preserves P (call_ fn args)) ->
  preserves P (fireDefers call_ partials res).
Proof.
  intros Hc. revert res. induction partials; intros res; cbn [fireDefers]; pres.
Qed.

Lemma preserves_enterFunction fn args : preserves P (enterFunction fn args).
Proof. unfold enterFunction. pres. Qed.
Hint Resolve preserves_enterFunction : pres.

Lemma preserves_dispatch call_ loadModule_ opcode :
  (forall fn args, preserves P (call_ fn args)) ->
  (forall name, preserves P (loadModule_ name)) ->
  preserves P (dispatch call_ loadModule_ opcode).
Proof.
  intros Hc Hl. unfold dispatch.
  destruct (decodeOp opcode) as [[]|]; unfold failf; pres;
    apply preserves_importNames; assumption.
Qed.

Ltac at_state vm HP :=
  match goal with
  | |- P (?m vm).2 =>
      let Hm := fresh "Hm" in
      cut (preserves P m); [intros Hm; exact (Hm vm HP)|]
  end.

(** Every function of the reentrant dispatcher keeps such a property. *)
Lemma preserves_machine (fuel : nat) :
  (forall ctx, preserves P (eval fuel ctx)) /\
  (forall ctx fn args, preserves P (call fuel ctx fn args)) /\
  (forall ctx fn args, preserves P (callFunction fuel ctx fn args)) /\
  (forall ctx name, preserves P (loadModule fuel ctx name)).
Proof.
  induction fuel as [|n (IHe & IHc & IHf & IHl)].
  - repeat split.
    + intros ctx vm HP. cbn [eval]. repeat case_match; exact HP.
    + intros ctx fn args vm HP. exact HP.
    + intros ctx fn args vm HP. cbn [callFunction]. repeat case_match; exact HP.
    + intros ctx name vm HP. cbn [loadModule]. repeat case_match; exact HP.
  - repeat split.
    + intros ctx vm HP. cbn [eval].
      destruct (activeCode vm) as [c|]; [|exact HP].
      destruct (ip vm <? _); [|exact HP].
      destruct (halt vm =? 1); [exact HP|].
      at_state vm HP. pres.
      apply preserves_dispatch; auto.
    + intros ctx fn args. cbn [call].
      destruct fn as [[]|]; pres; auto.
    + intros ctx fn args vm HP. cbn [callFunction].
      destruct (checkCallArgs fn _); [exact HP|].
      at_state vm HP. unfold withDefer. pres;
        apply preserves_fireDefers; auto.
    + intros ctx name vm HP. cbn [loadModule].
      destruct (modules vm !! name) eqn:Hm; [exact HP|].
      destruct (importer vm) as [imp|] eqn:Hi; [|exact HP].
      destruct (imp name) as [module|err]; [|exact HP].
      at_state vm HP. unfold withDefer. pres.
      intros vm2 HP2. exact (P_insert vm vm2 name _ imp HP Hm Hi HP2).
Qed.

Lemma preserves_reload cc : preserves P (reload cc).
Proof. unfold reload. pres. Qed.
Hint Resolve preserves_reload : pres.

Lemma preserves_loadConstants cs : preserves P (loadConstants cs).
Proof. induction cs as [|[[]|] cs IH]; cbn [loadConstants]; pres. Qed.
Hint Resolve preserves_loadConstants : pres.

Lemma preserves_recovering body : preserves P body -> preserves P (recovering body).
Proof.
  intros Hb vm HP. unfold recovering. specialize (Hb vm HP).
  destruct (body vm) as [[a|d| |o] vm1]; exact Hb.
Qed.

(** [Run] keeps such a property from the state it has set up. *)
Lemma preserves_Run (fuel : nat) (ctx : Context) (vm : VirtualMachine) :
  P (seeded vm) -> P (Run fuel ctx vm).2.
Proof.
  intros HP.
  change (Run fuel ctx vm)
    with (recovering
            (withDefer (modify (with_running false))
               (main_ <- gets main;;
                loadConstants (Constants main_);;;
                reg <- gets loadedCode;;
                c <- (if decide (size reg = 0%nat) then load main_ else reload main_);;
                ip0 <- gets ip;;
                activateCode 0 ip0 c;;;
                eval fuel ctx)) (seeded vm)).
  at_state (seeded vm) HP.
  apply preserves_recovering. unfold withDefer. pres.
  apply (proj1 (preserves_machine fuel)).
Qed.

End Preservation.

(** Two instances: the module cache only grows, and without an importer
    it does not change at all. *)

Lemma cache_grows `{External} (vm0 : VirtualMachine) (fuel : nat) :
  let P := fun vm => modules vm0 ⊆ modules vm in
  (forall ctx, preserves P (eval fuel ctx)) /\
  (forall ctx fn args, preserves P (call fuel ctx fn args)) /\
  (forall ctx fn args, preserves P (callFunction fuel ctx fn args)) /\
  (forall ctx name, preserves P (loadModule fuel ctx name)).
Proof.
  intros P. apply preserves_machine; unfold P.
  - intros vm vm' _ -> Hsub. exact Hsub.
  - intros vm vm2 name m imp Hsub Hnone _ Hsub2. cbn.
    apply insert_subseteq_r; [|exact Hsub2].
    eapply lookup_weaken_None; eauto.
Qed.

Lemma cache_frozen_without_importer `{External} (vm0 : VirtualMachine) (fuel : nat) :
  let P := fun vm => importer vm = None /\ modules vm = modules vm0 in
  (forall ctx, preserves P (eval fuel ctx)) /\
  (forall ctx fn args, preserves P (call fuel ctx fn args)) /\
  (forall ctx fn args, preserves P (callFunction fuel ctx fn args)) /\
  (forall ctx name, preserves P (loadModule fuel ctx name)).
Proof.
  intros P. apply preserves_machine; unfold P.
  - intros vm vm' -> -> HP. exact HP.
  - intros vm vm2 name m imp [Hi _] _ Himp _. congruence.
Qed.

(** ** The module cache *)

Lemma bind_inv {A B} (m : M A) (k : A -> M B) vm b vm' :
  bind m k vm = (Ret b, vm') ->
  exists a vm1, m vm = (Ret a, vm1) /\ k a vm1 = (Ret b, vm').
Proof.
  unfold bind. destruct (m vm) as [[a|d| |o] vm1]; intros Hk; try discriminate.
  exists a, vm1. split; [reflexivity|exact Hk].
Qed.

Lemma withDefer_inv {A} (d : M unit) (body : M A) vm a vm' :
  withDefer d body vm = (Ret a, vm') ->
  exists vm1, body vm = (Ret a, vm1) /\ d vm1 = (Ret tt, vm').
Proof.
  unfold withDefer, deferring.
  destruct (body vm) as [[a1|d1| |o] vm1]; intros Hk.
  - apply bind_inv in Hk as ([] & vm2 & Hd & Hr).
    unfold ret in Hr. injection Hr as -> ->. exists vm1. split; reflexivity || exact Hd.
  - destruct (d vm1) as [[?|?| |?] ?]; discriminate.
  - discriminate.
  - discriminate.
Qed.

Section ModuleCache.
Context `{External}.

Lemma loadModule_cached fuel ctx name vm m :
  modules vm !! name = Some m ->
  loadModule fuel ctx name vm = (Ret (inl m), vm).
Proof. intros Hm. destruct fuel; cbn [loadModule]; rewrite Hm; reflexivity. Qed.

Lemma loadModule_caches fuel ctx name vm m vm' :
  loadModule fuel ctx name vm = (Ret (inl m), vm') ->
  modules vm' !! name = Some m.
Proof.
  intros Hres.
  destruct (modules vm !! name) as [m0|] eqn:Hm.
  { rewrite (loadModule_cached _ _ _ _ _ Hm) in Hres.
    injection Hres as -> ->. exact Hm. }
  destruct fuel as [|n]; cbn [loadModule] in Hres; rewrite Hm in Hres;
    destruct (importer vm) as [imp|]; try discriminate;
    destruct (imp name) as [module|err]; try discriminate.
  apply bind_inv in Hres as (c & vm1 & _ & Hres).
  apply bind_inv in Hres as ([] & vm2 & _ & Hres).
  apply withDefer_inv in Hres as (vm3 & Hbody & Hresume).
  apply bind_inv in Hbody as (err & vm4 & _ & Hbody).
  destruct err as [e|]; [discriminate|].
  apply bind_inv in Hbody as ([] & vm5 & Hmod & Hret).
  unfold ret in Hret. injection Hret as <- <-.
  unfold modify in Hmod. injection Hmod as <-.
  pose proof (preserves_resumeFrame (fun v => modules v !! name = Some (UseGlobals module (Globals c)))
                ltac:(intros ? ? _ Heq; cbn; rewrite Heq; trivial) (fp vm) (ip vm) (sp vm)
                (with_modules (<[name := UseGlobals module (Globals c)]> (modules vm4)) vm4)
                (lookup_insert_eq (modules vm4) name _)) as Hkeep.
  rewrite Hresume in Hkeep. exact Hkeep.
Qed.

(** What an import of [name] returns after [Run]: the module the host
    passes under that name if there is one, the cached module otherwise. *)
Lemma Run_keeps_seeded_cache fuel ctx vm name m :
  modules (seeded vm) !! name = Some m ->
  modules (Run fuel ctx vm).2 !! name = Some m.
Proof.
  intros Hm.
  assert (Hsub : modules (seeded vm) ⊆ modules (Run fuel ctx vm).2).
  { apply (preserves_Run (fun v => modules (seeded vm) ⊆ modules v)).
    - intros v v' _ -> Hs. exact Hs.
    - intros v v2 n m' imp Hs Hnone _ Hs2. cbn.
      apply insert_subseteq_r; [|exact Hs2].
      eapply lookup_weaken_None; eauto.
    - reflexivity. }
  eapply lookup_weaken; eauto.
Qed.

(** C4.  Importing a module name twice in the same machine yields the same
    module, as long as no [Run] in between puts a host module under that
    name.  A successful load leaves the module cached under its name; a
    later import of the name returns the cached module, whatever the fuel
    (in particular with none, so without evaluating any code), and leaves
    the machine untouched.  The cache entry survives any further
    evaluation, call or load of another module.  It survives a [Run] when
    the host globals hold no module under the name; when they hold one,
    [Run] puts that module in the cache and an import of the name returns
    it from then on. *)
Theorem import_twice_same_module
    (fuel : nat) (ctx : Context) (name : string)
    (vm vm' : VirtualMachine) (m : Module) :
  loadModule fuel ctx name vm = (Ret (inl m), vm') ->
  modules vm' !! name = Some m /\
  (forall fuel' ctx', loadModule fuel' ctx' name vm' = (Ret (inl m), vm')) /\
  (forall fuel1 ctx1 r vm'',
     eval fuel1 ctx1 vm' = (r, vm'') ->
     forall fuel2 ctx2, loadModule fuel2 ctx2 name vm'' = (Ret (inl m), vm'')) /\
  (forall fuel1 ctx1 fn args r vm'',
     call fuel1 ctx1 fn args vm' = (r, vm'') ->
     forall fuel2 ctx2, loadModule fuel2 ctx2 name vm'' = (Ret (inl m), vm'')) /\
  (forall fuel1 ctx1 other r vm'',
     loadModule fuel1 ctx1 other vm' = (r, vm'') ->
     forall fuel2 ctx2, loadModule fuel2 ctx2 name vm'' = (Ret (inl m), vm'')) /\
  (forall fuel1 ctx1 fn args r vm'',
     Call fuel1 ctx1 fn args vm' = (r, vm'') ->
     forall fuel2 ctx2, loadModule fuel2 ctx2 name vm'' = (Ret (inl m), vm'')) /\
  (forall fuel1 ctx1 r vm'',
     omap asModule (inputGlobals vm') !! name = None ->
     Run fuel1 ctx1 vm' = (r, vm'') ->
     forall fuel2 ctx2, loadModule fuel2 ctx2 name vm'' = (Ret (inl m), vm'')) /\
  (forall fuel1 ctx1 r vm'' hosted,
     omap asModule (inputGlobals vm') !! name = Some hosted ->
     Run fuel1 ctx1 vm' = (r, vm'') ->
     forall fuel2 ctx2, loadModule fuel2 ctx2 name vm'' = (Ret (inl hosted), vm'')).
Proof.
  intros Hres. pose proof (loadModule_caches _ _ _ _ _ _ Hres) as Hm.
  split; [exact Hm|]. split.
  { intros. apply loadModule_cached. exact Hm. }
  split; [|split; [|split; [|split; [|split]]]].
  - intros fuel1 ctx1 r vm'' Hev fuel2 ctx2.
    apply loadModule_cached.
    destruct (cache_grows vm' fuel1) as (He & _).
    assert (Hs : modules vm' ⊆ modules vm') by reflexivity.
    specialize (He ctx1 vm' Hs). cbn beta in He. rewrite Hev in He.
    eapply lookup_weaken; eauto.
  - intros fuel1 ctx1 fn args r vm'' Hev fuel2 ctx2.
    apply loadModule_cached.
    destruct (cache_grows vm' fuel1) as (_ & Hc & _).
    assert (Hs : modules vm' ⊆ modules vm') by reflexivity.
    specialize (Hc ctx1 fn args vm' Hs). cbn beta in Hc. rewrite Hev in Hc.
    eapply lookup_weaken; eauto.
  - intros fuel1 ctx1 other r vm'' Hev fuel2 ctx2.
    apply loadModule_cached.
    destruct (cache_grows vm' fuel1) as (_ & _ & _ & Hl).
    assert (Hs : modules vm' ⊆ modules vm') by reflexivity.
    specialize (Hl ctx1 other vm' Hs). cbn beta in Hl. rewrite Hev in Hl.
    eapply lookup_weaken; eauto.
  - intros fuel1 ctx1 fn args r vm'' Hev fuel2 ctx2.
    apply loadModule_cached.
    unfold Call, bind, gets in Hev.
    destruct (running vm').
    + unfold ret in Hev. injection Hev as _ <-. exact Hm.
    + destruct (cache_grows vm' fuel1) as (_ & _ & Hf & _).
      assert (Hs : modules vm' ⊆ modules vm') by reflexivity.
      specialize (Hf ctx1 fn args vm' Hs). cbn beta in Hf. rewrite Hev in Hf.
      eapply lookup_weaken; eauto.
  - intros fuel1 ctx1 r vm'' Hhost Hrun fuel2 ctx2.
    apply loadModule_cached.
    pose proof (Run_keeps_seeded_cache fuel1 ctx1 vm' name m) as Hk.
    rewrite Hrun in Hk. apply Hk.
    unfold seeded. cbn [modules with_running with_modules].
    rewrite lookup_union_r by exact Hhost. exact Hm.
  - intros fuel1 ctx1 r vm'' hosted Hhost Hrun fuel2 ctx2.
    apply loadModule_cached.
    pose proof (Run_keeps_seeded_cache fuel1 ctx1 vm' name hosted) as Hk.
    rewrite Hrun in Hk. apply Hk.
    unfold seeded. cbn [modules with_running with_modules].
    apply lookup_union_Some_l. exact Hhost.
Qed.

End ModuleCache.

(** ** Clones *)

Lemma activateCode_ok (fp_ ip_ : Z) (c : code) (vm : VirtualMachine) :
  0 <= fp_ < MaxFrameDepth ->
  activateCode fp_ ip_ c vm
  = (Ret tt, with_active (Some fp_) (Some c)
               (with_frames (<[fp_ := ActivateCode c]> (frames vm))
                  (with_ip ip_ (with_fp fp_ vm)))).
Proof.
  intros Hfp. unfold activateCode.
  unfold bind at 1, modify at 1. unfold bind at 1, modify at 1.
  erewrite bind_Ret by (apply checkIndex_ok; exact Hfp).
  reflexivity.
Qed.

Lemma load_keeps_inputs (cc : Code) (vm : VirtualMachine) :
  exists c vm', load cc vm = (Ret c, vm') /\ inputGlobals vm' = inputGlobals vm.
Proof.
  unfold load, bind at 1, gets at 1.
  destruct (loadedCode vm !! code_id cc); [eexists _, _; split; reflexivity|].
  destruct (Nat.eqb (root_id cc) (code_id cc)); [eexists _, _; split; reflexivity|].
  destruct (loadedCode vm !! root_id cc); eexists _, _; split; reflexivity.
Qed.

Lemma sealedCache_stable (C : gmap string Module) (v v' : VirtualMachine) :
  importer v' = importer v -> modules v' = modules v ->
  sealedCache C v -> sealedCache C v'.
Proof. unfold sealedCache. intros -> ->. trivial. Qed.

Lemma sealedCache_insert (C : gmap string Module) (v v2 : VirtualMachine)
    (name : string) (m : Module) (imp : Importer) :
  sealedCache C v -> modules v !! name = None -> importer v = Some imp ->
  sealedCache C v2 -> sealedCache C (with_modules (<[name := m]> (modules v2)) v2).
Proof. intros [Hi _] _ Himp _. congruence. Qed.

Section Clones.
Context `{External}.

(** C10.  A clone has no importer and the module cache of its parent at
    clone time.  No execution on it installs an importer, and its cache
    only changes when a [Run] on the clone puts the modules found among
    the host globals in it; evaluations and calls leave it as it is.  On
    such a machine, loading a name that is not in its cache fails with the
    execution error [imports are disabled] and changes nothing, while a
    name in the cache resolves to the cached module: the one cached by the
    parent, for the cache of clone time.  Hence [Import] of an uncached
    name ends the evaluation with that error, and so does [FromImport]
    when neither the submodule path nor the parent path is cached. *)
Theorem clone_imports_disabled (vm : VirtualMachine) :
  sealedCache (modules vm) (Clone vm) /\
  inputGlobals (Clone vm) = inputGlobals vm /\
  (forall C fuel ctx, preserves (sealedCache C) (eval fuel ctx)) /\
  (forall C fuel ctx fn args, preserves (sealedCache C) (Call fuel ctx fn args)) /\
  (forall C fuel ctx v, sealedCache C v ->
     sealedCache (omap asModule (inputGlobals v) ∪ C) (Run fuel ctx v).2) /\
  forall C v, sealedCache C v ->
    (forall fuel ctx name, C !! name = None ->
       loadModule fuel ctx name v
       = (Ret (inr (exec_error "imports are disabled")), v)) /\
    (forall fuel ctx name m, C !! name = Some m ->
       loadModule fuel ctx name v = (Ret (inl m), v)) /\
    (forall fuel ctx opcode name,
       decodeOp opcode = Some op.Import ->
       0 <= sp v < MaxStackDepth ->
       stack v !! sp v = Some (OString name) ->
       C !! name = None ->
       dispatch (call fuel ctx) (loadModule fuel ctx) opcode v
       = (Ret (Return (Some (exec_error "imports are disabled"))),
          with_sp (sp v - 1) (with_stack (delete (sp v) (stack v)) v))) /\
    (forall fuel ctx from name rest,
       C !! pathJoin [pathJoin from; name] = None ->
       C !! pathJoin from = None ->
       importNames (loadModule fuel ctx) from (name :: rest) v
       = (Ret (Return (Some (exec_error "imports are disabled"))), v)).
Proof.
  assert (Hload : forall C v, sealedCache C v -> forall fuel ctx name,
            C !! name = None ->
            loadModule fuel ctx name v
            = (Ret (inr (exec_error "imports are disabled")), v)).
  { intros C v [Hi Hm] fuel ctx name Hnone.
    destruct fuel; cbn [loadModule]; rewrite Hm, Hnone, Hi; reflexivity. }
  assert (Hmachine : forall C fuel,
            (forall ctx, preserves (sealedCache C) (eval fuel ctx)) /\
            (forall ctx fn args, preserves (sealedCache C) (callFunction fuel ctx fn args))).
  { intros C fuel.
    destruct (preserves_machine (sealedCache C) (sealedCache_stable C)
                (sealedCache_insert C) fuel) as (He & _ & Hf & _).
    split; assumption. }
  assert (Hclone : forall Q : VirtualMachine -> Prop,
            (forall v v', importer v' = importer v -> modules v' = modules v ->
                          Q v -> Q v') ->
            forall start, Q start ->
            Q ((c <- load (main start);; activateCode 0 (ip vm) c) start).2).
  { intros Q HQ start Hstart.
    exact (preserves_bind Q _ _ (preserves_load Q HQ _)
             (fun c => preserves_activateCode Q HQ _ _ c) start Hstart). }
  split; [|split; [|split; [|split; [|split]]]].
  - unfold Clone. apply (Hclone (sealedCache (modules vm)) (sealedCache_stable _)).
    split; reflexivity.
  - unfold Clone.
    match goal with
    | |- inputGlobals (bind (load ?cc) _ ?start).2 = _ =>
        destruct (load_keeps_inputs cc start) as (c & v1 & Hl & Hin);
        unfold bind at 1; rewrite Hl
    end.
    rewrite activateCode_ok by (unfold MaxFrameDepth; lia).
    cbn [snd inputGlobals with_active with_frames with_ip with_fp]. exact Hin.
  - intros C fuel ctx. apply (Hmachine C fuel).
  - intros C fuel ctx fn args. unfold Call.
    apply preserves_bind; [apply preserves_gets|].
    intros [|]; [apply preserves_ret|].
    apply (Hmachine C fuel).
  - intros C fuel ctx v [Hi Hm].
    apply (preserves_Run (sealedCache (omap asModule (inputGlobals v) ∪ C))
             (sealedCache_stable _) (sealedCache_insert _)).
    unfold seeded, sealedCache. cbn [importer modules with_running with_modules with_globals].
    rewrite Hm. split; [exact Hi|reflexivity].
  - intros C v Hv. split; [exact (Hload C v Hv)|]. split; [|split].
    + intros fuel ctx name m Hsome. apply loadModule_cached.
      destruct Hv as [_ ->]. exact Hsome.
    + intros fuel ctx opcode name Hdec Hsp Htos Hnone.
      unfold dispatch. rewrite Hdec.
      rewrite (bind_Ret _ _ _ _ _ (pop_ok v Hsp)). rewrite Htos.
      rewrite (bind_Ret _ _ _ _ _
                 (Hload C (with_sp (sp v - 1) (with_stack (delete (sp v) (stack v)) v))
                        ltac:(destruct Hv; split; assumption) fuel ctx name Hnone)).
      reflexivity.
    + intros fuel ctx from name rest Hn1 Hn2. cbn [importNames].
      rewrite (bind_Ret _ _ _ _ _ (Hload C v Hv fuel ctx _ Hn1)).
      rewrite (bind_Ret _ _ _ _ _ (Hload C v Hv fuel ctx _ Hn2)).
      reflexivity.
Qed.

End Clones.

(** ** Frame teardown *)

Lemma clearSlots_ok (n : nat) (i : Z) (vm : VirtualMachine) :
  0 <= i - Z.of_nat n + 1 -> i < MaxStackDepth ->
  clearSlots n i vm = (Ret tt, with_stack (vacate n i (stack vm)) vm).
Proof.
  revert i vm. induction n as [|n IH]; intros i vm Hlo Hhi.
  - cbn [clearSlots vacate]. destruct vm; reflexivity.
  - cbn [clearSlots vacate].
    rewrite (bind_Ret _ _ _ _ _ (checkIndex_ok i MaxStackDepth vm ltac:(lia))).
    unfold bind at 1, modify at 1.
    rewrite IH by lia. destruct vm; reflexivity.
Qed.

Lemma vacate_lookup_above k s st j :
  s < j -> vacate k s st !! j = st !! j.
Proof.
  revert s st. induction k as [|k IH]; intros s st Hj; [reflexivity|].
  cbn [vacate]. rewrite IH by lia. apply lookup_delete_ne. lia.
Qed.

Lemma vacate_lookup_cleared k s st j :
  s - Z.of_nat k < j <= s -> vacate k s st !! j = None.
Proof.
  revert s st. induction k as [|k IH]; intros s st Hj; [lia|].
  cbn [vacate]. destruct (decide (j = s)) as [->|Hne].
  - rewrite vacate_lookup_above by lia. apply lookup_delete_eq.
  - apply IH. lia.
Qed.

(** What [resumeFrame] does for a callee that left its result on top of
    the stack: the result lands one slot above the caller's watermark, the
    slots the callee left above it are cleared, the slots up to the
    watermark are untouched, and the caller's registers are restored. *)
Lemma resumeFrame_keeps_one_result (fp_ ip_ sp_ : Z) (vm : VirtualMachine)
    (top : Object) :
  -1 <= sp_ -> sp_ < sp vm -> sp vm < MaxStackDepth ->
  stack vm !! sp vm = Some top ->
  0 <= fp_ < MaxFrameDepth ->
  exists vm',
    resumeFrame fp_ ip_ sp_ vm = (Ret tt, vm') /\
    sp vm' = sp_ + 1 /\
    stack vm' !! (sp_ + 1) = Some top /\
    (forall k, k <= sp_ -> stack vm' !! k = stack vm !! k) /\
    (forall k, sp_ + 1 < k <= sp vm -> stack vm' !! k = None) /\
    fp vm' = fp_ /\ ip vm' = ip_ /\ activeFrame vm' = Some fp_.
Proof.
  intros Hlo Hlt Hhi Htop Hfp.
  unfold resumeFrame. unfold bind at 1, gets at 1.
  destruct (Z.ltb_spec sp_ (sp vm)); [|lia].
  rewrite (bind_Ret _ _ _ _ _ (pop_ok vm ltac:(lia))).
  unfold bind at 1, gets at 1. cbn [sp with_sp with_stack].
  erewrite bind_Ret by (apply clearSlots_ok; lia).
  unfold bind at 1, modify at 1. rewrite Htop.
  erewrite bind_Ret by (apply push_ok; cbn; lia).
  unfold bind at 1, modify at 1. unfold bind at 1, modify at 1.
  erewrite bind_Ret by (apply checkIndex_ok; exact Hfp).
  unfold modify. eexists. split; [reflexivity|].
  cbn. repeat split.
  - apply lookup_insert_eq.
  - intros k Hk. rewrite lookup_insert_ne by lia.
    rewrite vacate_lookup_below by lia. apply lookup_delete_ne. lia.
  - intros k Hk. rewrite lookup_insert_ne by lia.
    destruct (decide (k = sp vm)) as [->|Hne].
    + rewrite vacate_lookup_above by lia. apply lookup_delete_eq.
    + apply vacate_lookup_cleared. lia.
Qed.

(** ** Deferred calls *)

Lemma bind_assoc {A B C} (m : M A) (k : A -> M B) (g : B -> M C) vm :
  bind (bind m k) g vm = bind m (fun a => bind (k a) g) vm.
Proof. unfold bind. destruct (m vm) as [[a|?| |?] vm1]; reflexivity. Qed.


Lemma theFrame_ok (vm : VirtualMachine) (i : Z) :
  activeFrame vm = Some i -> theFrame vm = (Ret (i, frameAt vm i), vm).
Proof. intros Hi. unfold theFrame, bind, gets. rewrite Hi. reflexivity. Qed.

Section Defers.
Context `{External}.



End Defers.

(** ** Closing examples *)

Section RunRecovers.
Context `{External}.

(** [Run] never lets a panic through: a panic of its body comes out as
    the error [panic: <detail>]. *)
Lemma Run_translates_panic (fuel : nat) (ctx : Context) (vm vm' : VirtualMachine)
    (d : string) :
  runBody fuel ctx vm = (Panic d, vm') ->
  Run fuel ctx vm = (Ret (Some ("panic: " ++ d)), vm').
Proof. intros Hb. unfold Run, recovering. rewrite Hb. reflexivity. Qed.

Lemma Run_reports_panics (fuel : nat) (ctx : Context) (vm : VirtualMachine) (d : string) :
  (Run fuel ctx vm).1 <> Panic d.
Proof.
  unfold Run, recovering.
  destruct (runBody fuel ctx vm) as [[e|d'| |o] vm1]; cbn; discriminate.
Qed.

End RunRecovers.

(** The closing examples run the machine with the collaborators of [Demo]. *)
#[local] Existing Instance Demo.external.

(** On the program whose function defers [fnA] and then [fnB], the run
    ends normally with the global [log] equal to ["ba"]: the deferred call
    registered last has fired first. *)
Example deferTwice_fires_b_then_a :
  (Run 100 Demo.background Examples.deferVM).1 = Ret None /\
  Examples.Get "log" (Run 100 Demo.background Examples.deferVM).2
  = Some (Some (OString "ba")).
Proof. split; vm_compute; reflexivity. Qed.

(** C8.  A function that recurses for ever overflows the frame store.
    Entered through [Run] the panic comes out as the error
    [panic: <detail>]; entered through [Call], on a fresh machine or on one
    whose run has ended normally, it goes on unwinding into the embedder. *)
Theorem Call_lets_panic_through :
  (Run 5000 Demo.background (New (Examples.callMain Examples.forever))).1
  = Ret (Some "panic: runtime error: index out of range [1024] with length 1024") /\
  (Call 5000 Demo.background Examples.forever []
     (New (Examples.callMain Examples.forever))).1
  = Panic "runtime error: index out of range [1024] with length 1024" /\
  (Run 10 Demo.background (New (Examples.loadMain Examples.forever))).1 = Ret None /\
  (Call 5000 Demo.background Examples.forever []
     (Run 10 Demo.background (New (Examples.loadMain Examples.forever))).2).1
  = Panic "runtime error: index out of range [1024] with length 1024".
Proof. repeat split; vm_compute; reflexivity. Qed.

(** C9.  Calling a function that has deferred one call leaves two values
    above the caller's watermark, the result of the deferred call under the
    result of the function; the same function without the defer leaves
    one. *)
Theorem call_with_defer_leaves_extra_value :
  let leaky := Run 100 Demo.background (New (Examples.callMain Examples.deferOnce)) in
  let plain := Run 100 Demo.background (New (Examples.callMain Examples.plainSeven)) in
  leaky.1 = Ret None /\ sp leaky.2 = 1 /\
  stack leaky.2 !! 0 = Some (OInt 99) /\ stack leaky.2 !! 1 = Some (OInt 7) /\
  plain.1 = Ret None /\ sp plain.2 = 0 /\ stack plain.2 !! 0 = Some (OInt 7).
Proof. vm_compute. repeat split; reflexivity. Qed.

(** C4, where the claim fails.  Before the first run of a machine that
    has the host global ["m"], a called function imports ["m"]: the importer
    loads its module, which is cached.  The run that follows puts the
    host's module in the cache under the same name, and the import of
    ["m"] by the main code returns that other module. *)
Lemma import_twice_differs_across_Run :
  let first := Call 20 Demo.background Examples.importFn [] Examples.hostedVM in
  let second := Run 20 Demo.background first.2 in
  first.1 = Ret (inl (Some (OModule (UseGlobals Examples.emptyModule 1)))) /\
  second.1 = Ret None /\
  TOS second.2 = (Some (OModule Examples.hostModule), true) /\
  UseGlobals Examples.emptyModule 1 <> Examples.hostModule.
Proof. vm_compute. repeat split; try reflexivity. discriminate. Qed.

(** C10, where the claim fails.  The parent has the host global ["m"] and
    has not run, so that ["m"] is not in the cache the clone snapshots; a
    run of the clone puts the host's module in its cache, and the import of
    ["m"] by the main code succeeds. *)
Lemma clone_Run_imports_host_module :
  let clone := Clone Examples.hostedParent in
  let run := Run 20 Demo.background clone in
  modules Examples.hostedParent !! "m" = None /\
  importer clone = None /\
  modules clone !! "m" = None /\
  run.1 = Ret None /\
  TOS run.2 = (Some (OModule Examples.hostModule), true).
Proof. vm_compute. repeat split; reflexivity. Qed.

(** ** The theorems at concrete inputs *)

Ltac concrete :=
  vm_compute; repeat split; first [reflexivity | discriminate].


(** C3 at a call of a two-parameter function with three arguments. *)
Lemma checkCallArgs_arity_error_witness :
  callFunction 0 Demo.background Examples.twoParams
    [Some (OInt 1); Some (OInt 2); Some (OInt 3)]
    (New (Examples.callMain Examples.twoParams))
  = (Ret (inr "type error: function takes 2 arguments (3 given)"),
     New (Examples.callMain Examples.twoParams)).
Proof.
  apply (proj1 (checkCallArgs_arity_error (H := Demo.external) Examples.twoParams
                  [Some (OInt 1); Some (OInt 2); Some (OInt 3)])).
  left. concrete.
Defined.

(** C6 at [PopJumpForwardIfTrue 7] with [true] on the stack: the jump is
    taken and lands 7 words after the opcode. *)
Lemma cond_jump_pops_and_shifts_witness :
  let vm := Examples.atOperand [Demo.POP_JUMP_FORWARD_IF_TRUE; 7] [OBool true] in
  let vm' := (dispatch (call 0 Demo.background) (loadModule 0 Demo.background)
                Demo.POP_JUMP_FORWARD_IF_TRUE vm).2 in
  ip vm' = 7 /\ sp vm' = -1 /\ stack vm' !! 0 = None.
Proof.
  intros vm vm'. unfold vm'.
  rewrite (cond_jump_pops_and_shifts (H := Demo.external)
             (call 0 Demo.background) (loadModule 0 Demo.background)
             Demo.POP_JUMP_FORWARD_IF_TRUE op.PopJumpForwardIfTrue true 1 vm
             (mkLoaded (mkCode 0 0 [Demo.POP_JUMP_FORWARD_IF_TRUE; 7] [] [] [] 0 false) 0)
             (OBool true) 7);
    concrete.
Defined.

(** C2 at a cancelled context: the flag is stored before the second
    instruction, which is not executed. *)
Lemma halt_polled_before_each_instruction_witness :
  let vm := Examples.atOperand [Demo.NOP; Demo.NOP] [] in
  eval 5 Demo.cancelled (haltStore vm)
  = (Ret (Some "context canceled"), haltStore vm).
Proof.
  intros vm.
  apply (proj1 (halt_polled_before_each_instruction (H := Demo.external) 5 Demo.cancelled vm
                  (mkLoaded (mkCode 0 0 [Demo.NOP; Demo.NOP] [] [] [] 0 false) 0)
                  eq_refl ltac:(concrete))).
Defined.

(** C7 at a list of length 2 and [Unpack 3]. *)
Lemma unpack_checks_length_then_pushes_witness :
  let vm := Examples.atOperand [Demo.UNPACK; 3]
              [OList [Some (OInt 1); Some (OInt 2)]] in
  (dispatch (call 0 Demo.background) (loadModule 0 Demo.background) Demo.UNPACK vm).1
  = Ret (Return (Some "exec error: unpack count mismatch: 2 != 3")).
Proof.
  intros vm.
  rewrite (proj1 (unpack_checks_length_then_pushes (H := Demo.external)
             (call 0 Demo.background) (loadModule 0 Demo.background)
             Demo.UNPACK vm
             (mkLoaded (mkCode 0 0 [Demo.UNPACK; 3] [] [] [] 0 false) 0)
             (OList [Some (OInt 1); Some (OInt 2)])
             (listContainer [Some (OInt 1); Some (OInt 2)]) 3
             ltac:(concrete) ltac:(concrete) ltac:(concrete) ltac:(concrete)
             ltac:(concrete) ltac:(concrete) ltac:(concrete) ltac:(concrete))
           ltac:(concrete)).
  reflexivity.
Defined.

(** C5 at the three values ["a"], ["b"], ["c"] and the index 1. *)
Lemma build_list_then_subscript_witness :
  let vm := Examples.atOperand [Demo.BUILD_LIST; 3]
              [OString "a"; OString "b"; OString "c"] in
  let vs := [Some (OString "a"); Some (OString "b"); Some (OString "c")] in
  exists vm1,
    dispatch (call 0 Demo.background) (loadModule 0 Demo.background)
      Demo.BUILD_LIST vm = (Ret Continue, vm1) /\
    sp vm1 = 0 /\
    TOS vm1 = (Some (OList vs), true) /\
    (forall k, k <= -1 -> stack vm1 !! k = stack vm !! k) /\
    exists vm2,
      (push (Some (OInt 1));;;
       dispatch (call 0 Demo.background) (loadModule 0 Demo.background)
         Demo.BINARY_SUBSCR) vm1 = (Ret Continue, vm2) /\
      sp vm2 = sp vm1 /\
      TOS vm2 = (Some (OString "b"), true).
Proof.
  intros vm vs.
  apply (build_list_then_subscript (H := Demo.external)
           (call 0 Demo.background) (loadModule 0 Demo.background)
           Demo.BUILD_LIST Demo.BINARY_SUBSCR vm
           (mkLoaded (mkCode 0 0 [Demo.BUILD_LIST; 3] [] [] [] 0 false) 0)
           3 vs 1); concrete.
Defined.

(** C4 at the module ["m"]: the second import, with no fuel, returns the
    module the first one cached. *)
Lemma import_twice_same_module_witness :
  let first := loadModule 5 Demo.background "m" Examples.importingVM in
  first.1 = Ret (inl (UseGlobals Examples.emptyModule 0)) /\
  loadModule 0 Demo.background "m" first.2
  = (Ret (inl (UseGlobals Examples.emptyModule 0)), first.2).
Proof.
  intros first. split; [concrete|].
  apply (proj1 (proj2 (import_twice_same_module (H := Demo.external) 5 Demo.background "m"
                         Examples.importingVM first.2
                         (UseGlobals Examples.emptyModule 0)
                         ltac:(concrete)))).
Defined.

(** C10 at the clone of a machine whose importer knows ["m"]: the clone
    cannot import it. *)
Lemma clone_imports_disabled_witness :
  loadModule 3 Demo.background "m" (Clone Examples.importingVM)
  = (Ret (inr "exec error: imports are disabled"), Clone Examples.importingVM).
Proof.
  destruct (clone_imports_disabled (H := Demo.external) Examples.importingVM)
    as (Hclone & _ & _ & _ & _ & Hsealed).
  apply (proj1 (Hsealed _ _ Hclone)). concrete.
Defined.

(** * Further properties *)

(** Reduce the projections of a machine state, and nothing else: [proj]
    where the machine is a variable, [fields] once it is a record. *)
Ltac proj :=
  cbn [ip sp fp halt stack frames tmp activeFrame activeCode main importer
       modules inputGlobals globals loadedCode running concAllowed heap
       with_ip with_sp with_fp with_halt with_stack with_frames with_tmp
       with_active with_importer with_modules with_inputGlobals with_globals
       with_loadedCode with_running with_concAllowed with_heap].

Ltac fields :=
  cbv beta iota delta
      [ip sp fp halt stack frames tmp activeFrame activeCode main importer
       modules inputGlobals globals loadedCode running concAllowed heap
       with_ip with_sp with_fp with_halt with_stack with_frames with_tmp
       with_active with_importer with_modules with_inputGlobals with_globals
       with_loadedCode with_running with_concAllowed with_heap] in *.

(** ** The operand stack *)

(** X1.  A push followed by a pop returns the pushed value and restores
    the stack pointer; every other slot is as before and the slot used in
    between is left cleared. *)
Theorem push_then_pop (v : Value) (vm : VirtualMachine) :
  -1 <= sp vm -> sp vm + 1 < MaxStackDepth ->
  exists vm',
    (push v;;; pop) vm = (Ret v, vm') /\
    sp vm' = sp vm /\
    (forall k, k <> sp vm + 1 -> stack vm' !! k = stack vm !! k) /\
    stack vm' !! (sp vm + 1) = None.
Proof.
  intros Hlo Hhi.
  rewrite (bind_Ret _ _ _ _ _ (push_ok v vm Hlo Hhi)).
  rewrite pop_ok by (cbn; lia).
  eexists. split.
  - cbn [sp stack with_sp with_stack]. rewrite slot_set_lookup. reflexivity.
  - cbn [sp stack with_sp with_stack]. repeat split.
    + lia.
    + intros k Hk. rewrite lookup_delete_ne by congruence.
      apply slot_set_lookup_ne. congruence.
    + apply lookup_delete_eq.
Qed.

(** X2.  The stack does not recover from its bounds: a pop of the empty
    stack panics and changes nothing; a push on the full stack panics after
    the stack pointer has been moved past the last slot. *)
Theorem stack_bounds_panic (v : Value) (vm : VirtualMachine) :
  (sp vm = -1 ->
     pop vm = (Panic "runtime error: index out of range [-1]", vm)) /\
  (sp vm = MaxStackDepth - 1 ->
     push v vm = (Panic "runtime error: index out of range [1024] with length 1024",
                  with_sp MaxStackDepth vm) /\
     forall v', push v' (with_sp MaxStackDepth vm)
                = (Panic "runtime error: index out of range [1025] with length 1024",
                   with_sp (MaxStackDepth + 1) vm)).
Proof.
  split.
  - apply pop_empty.
  - intros Hs. split.
    + unfold push, bind at 1, modify at 1, bind at 1, gets at 1.
      cbn [sp with_sp]. rewrite Hs.
      erewrite bind_Panic by (apply checkIndex_fail; unfold MaxStackDepth; lia).
      reflexivity.
    + intros v'. unfold push, bind at 1, modify at 1, bind at 1, gets at 1.
      cbn [sp with_sp].
      erewrite bind_Panic by (apply checkIndex_fail; unfold MaxStackDepth; lia).
      destruct vm; reflexivity.
Qed.

(** X3.  [swap k] exchanges the top of the stack with the slot [k] below
    it and touches nothing else; doing it twice gives the stack back. *)
Theorem swap_exchanges (pos : Z) (vm : VirtualMachine) :
  0 <= sp vm < MaxStackDepth ->
  0 <= sp vm - pos < MaxStackDepth ->
  exists vm',
    swap pos vm = (Ret tt, vm') /\
    sp vm' = sp vm /\
    stack vm' !! sp vm = stack vm !! (sp vm - pos) /\
    stack vm' !! (sp vm - pos) = stack vm !! sp vm /\
    (forall k, k <> sp vm -> k <> sp vm - pos -> stack vm' !! k = stack vm !! k) /\
    exists vm'', swap pos vm' = (Ret tt, vm'') /\ stack vm'' = stack vm.
Proof.
  intros Hs Ho.
  assert (Hswap : forall m : VirtualMachine,
            0 <= sp m < MaxStackDepth -> 0 <= sp m - pos < MaxStackDepth ->
            swap pos m
            = (Ret tt,
               with_stack (slot_set (sp m) (stack m !! (sp m - pos))
                             (slot_set (sp m - pos) (stack m !! sp m) (stack m))) m)).
  { intros m H1 H2. unfold swap, bind at 1, gets at 1.
    rewrite (bind_Ret _ _ _ _ _ (checkIndex_ok _ _ m H1)).
    unfold bind at 1, gets at 1.
    rewrite (bind_Ret _ _ _ _ _ (checkIndex_ok _ _ m H2)).
    unfold bind, gets, modify. destruct m; reflexivity. }
  assert (Hlk : forall (st : gmap Z Object) s o k,
            slot_set s (st !! o) (slot_set o (st !! s) st) !! k
            = if decide (k = s) then st !! o
              else if decide (k = o) then st !! s else st !! k).
  { intros st s o k. destruct (decide (k = s)) as [->|Hks].
    - apply slot_set_lookup.
    - rewrite slot_set_lookup_ne by congruence.
      destruct (decide (k = o)) as [->|Hko].
      + apply slot_set_lookup.
      + apply slot_set_lookup_ne. congruence. }
  rewrite (Hswap vm Hs Ho). eexists. split; [reflexivity|].
  cbn [sp stack with_stack]. repeat split.
  - rewrite Hlk. rewrite decide_True by reflexivity. reflexivity.
  - rewrite Hlk. destruct (decide (sp vm - pos = sp vm)) as [E|E].
    + rewrite E. reflexivity.
    + rewrite decide_True by reflexivity. reflexivity.
  - intros k H1 H2. rewrite Hlk.
    rewrite decide_False by exact H1. rewrite decide_False by exact H2. reflexivity.
  - rewrite Hswap by (cbn; assumption). eexists. split; [reflexivity|].
    cbn [sp stack with_stack]. apply map_eq. intros k.
    rewrite Hlk. rewrite !Hlk.
    rewrite (decide_True (P := sp vm = sp vm)) by reflexivity.
    rewrite (decide_True (P := sp vm - pos = sp vm - pos)) by reflexivity.
    destruct (decide (k = sp vm)) as [->|H1].
    + destruct (decide (sp vm - pos = sp vm)) as [E|E]; [rewrite E|]; reflexivity.
    + destruct (decide (k = sp vm - pos)) as [->|H2]; reflexivity.
Qed.

(** ** The dispatch loop *)

Lemma theCode_ok (vm : VirtualMachine) (c : code) :
  activeCode vm = Some c -> theCode vm = (Ret c, vm).
Proof. intros Hc. unfold theCode, bind, gets. rewrite Hc. reflexivity. Qed.

Section Loop.
Context `{External}.

(** One iteration of the loop of [eval]: read the opcode, step over it,
    dispatch it. *)
Lemma eval_step (n : nat) (ctx : Context) (vm : VirtualMachine) (c : code) (w : Z) :
  activeCode vm = Some c ->
  0 <= ip vm ->
  Instructions (compiled c) !! Z.to_nat (ip vm) = Some w ->
  halt vm <> 1 ->
  eval (S n) ctx vm
  = (flow <- dispatch (call n ctx) (loadModule n ctx) w;;
     match flow with
     | Continue => eval n ctx
     | Return err => ret err
     end) (with_ip (ip vm + 1) vm).
Proof.
  intros Hc Hip Hw Hh. cbn [eval]. rewrite Hc.
  pose proof (lookup_lt_Some _ _ _ Hw) as Hlt.
  destruct (Z.ltb_spec (ip vm) (Z.of_nat (length (Instructions (compiled c))))); [|lia].
  destruct (Z.eqb_spec (halt vm) 1); [contradiction|].
  rewrite (bind_Ret _ _ _ _ _ (index_ok 0 _ _ _ vm Hip Hw)).
  reflexivity.
Qed.

(** X4.  The edges of the loop.  Past the end of the code [eval] returns
    no error and does nothing, even on a halted machine; an opcode word that
    is no opcode ends the evaluation with [exec error: unknown opcode: N],
    the word stepped over; a negative instruction pointer (such as the stop
    signal) makes the opcode read panic. *)
Theorem eval_edge_cases (fuel : nat) (ctx : Context) (vm : VirtualMachine) (c : code) :
  activeCode vm = Some c ->
  (Z.of_nat (length (Instructions (compiled c))) <= ip vm ->
     eval fuel ctx vm = (Ret None, vm)) /\
  (forall w, 0 <= ip vm -> Instructions (compiled c) !! Z.to_nat (ip vm) = Some w ->
     halt vm <> 1 -> decodeOp w = None ->
     eval (S fuel) ctx vm
     = (Ret (Some (exec_error ("unknown opcode: " ++ string_of_Z w))),
        with_ip (ip vm + 1) vm)) /\
  (ip vm < 0 -> halt vm <> 1 ->
     eval (S fuel) ctx vm
     = (Panic ("runtime error: index out of range [" ++ string_of_Z (ip vm) ++ "]"),
        vm)).
Proof.
  intros Hc. repeat split.
  - intros Hend. destruct fuel; cbn [eval]; rewrite Hc;
      (destruct (Z.ltb_spec (ip vm) (Z.of_nat (length (Instructions (compiled c))))); [lia|reflexivity]).
  - intros w Hip Hw Hh Hdec. rewrite (eval_step _ _ _ _ _ Hc Hip Hw Hh).
    unfold dispatch. rewrite Hdec. reflexivity.
  - intros Hneg Hh. cbn [eval]. rewrite Hc.
    destruct (Z.ltb_spec (ip vm) (Z.of_nat (length (Instructions (compiled c))))); [|lia].
    destruct (Z.eqb_spec (halt vm) 1); [contradiction|].
    erewrite bind_Panic; [reflexivity|].
    unfold index. erewrite bind_Panic; [reflexivity|].
    rewrite checkIndex_fail by lia.
    unfold indexOutOfRange. destruct (Z.ltb_spec (ip vm) 0); [reflexivity|lia].
Qed.

Lemma dispatch_jump
    (call_ : Value -> list Value -> M (option error))
    (loadModule_ : string -> M (Module + error))
    (opcode : Z) (o : op.Opcode) (dir : Z)
    (vm : VirtualMachine) (c : code) (operand : Z) :
  decodeOp opcode = Some o ->
  jumpSign o = Some dir ->
  activeCode vm = Some c ->
  0 <= ip vm ->
  Instructions (compiled c) !! Z.to_nat (ip vm) = Some operand ->
  0 <= operand < 65536 ->
  dispatch call_ loadModule_ opcode vm
  = (Ret Continue, with_ip (ip vm - 1 + dir * operand) vm).
Proof.
  intros Hdec Hj Hc Hip Hop Hw. unfold dispatch. rewrite Hdec.
  destruct o; cbn in Hj; try discriminate; injection Hj as <-;
    unfold bind at 1, gets at 1;
    (erewrite bind_Ret by (eapply fetch_ok; eassumption));
    rewrite (Z.mod_small operand) by lia;
    unfold bind, modify, ret; destruct vm; fields; do 2 f_equal; lia.
Qed.

(** X5.  An unconditional jump lands at the address of its opcode plus
    (forward) or minus (backward) the operand, and changes nothing else;
    [ip vm] is the address of the operand word. *)
Theorem jump_lands_relative_to_opcode
    (call_ : Value -> list Value -> M (option error))
    (loadModule_ : string -> M (Module + error))
    (opcode : Z) (o : op.Opcode) (dir : Z)
    (vm : VirtualMachine) (c : code) (operand : Z) :
  decodeOp opcode = Some o ->
  jumpSign o = Some dir ->
  activeCode vm = Some c ->
  0 <= ip vm ->
  Instructions (compiled c) !! Z.to_nat (ip vm) = Some operand ->
  0 <= operand < 65536 ->
  dispatch call_ loadModule_ opcode vm
  = (Ret Continue, with_ip (ip vm - 1 + dir * operand) vm).
Proof. apply dispatch_jump. Qed.

(** X6.  A jump with operand 0 is a loop on itself: from its opcode the
    evaluation never returns and never changes the machine, whatever the
    fuel, until the halt flag is stored; then it returns [ctx.Err()]. *)
Theorem jump_zero_loops_until_halted
    (ctx : Context) (vm : VirtualMachine) (c : code) (opcode : Z)
    (o : op.Opcode) (dir : Z) :
  activeCode vm = Some c ->
  0 <= ip vm ->
  Instructions (compiled c) !! Z.to_nat (ip vm) = Some opcode ->
  Instructions (compiled c) !! Z.to_nat (ip vm + 1) = Some 0 ->
  decodeOp opcode = Some o ->
  jumpSign o = Some dir ->
  halt vm <> 1 ->
  forall fuel,
    eval fuel ctx vm = (OutOfFuel, vm) /\
    eval fuel ctx (haltStore vm) = (Ret (ctxErr ctx), haltStore vm).
Proof.
  intros Hc Hip Hopc Hzero Hdec Hj Hh fuel.
  pose proof (lookup_lt_Some _ _ _ Hopc) as Hlt.
  split.
  - induction fuel as [|n IH].
    + cbn [eval]. rewrite Hc.
      destruct (Z.ltb_spec (ip vm) (Z.of_nat (length (Instructions (compiled c))))); [|lia].
      destruct (Z.eqb_spec (halt vm) 1); [contradiction|reflexivity].
    + rewrite (eval_step _ _ _ _ _ Hc Hip Hopc Hh).
      erewrite bind_Ret.
      2:{ eapply (dispatch_jump _ _ opcode o dir _ c 0);
            try eassumption; cbn; lia. }
      cbn [ip with_ip].
      replace (with_ip (ip vm + 1 - 1 + dir * 0) (with_ip (ip vm + 1) vm)) with vm.
      * exact IH.
      * destruct vm; fields. f_equal. lia.
  - destruct fuel; cbn [eval haltStore halt with_halt activeCode ip]; rewrite Hc;
      (destruct (Z.ltb_spec (ip vm) (Z.of_nat (length (Instructions (compiled c))))); [reflexivity|lia]).
Qed.

End Loop.

(** ** Locals, globals and unary operators *)

Lemma slot_set_delete_same (s : Z) (st : gmap Z Object) :
  slot_set s (st !! s) (delete s st) = st.
Proof.
  apply map_eq. intros k. destruct (decide (k = s)) as [->|Hne].
  - apply slot_set_lookup.
  - rewrite slot_set_lookup_ne by congruence. apply lookup_delete_ne. congruence.
Qed.

Lemma gets_ok {A} (f : VirtualMachine -> A) (vm : VirtualMachine) :
  gets f vm = (Ret (f vm), vm).
Proof. reflexivity. Qed.

Lemma with_stack_same (vm : VirtualMachine) : with_stack (stack vm) vm = vm.
Proof. destruct vm; reflexivity. Qed.

Lemma wrap64_small (n : Z) : - 2 ^ 63 <= n < 2 ^ 63 -> wrap64 n = n.
Proof. intros Hn. unfold wrap64. rewrite Z.mod_small by lia. lia. Qed.

Section Slots.
Context `{External}.

Lemma dispatch_StoreFast
    (call_ : Value -> list Value -> M (option error))
    (loadModule_ : string -> M (Module + error))
    (opcode : Z) (vm : VirtualMachine) (c : code) (i f : Z) :
  decodeOp opcode = Some op.StoreFast ->
  activeCode vm = Some c ->
  0 <= ip vm ->
  Instructions (compiled c) !! Z.to_nat (ip vm) = Some i ->
  0 <= i < 65536 ->
  0 <= sp vm < MaxStackDepth ->
  activeFrame vm = Some f ->
  i < Z.of_nat (length (f_locals (frameAt vm f))) ->
  dispatch call_ loadModule_ opcode vm
  = (Ret Continue,
     with_frames
       (<[f := frameSetLocals
                 (<[Z.to_nat i := stack vm !! sp vm]> (f_locals (frameAt vm f)))
                 (frameAt vm f)]> (frames vm))
       (with_sp (sp vm - 1)
          (with_stack (delete (sp vm) (stack vm)) (with_ip (ip vm + 1) vm)))).
Proof.
  intros Hdec Hc Hip Hop Hw Hsp Hf Hi. unfold dispatch. rewrite Hdec.
  erewrite bind_Ret by (eapply fetch_ok; eassumption).
  rewrite (Z.mod_small i) by lia.
  erewrite bind_Ret by (apply pop_ok; exact Hsp).
  erewrite bind_Ret by (apply theFrame_ok; exact Hf).
  cbn [fst snd].
  erewrite bind_Ret by (apply checkIndex_ok; unfold frameAt in *; cbn; lia).
  reflexivity.
Qed.

Lemma dispatch_LoadFast
    (call_ : Value -> list Value -> M (option error))
    (loadModule_ : string -> M (Module + error))
    (opcode : Z) (vm : VirtualMachine) (c : code) (i f : Z) (v : Value) :
  decodeOp opcode = Some op.LoadFast ->
  activeCode vm = Some c ->
  0 <= ip vm ->
  Instructions (compiled c) !! Z.to_nat (ip vm) = Some i ->
  0 <= i < 65536 ->
  -1 <= sp vm -> sp vm + 1 < MaxStackDepth ->
  activeFrame vm = Some f ->
  f_locals (frameAt vm f) !! Z.to_nat i = Some v ->
  dispatch call_ loadModule_ opcode vm
  = (Ret Continue,
     with_stack (slot_set (sp vm + 1) v (stack vm))
       (with_sp (sp vm + 1) (with_ip (ip vm + 1) vm))).
Proof.
  intros Hdec Hc Hip Hop Hw Hlo Hhi Hf Hv. unfold dispatch. rewrite Hdec.
  erewrite bind_Ret by (apply theFrame_ok; exact Hf).
  erewrite bind_Ret by (eapply fetch_ok; eassumption).
  rewrite (Z.mod_small i) by lia. cbn [fst snd].
  erewrite bind_Ret by (apply index_ok; [lia|exact Hv]).
  erewrite bind_Ret by (apply push_ok; cbn; lia).
  reflexivity.
Qed.

Lemma dispatch_StoreGlobal
    (call_ : Value -> list Value -> M (option error))
    (loadModule_ : string -> M (Module + error))
    (opcode : Z) (vm : VirtualMachine) (c : code) (i : Z) (vec : list Value) :
  decodeOp opcode = Some op.StoreGlobal ->
  activeCode vm = Some c ->
  0 <= ip vm ->
  Instructions (compiled c) !! Z.to_nat (ip vm) = Some i ->
  0 <= i < 65536 ->
  0 <= sp vm < MaxStackDepth ->
  heap vm !! Globals c = Some vec ->
  i < Z.of_nat (length vec) ->
  dispatch call_ loadModule_ opcode vm
  = (Ret Continue,
     with_heap (<[Globals c := <[Z.to_nat i := stack vm !! sp vm]> vec]> (heap vm))
       (with_sp (sp vm - 1)
          (with_stack (delete (sp vm) (stack vm)) (with_ip (ip vm + 1) vm)))).
Proof.
  intros Hdec Hc Hip Hop Hw Hsp Hvec Hi. unfold dispatch. rewrite Hdec.
  erewrite bind_Ret by (apply theCode_ok; exact Hc).
  erewrite bind_Ret by (eapply fetch_ok; eassumption).
  rewrite (Z.mod_small i) by lia.
  erewrite bind_Ret by (apply pop_ok; exact Hsp).
  unfold bind at 1, gets at 1. cbn [heap with_ip with_sp with_stack]. rewrite Hvec.
  cbn [default from_option id].
  erewrite bind_Ret by (apply checkIndex_ok; lia).
  reflexivity.
Qed.

Lemma dispatch_LoadGlobal
    (call_ : Value -> list Value -> M (option error))
    (loadModule_ : string -> M (Module + error))
    (opcode : Z) (vm : VirtualMachine) (c : code) (i : Z) (vec : list Value)
    (v : Value) :
  decodeOp opcode = Some op.LoadGlobal ->
  activeCode vm = Some c ->
  0 <= ip vm ->
  Instructions (compiled c) !! Z.to_nat (ip vm) = Some i ->
  0 <= i < 65536 ->
  -1 <= sp vm -> sp vm + 1 < MaxStackDepth ->
  heap vm !! Globals c = Some vec ->
  vec !! Z.to_nat i = Some v ->
  dispatch call_ loadModule_ opcode vm
  = (Ret Continue,
     with_stack (slot_set (sp vm + 1) v (stack vm))
       (with_sp (sp vm + 1) (with_ip (ip vm + 1) vm))).
Proof.
  intros Hdec Hc Hip Hop Hw Hlo Hhi Hvec Hv. unfold dispatch. rewrite Hdec.
  erewrite bind_Ret by (apply theCode_ok; exact Hc).
  erewrite bind_Ret by (eapply fetch_ok; eassumption).
  rewrite (Z.mod_small i) by lia.
  rewrite (bind_Ret _ _ _ _ _ (gets_ok _ _)).
  cbn [heap with_ip]. unfold Value in *. rewrite Hvec. cbn [default from_option id].
  erewrite bind_Ret by (apply index_ok; [lia|exact Hv]).
  erewrite bind_Ret by (apply push_ok; cbn; lia).
  reflexivity.
Qed.

Lemma dispatch_UnaryNot
    (call_ : Value -> list Value -> M (option error))
    (loadModule_ : string -> M (Module + error))
    (opcode : Z) (vm : VirtualMachine) (x : Object) :
  decodeOp opcode = Some op.UnaryNot ->
  0 <= sp vm < MaxStackDepth ->
  stack vm !! sp vm = Some x ->
  dispatch call_ loadModule_ opcode vm
  = (Ret Continue,
     with_stack (<[sp vm := OBool (negb (IsTruthy x))]> (stack vm)) vm).
Proof.
  intros Hdec Hsp Hx. unfold dispatch. rewrite Hdec.
  erewrite bind_Ret by (apply pop_ok; exact Hsp).
  rewrite Hx.
  assert (Hpush : forall b,
    push (Some (OBool b))
      (with_sp (sp vm - 1) (with_stack (delete (sp vm) (stack vm)) vm))
    = (Ret tt, with_stack (<[sp vm := OBool b]> (stack vm)) vm)).
  { intros b. rewrite push_ok by (cbn; lia).
    cbn [sp stack with_sp with_stack slot_set].
    replace (sp vm - 1 + 1) with (sp vm) by lia.
    rewrite insert_delete_eq.
    destruct vm; reflexivity. }
  assert (Hstep :
    (if IsTruthy x then push (Some (OBool false)) else push (Some (OBool true)))
      (with_sp (sp vm - 1) (with_stack (delete (sp vm) (stack vm)) vm))
    = (Ret tt, with_stack (<[sp vm := OBool (negb (IsTruthy x))]> (stack vm)) vm)).
  { destruct (IsTruthy x); apply Hpush. }
  rewrite (bind_Ret _ _ _ _ _ Hstep).
  reflexivity.
Qed.

(** X7.  [StoreFast i] followed by [LoadFast i] stores the top of the
    stack in local [i] of the active frame and leaves the stack as it was:
    the evaluation goes on four words further with only that local
    changed. *)
Theorem store_fast_then_load_fast
    (n : nat) (ctx : Context) (vm : VirtualMachine) (c : code)
    (opStore opLoad i f : Z) :
  activeCode vm = Some c ->
  halt vm <> 1 ->
  0 <= ip vm ->
  Instructions (compiled c) !! Z.to_nat (ip vm) = Some opStore ->
  Instructions (compiled c) !! Z.to_nat (ip vm + 1) = Some i ->
  Instructions (compiled c) !! Z.to_nat (ip vm + 2) = Some opLoad ->
  Instructions (compiled c) !! Z.to_nat (ip vm + 3) = Some i ->
  decodeOp opStore = Some op.StoreFast ->
  decodeOp opLoad = Some op.LoadFast ->
  activeFrame vm = Some f ->
  0 <= i < Z.of_nat (length (f_locals (frameAt vm f))) ->
  i < 65536 ->
  0 <= sp vm < MaxStackDepth ->
  eval (S (S n)) ctx vm
  = eval n ctx
      (with_ip (ip vm + 4)
         (with_frames
            (<[f := frameSetLocals
                      (<[Z.to_nat i := stack vm !! sp vm]> (f_locals (frameAt vm f)))
                      (frameAt vm f)]> (frames vm)) vm)).
Proof.
  intros Hc Hh Hip Hs1 Hs2 Hl1 Hl2 Hds Hdl Hf Hi Hw Hsp.
  rewrite (eval_step _ _ _ _ _ Hc Hip Hs1 Hh).
  erewrite bind_Ret.
  2:{ eapply dispatch_StoreFast; cbn [ip sp stack activeCode activeFrame with_ip];
        try eassumption; try lia. unfold frameAt in *. cbn. lia. }
  cbv beta iota.
  match goal with |- eval (S n) ctx ?m = _ => set (vm1 := m) end.
  assert (Hfr1 : f_locals (frameAt vm1 f)
                 = <[Z.to_nat i := stack vm !! sp vm]> (f_locals (frameAt vm f))).
  { unfold frameAt at 1. cbn. rewrite lookup_insert_eq. reflexivity. }
  assert (Hip1 : ip vm1 = ip vm + 2) by (cbn; lia).
  rewrite (eval_step n ctx vm1 c opLoad Hc);
    [| rewrite Hip1; lia | rewrite Hip1; exact Hl1 | exact Hh].
  erewrite bind_Ret.
  2:{ eapply (dispatch_LoadFast _ _ opLoad (with_ip (ip vm1 + 1) vm1) c i f
                (stack vm !! sp vm));
        [ exact Hdl | exact Hc | cbn [ip with_ip]; lia
        | cbn [ip with_ip]; rewrite Hip1;
          replace (ip vm + 2 + 1) with (ip vm + 3) by lia; exact Hl2
        | lia | cbn; lia | cbn; lia | exact Hf
        | change (frameAt (with_ip (ip vm1 + 1) vm1) f) with (frameAt vm1 f);
          rewrite Hfr1; apply list_lookup_insert_eq; lia ]. }
  f_equal. subst vm1. cbn [sp stack with_sp with_stack with_ip with_frames ip].
  replace (sp vm - 1 + 1) with (sp vm) by lia.
  rewrite slot_set_delete_same.
  destruct vm; fields.
  f_equal. lia.
Qed.

(** X8.  [StoreGlobal i] followed by [LoadGlobal i] stores the top of the
    stack in slot [i] of the globals vector of the active code and leaves
    the stack as it was. *)
Theorem store_global_then_load_global
    (n : nat) (ctx : Context) (vm : VirtualMachine) (c : code)
    (opStore opLoad i : Z) (vec : list Value) :
  activeCode vm = Some c ->
  halt vm <> 1 ->
  0 <= ip vm ->
  Instructions (compiled c) !! Z.to_nat (ip vm) = Some opStore ->
  Instructions (compiled c) !! Z.to_nat (ip vm + 1) = Some i ->
  Instructions (compiled c) !! Z.to_nat (ip vm + 2) = Some opLoad ->
  Instructions (compiled c) !! Z.to_nat (ip vm + 3) = Some i ->
  decodeOp opStore = Some op.StoreGlobal ->
  decodeOp opLoad = Some op.LoadGlobal ->
  heap vm !! Globals c = Some vec ->
  0 <= i < Z.of_nat (length vec) ->
  i < 65536 ->
  0 <= sp vm < MaxStackDepth ->
  eval (S (S n)) ctx vm
  = eval n ctx
      (with_ip (ip vm + 4)
         (with_heap (<[Globals c := <[Z.to_nat i := stack vm !! sp vm]> vec]> (heap vm))
            vm)).
Proof.
  intros Hc Hh Hip Hs1 Hs2 Hl1 Hl2 Hds Hdl Hvec Hi Hw Hsp.
  pose proof (lookup_lt_Some _ _ _ Hvec) as Href.
  rewrite (eval_step _ _ _ _ _ Hc Hip Hs1 Hh).
  erewrite bind_Ret.
  2:{ eapply dispatch_StoreGlobal; cbn [ip sp stack activeCode heap with_ip];
        try eassumption; lia. }
  cbv beta iota.
  match goal with |- eval (S n) ctx ?m = _ => set (vm1 := m) end.
  assert (Hip1 : ip vm1 = ip vm + 2) by (cbn; lia).
  rewrite (eval_step n ctx vm1 c opLoad Hc);
    [| rewrite Hip1; lia | rewrite Hip1; exact Hl1 | exact Hh].
  erewrite bind_Ret.
  2:{ eapply (dispatch_LoadGlobal _ _ opLoad (with_ip (ip vm1 + 1) vm1) c i
                (<[Z.to_nat i := stack vm !! sp vm]> vec) (stack vm !! sp vm));
        [ exact Hdl | exact Hc | cbn [ip with_ip]; lia
        | cbn [ip with_ip]; rewrite Hip1;
          replace (ip vm + 2 + 1) with (ip vm + 3) by lia; exact Hl2
        | lia | cbn; lia | cbn; lia
        | cbn; apply list_lookup_insert_eq; exact Href
        | apply list_lookup_insert_eq; lia ]. }
  f_equal. subst vm1. cbn [sp stack with_sp with_stack with_ip with_heap ip].
  replace (sp vm - 1 + 1) with (sp vm) by lia.
  rewrite slot_set_delete_same.
  destruct vm; fields.
  f_equal. lia.
Qed.

(** X9.  Two [UnaryNot] in a row replace the top of the stack by the
    boolean of its truthiness, provided the value model gives booleans
    their own truthiness. *)
Theorem unary_not_twice
    (n : nat) (ctx : Context) (vm : VirtualMachine) (c : code)
    (opNot : Z) (x : Object) :
  IsTruthy (OBool true) = true ->
  IsTruthy (OBool false) = false ->
  activeCode vm = Some c ->
  halt vm <> 1 ->
  0 <= ip vm ->
  Instructions (compiled c) !! Z.to_nat (ip vm) = Some opNot ->
  Instructions (compiled c) !! Z.to_nat (ip vm + 1) = Some opNot ->
  decodeOp opNot = Some op.UnaryNot ->
  0 <= sp vm < MaxStackDepth ->
  stack vm !! sp vm = Some x ->
  eval (S (S n)) ctx vm
  = eval n ctx
      (with_ip (ip vm + 2)
         (with_stack (<[sp vm := OBool (IsTruthy x)]> (stack vm)) vm)).
Proof.
  intros Ht Hf Hc Hh Hip H1 H2 Hdec Hsp Hx.
  rewrite (eval_step _ _ _ _ _ Hc Hip H1 Hh).
  erewrite bind_Ret by (eapply dispatch_UnaryNot; cbn; eassumption).
  cbv beta iota.
  match goal with |- eval (S n) ctx ?m = _ => set (vm1 := m) end.
  assert (Hip1 : ip vm1 = ip vm + 1) by reflexivity.
  rewrite (eval_step n ctx vm1 c opNot Hc);
    [| rewrite Hip1; lia | rewrite Hip1; exact H2 | exact Hh].
  erewrite bind_Ret.
  2:{ eapply (dispatch_UnaryNot _ _ opNot (with_ip (ip vm1 + 1) vm1)
                (OBool (negb (IsTruthy x))));
        [ exact Hdec | exact Hsp | cbn; apply lookup_insert_eq ]. }
  f_equal. subst vm1. cbn [sp stack with_ip with_stack ip].
  rewrite insert_insert_eq.
  assert (Hneg : negb (IsTruthy (OBool (negb (IsTruthy x)))) = IsTruthy x).
  { destruct (IsTruthy x); cbn [negb]; [rewrite Hf|rewrite Ht]; reflexivity. }
  rewrite Hneg.
  destruct vm; fields. f_equal. lia.
Qed.

(** X10.  [UnaryNegative] negates an integer in 64-bit arithmetic: inside
    the range the result is the opposite and the least integer is its own
    negation.  A value of another kind of the embedded universe (which has
    no floats, the other kind the code negates) ends the evaluation with a
    type error that names its type, the operand popped. *)
Theorem unary_negative_wraps
    (call_ : Value -> list Value -> M (option error))
    (loadModule_ : string -> M (Module + error))
    (opcode : Z) (vm : VirtualMachine) (x : Object) :
  decodeOp opcode = Some op.UnaryNegative ->
  0 <= sp vm < MaxStackDepth ->
  stack vm !! sp vm = Some x ->
  let popped := with_sp (sp vm - 1) (with_stack (delete (sp vm) (stack vm)) vm) in
  (forall k, x = OInt k -> - 2 ^ 63 < k < 2 ^ 63 ->
     dispatch call_ loadModule_ opcode vm
     = (Ret Continue, with_stack (<[sp vm := OInt (- k)]> (stack vm)) vm)) /\
  (x = OInt (- 2 ^ 63) ->
     dispatch call_ loadModule_ opcode vm
     = (Ret Continue, with_stack (<[sp vm := OInt (- 2 ^ 63)]> (stack vm)) vm)) /\
  ((forall k, x <> OInt k) ->
     dispatch call_ loadModule_ opcode vm
     = (Ret (Return (Some (type_error ("object is not a number (got "
                                       ++ TypeOf x ++ ")")))),
        popped)).
Proof.
  intros Hdec Hsp Hx popped.
  assert (Hint : forall k r, x = OInt k -> wrap64 (- k) = r ->
            dispatch call_ loadModule_ opcode vm
            = (Ret Continue, with_stack (<[sp vm := OInt r]> (stack vm)) vm)).
  { intros k r -> Hr. unfold dispatch. rewrite Hdec.
    erewrite bind_Ret by (apply pop_ok; exact Hsp).
    rewrite Hx, Hr.
    erewrite bind_Ret by (apply push_ok; cbn; lia).
    unfold ret. cbn [sp stack with_sp with_stack slot_set].
    replace (sp vm - 1 + 1) with (sp vm) by lia.
    rewrite insert_delete_eq.
    destruct vm; reflexivity. }
  repeat split.
  - intros k Hk Hr. apply (Hint k); [exact Hk|]. apply wrap64_small. lia.
  - intros Hk. apply (Hint (- 2 ^ 63)); [exact Hk|]. reflexivity.
  - intros Hnot. unfold dispatch. rewrite Hdec.
    erewrite bind_Ret by (apply pop_ok; exact Hsp).
    rewrite Hx.
    destruct x; try reflexivity. exfalso. eapply Hnot. reflexivity.
Qed.

End Slots.

(** ** The loaded code registry *)

(** [load] always returns: the wrapper of the code it was given, recorded
    in the registry; what was registered stays registered, the vectors
    allocated before stay where they are, and the registers, the stack and
    the frames are not touched. *)
Lemma load_returns (cc : Code) (vm : VirtualMachine) :
  exists c vm',
    load cc vm = (Ret c, vm') /\
    compiled c = cc /\
    loadedCode vm' !! code_id cc = Some (Globals c) /\
    (forall id ref, loadedCode vm !! id = Some ref -> loadedCode vm' !! id = Some ref) /\
    (forall ref vec, heap vm !! ref = Some vec -> heap vm' !! ref = Some vec) /\
    vm' = with_loadedCode (loadedCode vm') (with_heap (heap vm') vm).
Proof.
  unfold load, bind at 1, gets at 1.
  destruct (loadedCode vm !! code_id cc) as [ref|] eqn:Hreg.
  { eexists _, vm. split; [reflexivity|]. cbn.
    split; [reflexivity|]. split; [exact Hreg|]. split; [tauto|]. split; [tauto|].
    destruct vm; reflexivity. }
  destruct (Nat.eqb (root_id cc) (code_id cc)) eqn:Hroot.
  - eexists _, _. split; [reflexivity|]. cbn. repeat split.
    + apply lookup_insert_eq.
    + intros id ref Hid. rewrite lookup_insert_ne; [exact Hid|]. congruence.
    + intros ref vec Hv. apply lookup_app_l_Some. exact Hv.
  - destruct (loadedCode vm !! root_id cc) as [r|] eqn:Hr.
    + eexists _, _. split; [reflexivity|]. cbn. repeat split.
      * apply lookup_insert_eq.
      * intros id ref Hid. rewrite lookup_insert_ne; [exact Hid|]. congruence.
      * tauto.
    + eexists _, _. split; [reflexivity|]. cbn. repeat split.
      * apply lookup_insert_eq.
      * intros id ref Hid. rewrite lookup_insert_ne by congruence.
        rewrite lookup_insert_ne; [exact Hid|]. congruence.
      * intros ref vec Hv. apply lookup_app_l_Some. exact Hv.
Qed.

(** X11.  Loading is idempotent on identity: loading a code that was just
    loaded returns the same wrapper and leaves the machine as it is. *)
Theorem load_is_idempotent (cc : Code) (vm : VirtualMachine) :
  exists c vm',
    load cc vm = (Ret c, vm') /\
    compiled c = cc /\
    load cc vm' = (Ret c, vm').
Proof.
  destruct (load_returns cc vm) as (c & vm' & Hl & Hcc & Hreg & _).
  exists c, vm'. split; [exact Hl|]. split; [exact Hcc|].
  unfold load, bind at 1, gets at 1. rewrite Hreg.
  destruct c as [cc' g]. cbn in *. subst cc'. reflexivity.
Qed.

(** X12.  A child shares the globals of its root: once the root is loaded,
    loading a code of its tree for the first time returns a wrapper on the
    root's globals vector and allocates nothing. *)
Theorem load_child_shares_root_globals (root child : Code) (vm : VirtualMachine) :
  root_id root = code_id root ->
  root_id child = code_id root ->
  loadedCode vm !! code_id child = None ->
  exists r vm1 c vm2,
    load root vm = (Ret r, vm1) /\
    load child vm1 = (Ret c, vm2) /\
    compiled c = child /\
    Globals c = Globals r /\
    heap vm2 = heap vm1.
Proof.
  intros Hisroot Hroot Hnew.
  destruct (load_returns root vm) as (r & vm1 & Hl & Hcc & Hreg & _).
  exists r, vm1.
  destruct (decide (code_id child = code_id root)) as [E|E].
  { exists (mkLoaded child (Globals r)), vm1. split; [exact Hl|].
    unfold load, bind at 1, gets at 1. rewrite E, Hreg. auto. }
  assert (Hchild : loadedCode vm1 !! code_id child = None).
  { revert Hl. unfold load, bind at 1, gets at 1.
    destruct (loadedCode vm !! code_id root) as [ref|].
    - intros [= <- <-]. exact Hnew.
    - rewrite Hisroot, Nat.eqb_refl. intros [= <- <-]. cbn.
      rewrite lookup_insert_ne by congruence. exact Hnew. }
  unfold load at 2, bind at 1, gets at 1. rewrite Hchild, Hroot.
  replace (Nat.eqb (code_id root) (code_id child)) with false
    by (symmetry; apply Nat.eqb_neq; congruence).
  rewrite Hreg. eexists _, _. split; [exact Hl|].
  cbn. auto.
Qed.

(** X13.  Reloading the main code: without a registered main code the
    machine panics; otherwise the registry is emptied down to the main
    code, which gets a fresh globals vector holding the values of the old
    one, and the old vector is left as it was. *)
Theorem reload_preserves_globals (main_ : Code) (vm : VirtualMachine) :
  (loadedCode vm !! code_id main_ = None ->
   reload main_ vm = (Panic "main code not loaded", vm)) /\
  (forall oldRef old,
     loadedCode vm !! code_id main_ = Some oldRef ->
     root_id main_ = code_id main_ ->
     heap vm !! oldRef = Some old ->
     length old = length (GlobalNames main_) ->
     exists vm',
       reload main_ vm = (Ret (mkLoaded main_ (length (heap vm))), vm') /\
       loadedCode vm' = {[ code_id main_ := length (heap vm) ]} /\
       heap vm' !! length (heap vm) = Some old /\
       heap vm' !! oldRef = Some old).
Proof.
  split.
  - intros Hnone. unfold reload, bind at 1, gets at 1. rewrite Hnone. reflexivity.
  - intros oldRef old Hreg Hroot Hold Hlen.
    unfold reload, bind at 1, gets at 1. rewrite Hreg.
    unfold bind at 1, modify at 1.
    unfold load, bind at 1, bind at 1, gets at 1. cbn [loadedCode with_loadedCode].
    rewrite lookup_empty, Hroot, Nat.eqb_refl.
    eexists. split; [reflexivity|]. cbn.
    assert (Hlt : (oldRef < length (heap vm))%nat) by (eapply lookup_lt_Some; eauto).
    rewrite (lookup_app_l (heap vm) _ oldRef) by exact Hlt. rewrite Hold. cbn.
    rewrite (list_lookup_middle (heap vm) [] _ (length (heap vm)) eq_refl). cbn.
    assert (Hcopy : copyList ((fun n => globals vm !! n) <$> GlobalNames main_) old = old).
    { unfold copyList. rewrite length_fmap, <- Hlen, firstn_all.
      rewrite drop_ge by (rewrite length_fmap; lia). apply app_nil_r. }
    unfold Value in *. unfold copyList in Hcopy. rewrite Hcopy.
    repeat split.
    + rewrite list_lookup_insert_eq; [reflexivity|]. rewrite length_app. cbn. lia.
    + rewrite list_lookup_insert_ne by lia. rewrite lookup_app_l by exact Hlt. exact Hold.
Qed.

(** ** Clones *)

(** X14.  A clone starts from empty registers whatever the state of its
    parent: nothing on the stack, frame 0 active on the main code at the
    parent's instruction pointer, neither halted nor running; the codes
    and globals vectors its parent had loaded are those of the clone. *)
Theorem Clone_resets_registers (vm : VirtualMachine) :
  let clone := Clone vm in
  sp clone = -1 /\ fp clone = 0 /\ ip clone = ip vm /\
  halt clone = 0 /\ running clone = false /\
  stack clone = ∅ /\ TOS clone = (None, false) /\
  activeFrame clone = Some 0 /\
  (exists c, activeCode clone = Some c /\ compiled c = main vm /\
             f_code (frameAt clone 0) = Some c /\
             loadedCode clone !! code_id (main vm) = Some (Globals c)) /\
  (forall id ref, loadedCode vm !! id = Some ref -> loadedCode clone !! id = Some ref) /\
  (forall ref vec, heap vm !! ref = Some vec -> heap clone !! ref = Some vec).
Proof.
  intros clone.
  assert (Hclone : exists c vm1,
    load (main vm) (with_active None None (with_importer None
      (with_running false (with_concAllowed false (with_tmp ∅ (with_frames ∅
        (with_stack ∅ (with_halt 0 (with_fp 0 (with_sp (-1) (with_ip 0 vm)))))))))))
    = (Ret c, vm1) /\
    clone = with_active (Some 0) (Some c)
              (with_frames (<[0 := ActivateCode c]> (frames vm1))
                 (with_ip (ip vm) (with_fp 0 vm1)))).
  { subst clone. unfold Clone. cbv zeta.
    match goal with
    | |- context [bind _ _ ?v] => set (fresh := v)
    end.
    destruct (load_returns (main vm) fresh) as (c & vm1 & Hl & _).
    exists c, vm1. split; [exact Hl|].
    unfold bind at 1. change (main fresh) with (main vm). rewrite Hl.
    rewrite activateCode_ok by (unfold MaxFrameDepth; lia). reflexivity. }
  destruct Hclone as (c & vm1 & Hl & ->).
  match type of Hl with
  | load _ ?v = _ => set (fresh := v) in Hl
  end.
  destruct (load_returns (main vm) fresh) as (c' & vm1' & Hl' & Hcc & Hreg & Hkeep & Hheap & Hrest).
  rewrite Hl in Hl'. injection Hl' as <- <-.
  rewrite Hrest. cbn.
  repeat split.
  - exists c. unfold frameAt. cbn. rewrite lookup_insert_eq. cbn. auto.
  - intros id ref Hid. apply Hkeep. exact Hid.
  - intros ref vec Hv. apply Hheap. exact Hv.
Qed.

(** ** Run and Call *)

Section Latch.
Context `{External}.

(** X15.  [Run] never lets a panic out, and when it returns, with or
    without an error, the [running] latch is down again, so that [Call] is
    accepted afterwards. *)
Theorem Run_releases_the_latch (fuel : nat) (ctx : Context) (vm : VirtualMachine) :
  (forall d, (Run fuel ctx vm).1 <> Panic d) /\
  (forall e vm', Run fuel ctx vm = (Ret e, vm') ->
     running vm' = false /\
     forall fuel' ctx' fn args,
       Call fuel' ctx' fn args vm' = callFunction fuel' ctx' fn args vm').
Proof.
  split.
  - intros d. unfold Run, recovering.
    destruct (runBody fuel ctx vm) as [[e|d'| |o] vm1]; cbn; discriminate.
  - intros e vm' Hrun.
    assert (Hlatch : running vm' = false).
    { revert Hrun. unfold Run, recovering, runBody.
      unfold bind at 1, modify at 1. unfold bind at 1, modify at 1.
      unfold bind at 1, modify at 1. unfold withDefer, deferring.
      match goal with
      | |- context [match ?body ?st with _ => _ end] =>
          destruct (body st) as [[a|d| |o] vm1]
      end.
      - unfold bind, modify, ret. intros [= _ <-]. reflexivity.
      - unfold modify. intros [= _ <-]. reflexivity.
      - discriminate.
      - discriminate. }
    split; [exact Hlatch|].
    intros fuel' ctx' fn args. unfold Call, bind, gets. rewrite Hlatch. reflexivity.
Qed.

End Latch.

(** ** Returning to the caller *)

Lemma checkIndex_inv i len vm vm' :
  checkIndex i len vm = (Ret tt, vm') -> vm' = vm.
Proof.
  unfold checkIndex. destruct ((0 <=? i) && (i <? len)); unfold ret, panic; congruence.
Qed.

Lemma pop_inv vm v vm' :
  pop vm = (Ret v, vm') ->
  vm' = with_sp (sp vm - 1) (with_stack (delete (sp vm) (stack vm)) vm).
Proof.
  unfold pop, bind, gets, checkIndex.
  destruct ((0 <=? sp vm) && (sp vm <? MaxStackDepth)); cbn;
    [intros [= _ <-]; reflexivity | discriminate].
Qed.

Lemma push_inv v vm vm' :
  push v vm = (Ret tt, vm') ->
  vm' = with_stack (slot_set (sp vm + 1) v (stack vm)) (with_sp (sp vm + 1) vm).
Proof.
  unfold push, bind, gets, modify, checkIndex. cbn [sp with_sp].
  destruct ((0 <=? sp vm + 1) && (sp vm + 1 <? MaxStackDepth)); cbn;
    [intros [= <-]; reflexivity | discriminate].
Qed.

Lemma clearSlots_inv n i vm vm' :
  clearSlots n i vm = (Ret tt, vm') -> vm' = with_stack (stack vm') vm.
Proof.
  revert i vm. induction n as [|n IH]; intros i vm.
  - cbn. unfold ret. intros [= <-]. destruct vm; reflexivity.
  - cbn [clearSlots]. intros Hc.
    apply bind_inv in Hc as ([] & vm1 & Hi & Hc). apply checkIndex_inv in Hi as ->.
    unfold bind at 1, modify at 1 in Hc. apply IH in Hc. rewrite Hc. reflexivity.
Qed.

(** When [resumeFrame] returns, the registers it was given are in place:
    the frame pointer, the instruction pointer, and the stack pointer up to
    the one result it keeps. *)
Lemma resumeFrame_restores (fp_ ip_ sp_ : Z) (vm vm' : VirtualMachine) :
  resumeFrame fp_ ip_ sp_ vm = (Ret tt, vm') ->
  fp vm' = fp_ /\ ip vm' = ip_ /\ (sp vm' = sp_ \/ sp vm' = sp_ + 1) /\
  activeFrame vm' = Some fp_ /\ activeCode vm' = f_code (frameAt vm' fp_).
Proof.
  unfold resumeFrame. intros Hr.
  apply bind_inv in Hr as (cur & v0 & _ & Hr).
  apply bind_inv in Hr as (res & v1 & _ & Hr).
  apply bind_inv in Hr as (cur' & v2 & _ & Hr).
  apply bind_inv in Hr as ([] & v3 & _ & Hr).
  unfold bind at 1, modify at 1 in Hr.
  apply bind_inv in Hr as ([] & v4 & Hpush & Hr).
  unfold bind at 1, modify at 1 in Hr. unfold bind at 1, modify at 1 in Hr.
  apply bind_inv in Hr as ([] & v5 & Hi & Hr). apply checkIndex_inv in Hi as ->.
  unfold modify in Hr. injection Hr as <-.
  assert (Hsp : sp v4 = sp_ \/ sp v4 = sp_ + 1).
  { destruct res as [o|].
    - apply push_inv in Hpush as ->. right. reflexivity.
    - unfold ret in Hpush. injection Hpush as <-. left. reflexivity. }
  cbn. repeat split; try exact Hsp.
Qed.

Section Registers.
Context `{External}.

(** X16.  Whenever [callFunction] or [loadModule] returns, with a result
    or with an error, the caller's frame pointer and instruction pointer
    are back, and the stack pointer is the caller's or one above it. *)
Theorem callee_hands_registers_back (fuel : nat) (ctx : Context) (vm : VirtualMachine) :
  (forall fn args r vm',
     callFunction fuel ctx fn args vm = (Ret r, vm') ->
     fp vm' = fp vm /\ ip vm' = ip vm /\ (sp vm' = sp vm \/ sp vm' = sp vm + 1)) /\
  (forall name r vm',
     loadModule fuel ctx name vm = (Ret r, vm') ->
     fp vm' = fp vm /\ ip vm' = ip vm /\ (sp vm' = sp vm \/ sp vm' = sp vm + 1)).
Proof.
  split.
  - intros fn args r vm' Hc.
    destruct fuel as [|n]; cbn [callFunction] in Hc;
      destruct (checkCallArgs fn (Z.of_nat (length args))) as [err|];
      try (injection Hc as _ <-; auto); try discriminate.
    apply withDefer_inv in Hc as (vm1 & _ & Hres).
    apply resumeFrame_restores in Hres. tauto.
  - intros name r vm' Hl.
    destruct fuel as [|n]; cbn [loadModule] in Hl;
      destruct (modules vm !! name) as [m|];
      try (injection Hl as _ <-; auto);
      destruct (importer vm) as [imp|];
      try (injection Hl as _ <-; auto);
      destruct (imp name) as [module|err];
      try (injection Hl as _ <-; auto); try discriminate.
    apply bind_inv in Hl as (c & v1 & _ & Hl).
    apply bind_inv in Hl as ([] & v2 & _ & Hl).
    apply withDefer_inv in Hl as (v3 & _ & Hres).
    apply resumeFrame_restores in Hres. tauto.
Qed.

End Registers.

(** ** Partial applications *)

Lemma copy_at_app (off : Z) (vs ws : list Value) (m : gmap Z Object) :
  copy_at off (vs ++ ws) m = copy_at (off + Z.of_nat (length vs)) ws (copy_at off vs m).
Proof.
  revert off m. induction vs as [|v vs IH]; intros off m.
  - cbn. f_equal. lia.
  - cbn [app copy_at length]. rewrite IH. f_equal. lia.
Qed.

Lemma slice_to_copy_at (vs : list Value) (m : gmap Z Object) :
  slice_to (copy_at 0 vs m) (Z.of_nat (length vs)) = vs.
Proof.
  unfold slice_to. apply list_eq. intros j.
  rewrite list_lookup_fmap.
  destruct (decide (j < length vs)%nat) as [Hj|Hj].
  - rewrite lookup_seqZ_lt by lia. cbn.
    rewrite copy_at_lookup.
    destruct (Z.leb_spec 0 (0 + Z.of_nat j)); [|lia].
    destruct (Z.ltb_spec (0 + Z.of_nat j) (0 + Z.of_nat (length vs))); [|lia].
    cbn. replace (Z.to_nat (0 + Z.of_nat j - 0)) with j by lia.
    destruct (lookup_lt_is_Some_2 vs j Hj) as [v Hv]. unfold Value in *. rewrite Hv. reflexivity.
  - rewrite lookup_seqZ_ge by lia. cbn.
    symmetry. apply lookup_ge_None. lia.
Qed.

Section Partials.
Context `{External}.

(** X17.  Calling a partial application calls its function with the
    arguments of the call first and the bound arguments after them; when
    the two together are more than 255 the call is refused with an error
    and the machine is not touched. *)
Theorem call_partial_appends_bound_args
    (n : nat) (ctx : Context) (p : Partial) (args : list Value) (vm : VirtualMachine) :
  let total := Z.of_nat (length args) + Z.of_nat (length (p_args p)) in
  (total <= MaxArgs ->
   call (S n) ctx (Some (OPartial p)) args vm
   = call n ctx (p_fn p) (args ++ p_args p)%list
       (with_tmp (copy_at 0 (args ++ p_args p)%list (tmp vm)) vm)) /\
  (MaxArgs < total ->
   call (S n) ctx (Some (OPartial p)) args vm
   = (Ret (Some (exec_error ("max arguments limit of 255 exceeded (got "
                             ++ string_of_Z total ++ ")"))), vm)).
Proof.
  intros total. split; intros Htot; cbn [call]; fold total.
  - destruct (Z.ltb_spec MaxArgs total); [lia|].
    unfold bind at 1, modify at 1. unfold bind at 1, modify at 1.
    cbn [tmp with_tmp].
    unfold bind at 1, sliceTmp.
    destruct (Z.leb_spec 0 total); [|lia].
    destruct (Z.leb_spec total MaxArgs); [|lia].
    cbn [andb]. unfold gets. cbn [tmp with_tmp].
    rewrite <- (Z.add_0_l (Z.of_nat (length args))) at 1.
    rewrite <- copy_at_app.
    replace total with (Z.of_nat (length (args ++ p_args p)%list))
      by (rewrite length_app; lia).
    rewrite slice_to_copy_at.
    rewrite (copy_at_app 0 args), Z.add_0_l.
    destruct vm; reflexivity.
  - destruct (Z.ltb_spec MaxArgs total); [|lia]. reflexivity.
Qed.

End Partials.

(** ** Calls and partial applications on the stack *)

Lemma slice_to_snoc (m : gmap Z Object) (k : nat) :
  slice_to m (Z.of_nat (S k)) = (slice_to m (Z.of_nat k) ++ [m !! Z.of_nat k])%list.
Proof.
  unfold slice_to. rewrite Nat2Z.inj_succ, <- Z.add_1_r.
  rewrite seqZ_app by lia. rewrite fmap_app. reflexivity.
Qed.

Lemma slice_to_ext (m m' : gmap Z Object) (n : Z) :
  (forall j, 0 <= j < n -> m !! j = m' !! j) -> slice_to m n = slice_to m' n.
Proof.
  intros Hj. unfold slice_to. apply list_fmap_ext. intros i x Hx.
  apply lookup_seqZ in Hx as [-> Hlt]. apply Hj. lia.
Qed.

Lemma vacate_last (k : nat) (s : Z) (st : gmap Z Object) :
  vacate k (s - 1) (delete s st) = delete (s - Z.of_nat k) (vacate k s st).
Proof.
  revert s st. induction k as [|k IH]; intros s st.
  - cbn [vacate]. f_equal. lia.
  - cbn [vacate]. rewrite IH. f_equal. lia.
Qed.

(** The loop of [Call] moves the [k] topmost slots into the first [k] slots
    of [vm.tmp], bottom-most first, and leaves the rest of [vm.tmp] alone. *)
Lemma popToTmp_reads_segment (k : nat) (vm : VirtualMachine) :
  Z.of_nat k <= MaxArgs ->
  sp vm < MaxStackDepth ->
  -1 <= sp vm - Z.of_nat k ->
  exists T,
    popToTmp k vm
    = (Ret tt, with_tmp T (with_sp (sp vm - Z.of_nat k)
                             (with_stack (vacate k (sp vm) (stack vm)) vm))) /\
    slice_to T (Z.of_nat k) = stackSegment (stack vm) (sp vm - Z.of_nat k + 1) k /\
    (forall j, Z.of_nat k <= j -> T !! j = tmp vm !! j).
Proof.
  revert vm. induction k as [|k IH]; intros vm Hk Hsp Hlo.
  - exists (tmp vm). split; [|split].
    + cbn [popToTmp vacate]. unfold ret. destruct vm; fields. do 2 f_equal. lia.
    + reflexivity.
    + reflexivity.
  - cbn [popToTmp].
    rewrite (bind_Ret _ _ _ _ _ (pop_ok vm ltac:(lia))).
    erewrite bind_Ret by (apply checkIndex_ok; lia).
    unfold bind at 1, modify at 1.
    match goal with |- context [popToTmp k ?m] => set (vm1 := m) end.
    destruct (IH vm1) as (T & Hrun & Hslice & Hrest);
      [lia | subst vm1; proj; lia | subst vm1; proj; lia |].
    exists T. split; [|split].
    + rewrite Hrun. subst vm1. cbn [vacate]. destruct vm; fields. do 2 f_equal. lia.
    + rewrite slice_to_snoc, Hslice, stackSegment_snoc.
      subst vm1. proj.
      rewrite stackSegment_delete_above by lia.
      replace (sp vm - 1 - Z.of_nat k + 1) with (sp vm - Z.of_nat (S k) + 1) by lia.
      rewrite (Hrest (Z.of_nat k)) by lia. proj. rewrite slot_set_lookup.
      replace (sp vm - Z.of_nat (S k) + 1 + Z.of_nat k) with (sp vm) by lia.
      reflexivity.
    + intros j Hj. rewrite Hrest by lia. subst vm1. proj.
      apply slot_set_lookup_ne. lia.
Qed.

Section CallSites.
Context `{External}.

(** X18.  [Call n] takes the callee from under its [n] arguments and hands
    the arguments over in the order they were pushed; the call runs on a
    stack cut down to below the callee, and its error, if any, ends the
    evaluation. *)
Theorem call_opcode_passes_args_in_push_order
    (call_ : Value -> list Value -> M (option error))
    (loadModule_ : string -> M (Module + error))
    (opcode : Z) (vm : VirtualMachine) (c : code) (argc : Z) :
  decodeOp opcode = Some op.Call ->
  activeCode vm = Some c ->
  0 <= ip vm ->
  Instructions (compiled c) !! Z.to_nat (ip vm) = Some argc ->
  0 <= argc <= MaxArgs ->
  sp vm < MaxStackDepth ->
  0 <= sp vm - argc ->
  let n := Z.to_nat argc in
  let args := stackSegment (stack vm) (sp vm - argc + 1) n in
  let callee := stack vm !! (sp vm - argc) in
  exists vm',
    dispatch call_ loadModule_ opcode vm
    = (err <- call_ callee args;;
       match err with
       | Some e => ret (Return (Some e))
       | None => ret Continue
       end) vm' /\
    vm' = with_tmp (tmp vm')
            (with_sp (sp vm - argc - 1)
               (with_stack (vacate (S n) (sp vm) (stack vm))
                  (with_ip (ip vm + 1) vm))) /\
    slice_to (tmp vm') argc = args.
Proof.
  intros Hdec Hc Hip Hop Hargc Hsp Hlo n args callee.
  assert (Hmax : MaxArgs = 255) by reflexivity.
  assert (Hn : Z.of_nat n = argc) by (subst n; lia).
  unfold dispatch. rewrite Hdec.
  erewrite bind_Ret by (eapply fetch_ok; eassumption).
  rewrite (Z.mod_small argc) by lia. fold n.
  destruct (popToTmp_reads_segment n (with_ip (ip vm + 1) vm))
    as (T & Hrun & Hslice & _); [lia | exact Hsp | proj; lia |].
  cbn [sp stack tmp with_ip] in Hrun, Hslice. rewrite Hn in Hrun, Hslice.
  rewrite (bind_Ret _ _ _ _ _ Hrun).
  erewrite bind_Ret by (apply pop_ok; proj; lia).
  unfold bind at 1, sliceTmp.
  destruct (Z.leb_spec 0 argc); [|lia].
  destruct (Z.leb_spec argc MaxArgs); [|lia].
  cbn [andb]. unfold gets. proj.
  rewrite Hslice. rewrite vacate_lookup_below by lia.
  eexists. split; [reflexivity|]. proj. split.
  - cbn [vacate]. destruct vm; fields. f_equal.
    rewrite vacate_last. f_equal. lia.
  - exact Hslice.
Qed.

(** X19.  [Partial n] replaces the callee and the [n] arguments above it by
    one partial application that binds the arguments in the order they
    were pushed; the slots they occupied are cleared. *)
Theorem partial_opcode_binds_args_in_push_order
    (call_ : Value -> list Value -> M (option error))
    (loadModule_ : string -> M (Module + error))
    (opcode : Z) (vm : VirtualMachine) (c : code) (argc : Z) :
  decodeOp opcode = Some op.Partial ->
  activeCode vm = Some c ->
  0 <= ip vm ->
  Instructions (compiled c) !! Z.to_nat (ip vm) = Some argc ->
  0 <= argc < 65536 ->
  sp vm < MaxStackDepth ->
  0 <= sp vm - argc ->
  let n := Z.to_nat argc in
  let args := stackSegment (stack vm) (sp vm - argc + 1) n in
  let callee := stack vm !! (sp vm - argc) in
  dispatch call_ loadModule_ opcode vm
  = (Ret Continue,
     with_stack (<[sp vm - argc := OPartial (mkPartial callee args)]>
                   (vacate (S n) (sp vm) (stack vm)))
       (with_sp (sp vm - argc) (with_ip (ip vm + 1) vm))).
Proof.
  intros Hdec Hc Hip Hop Hargc Hsp Hlo n args callee.
  assert (Hn : Z.of_nat n = argc) by (subst n; lia).
  unfold dispatch. rewrite Hdec.
  erewrite bind_Ret by (eapply fetch_ok; eassumption).
  rewrite (Z.mod_small argc) by lia. fold n.
  erewrite bind_Ret.
  2:{ apply (popLoop_reads_segment n n 0); proj;
        [lia | apply length_replicate | exact Hsp | lia]. }
  proj. rewrite Hn.
  rewrite drop_ge by (rewrite length_replicate; lia). rewrite app_nil_r.
  erewrite bind_Ret by (apply pop_ok; proj; lia).
  proj. rewrite vacate_lookup_below by lia.
  erewrite bind_Ret by (apply push_ok; proj; lia).
  unfold ret. proj. cbn [slot_set vacate].
  rewrite vacate_last, Hn.
  replace (sp vm - argc - 1 + 1) with (sp vm - argc) by lia.
  rewrite !insert_delete_eq.
  destruct vm; reflexivity.
Qed.

End CallSites.

(** ** Entering a function *)

Lemma storeTmp_ok (vs : list Value) (i : Z) (vm : VirtualMachine) :
  0 <= i -> i + Z.of_nat (length vs) <= MaxArgs ->
  storeTmp i vs vm = (Ret tt, with_tmp (copy_at i vs (tmp vm)) vm).
Proof.
  revert i vm. induction vs as [|v vs IH]; intros i vm Hi Hlen.
  - cbn [storeTmp copy_at]. unfold ret. destruct vm; reflexivity.
  - cbn [storeTmp copy_at]. cbn [length] in Hlen.
    erewrite bind_Ret by (apply checkIndex_ok; lia).
    unfold bind at 1, modify at 1.
    rewrite IH by lia. destruct vm; reflexivity.
Qed.

Lemma sliceTmp_ok (n : Z) (vm : VirtualMachine) :
  0 <= n <= MaxArgs -> sliceTmp n vm = (Ret (slice_to (tmp vm) n), vm).
Proof.
  intros Hn. unfold sliceTmp.
  destruct (Z.leb_spec 0 n); [|lia]. destruct (Z.leb_spec n MaxArgs); [|lia].
  reflexivity.
Qed.

Lemma assembledLocals_length (fn : Function) (args : list Value) :
  (length args <= length (Parameters fn))%nat ->
  length (Defaults fn) = length (Parameters fn) ->
  length (assembledLocals fn args)
  = (length (Parameters fn) + if IsNamed (fn_code fn) then 1 else 0)%nat.
Proof.
  intros Hargs Hdef. unfold assembledLocals.
  rewrite !length_app, length_drop, Hdef.
  destruct (IsNamed (fn_code fn)); cbn [length]; lia.
Qed.

(** The assembly of the locals in [vm.tmp], up to the slice handed to
    [activateFunction]. *)
Lemma assemble_locals (fn : Function) (args : list Value) (vm : VirtualMachine)
    {A} (k : list Value -> M A) :
  (length args <= length (Parameters fn))%nat ->
  length (Defaults fn) = length (Parameters fn) ->
  Z.of_nat (length (assembledLocals fn args)) <= MaxArgs ->
  let paramsCount := Z.of_nat (length (Parameters fn)) in
  let argc := Z.of_nat (length args) in
  (_ <- sliceTmp argc;;
   modify (fun vm => with_tmp (copy_at 0 args (tmp vm)) vm);;;
   argc <- (if argc <? paramsCount
            then storeTmp argc (drop (Z.to_nat argc) (Defaults fn));;;
                 ret paramsCount
            else ret argc);;
   argc <- (if IsNamed (fn_code fn)
            then checkIndex paramsCount MaxArgs;;;
                 modify (fun vm =>
                   with_tmp (slot_set paramsCount (Some (OFunction fn)) (tmp vm)) vm);;;
                 ret (argc + 1)
            else ret argc);;
   locals <- sliceTmp argc;;
   k locals) vm
  = k (assembledLocals fn args)
      (with_tmp (copy_at 0 (assembledLocals fn args) (tmp vm)) vm).
Proof.
  intros Hargs Hdef Hmax paramsCount argc.
  pose proof (assembledLocals_length fn args Hargs Hdef) as Hlen.
  assert (Hnamed : (if IsNamed (fn_code fn) then 1 else 0)%nat
                   = if IsNamed (fn_code fn) then 1%nat else 0%nat) by reflexivity.
  assert (Hp : paramsCount + (if IsNamed (fn_code fn) then 1 else 0) <= MaxArgs).
  { rewrite Hlen in Hmax. subst paramsCount. destruct (IsNamed (fn_code fn)); lia. }
  assert (Hp0 : 0 <= paramsCount) by (subst paramsCount; lia).
  assert (Hb : 0 <= (if IsNamed (fn_code fn) then 1 else 0))
    by (destruct (IsNamed (fn_code fn)); lia).
  erewrite bind_Ret by (apply sliceTmp_ok; subst argc paramsCount; lia).
  unfold bind at 1, modify at 1.
  set (mid := (args ++ drop (length args) (Defaults fn))%list).
  assert (Hmid : length mid = length (Parameters fn)).
  { subst mid. rewrite length_app, length_drop, Hdef. lia. }
  erewrite (bind_Ret _ _ _ paramsCount (with_tmp (copy_at 0 mid (tmp vm)) vm)).
  2:{ destruct (Z.ltb_spec argc paramsCount) as [Hlt|Hge].
      - erewrite bind_Ret.
        2:{ apply storeTmp_ok; [subst argc; lia|].
            rewrite length_drop, Hdef. subst argc paramsCount. lia. }
        unfold ret. proj. subst argc mid. rewrite Nat2Z.id.
        rewrite (copy_at_app 0 args), Z.add_0_l.
        destruct vm; reflexivity.
      - unfold ret. subst mid.
        rewrite drop_ge by (rewrite Hdef; subst argc paramsCount; lia).
        rewrite app_nil_r.
        replace argc with paramsCount by (subst argc paramsCount; lia).
        reflexivity. }
  erewrite (bind_Ret _ _ _ (Z.of_nat (length (assembledLocals fn args)))
              (with_tmp (copy_at 0 (assembledLocals fn args) (tmp vm)) vm)).
  2:{ unfold assembledLocals. fold mid. rewrite app_assoc. fold mid.
      destruct (IsNamed (fn_code fn)).
      - erewrite bind_Ret by (apply checkIndex_ok; lia).
        unfold bind, modify, ret. proj.
        rewrite (copy_at_app 0 mid), Z.add_0_l. cbn [copy_at].
        rewrite length_app, Hmid. cbn [length].
        subst paramsCount. destruct vm; fields. do 2 f_equal. lia.
      - unfold ret. rewrite app_nil_r, Hmid. reflexivity. }
  erewrite bind_Ret by (apply sliceTmp_ok; lia).
  proj. rewrite slice_to_copy_at. reflexivity.
Qed.

Lemma activateFunction_ok (fp_ ip_ : Z) (fn : Function) (locals : list Value)
    (vm : VirtualMachine) :
  0 <= fp_ < MaxFrameDepth ->
  exists c vm1,
    load (fn_code fn) vm = (Ret c, vm1) /\
    compiled c = fn_code fn /\
    vm1 = with_loadedCode (loadedCode vm1) (with_heap (heap vm1) vm) /\
    activateFunction fp_ ip_ fn locals vm
    = (Ret tt, with_active (Some fp_) (Some c)
                 (with_frames
                    (<[fp_ := ActivateFunction fn c (ip vm) (sp vm) locals]> (frames vm))
                    (with_ip ip_ (with_fp fp_ vm1)))).
Proof.
  intros Hfp.
  destruct (load_returns (fn_code fn) vm) as (c & vm1 & Hl & Hcc & _ & _ & _ & Hrest).
  exists c, vm1. split; [exact Hl|]. split; [exact Hcc|]. split; [exact Hrest|].
  unfold activateFunction. rewrite (bind_Ret _ _ _ _ _ Hl).
  assert (Hip : ip vm1 = ip vm) by (rewrite Hrest; reflexivity).
  assert (Hsp : sp vm1 = sp vm) by (rewrite Hrest; reflexivity).
  assert (Hfr : frames vm1 = frames vm) by (rewrite Hrest; reflexivity).
  unfold bind at 1, gets at 1. unfold bind at 1, gets at 1.
  unfold bind at 1, modify at 1. unfold bind at 1, modify at 1.
  erewrite bind_Ret by (apply checkIndex_ok; exact Hfp).
  unfold bind, setFrame, modify. proj. rewrite Hip, Hsp, Hfr. reflexivity.
Qed.

Section Entering.
Context `{External}.

(** What [enterFunction] leaves behind. *)
Lemma enterFunction_binds_locals_aux (fn : Function) (args : list Value)
    (vm : VirtualMachine) :
  (length args <= length (Parameters fn))%nat ->
  length (Defaults fn) = length (Parameters fn) ->
  Z.of_nat (length (assembledLocals fn args)) <= MaxArgs ->
  0 <= fp vm + 1 < MaxFrameDepth ->
  exists c vm',
    enterFunction fn args vm = (Ret (fp vm + 1), vm') /\
    compiled c = fn_code fn /\
    vm' = with_active (Some (fp vm + 1)) (Some c)
            (with_frames
               (<[fp vm + 1 := frameSetReturnAddr StopSignal
                                 (ActivateFunction fn c (ip vm) (sp vm)
                                    (assembledLocals fn args))]> (frames vm))
               (with_ip 0 (with_fp (fp vm + 1)
                  (with_loadedCode (loadedCode vm') (with_heap (heap vm')
                     (with_tmp (copy_at 0 (assembledLocals fn args) (tmp vm)) vm)))))).
Proof.
  intros Hargs Hdef Hmax Hfp.
  unfold enterFunction. rewrite assemble_locals by assumption.
  set (vmT := with_tmp (copy_at 0 (assembledLocals fn args) (tmp vm)) vm).
  destruct (activateFunction_ok (fp vm + 1) 0 fn (assembledLocals fn args) vmT Hfp)
    as (c & vm1 & _ & Hcc & Hrest & Hact).
  exists c.
  unfold bind at 1, gets at 1. change (fp vmT) with (fp vm).
  rewrite (bind_Ret _ _ _ _ _ Hact).
  erewrite bind_Ret by (apply theFrame_ok; reflexivity).
  unfold bind, setFrame, modify, ret. cbn [fst snd].
  eexists. split; [reflexivity|]. split; [exact Hcc|].
  unfold frameAt. proj. rewrite lookup_insert_eq. cbn [default from_option id].
  rewrite insert_insert_eq.
  rewrite Hrest. subst vmT. destruct vm; reflexivity.
Qed.

(** X20.  Entering a function binds its locals in the order arguments,
    defaults of the missing arguments, the function itself if it is named:
    in a code that has a slot for each of them, the locals of the new frame
    are these values followed by nil in the remaining slots.  The new frame
    is one above the caller's, has no defers, records the caller's
    instruction and stack pointers, and returns to the stop signal; the
    stack is not touched. *)
Theorem enterFunction_binds_locals (fn : Function) (args : list Value)
    (vm : VirtualMachine) :
  (length args <= length (Parameters fn))%nat ->
  length (Defaults fn) = length (Parameters fn) ->
  Z.of_nat (length (assembledLocals fn args)) <= MaxArgs ->
  (length (assembledLocals fn args) <= LocalsCount (fn_code fn))%nat ->
  0 <= fp vm + 1 < MaxFrameDepth ->
  exists c vm',
    enterFunction fn args vm = (Ret (fp vm + 1), vm') /\
    compiled c = fn_code fn /\
    vm' = with_active (Some (fp vm + 1)) (Some c)
            (with_frames
               (<[fp vm + 1 := frameSetReturnAddr StopSignal
                                 (ActivateFunction fn c (ip vm) (sp vm)
                                    (assembledLocals fn args))]> (frames vm))
               (with_ip 0 (with_fp (fp vm + 1)
                  (with_loadedCode (loadedCode vm') (with_heap (heap vm')
                     (with_tmp (copy_at 0 (assembledLocals fn args) (tmp vm)) vm)))))) /\
    f_locals (frameAt vm' (fp vm + 1))
    = (assembledLocals fn args
       ++ replicate (LocalsCount (fn_code fn) - length (assembledLocals fn args)) None)%list /\
    f_code (frameAt vm' (fp vm + 1)) = Some c /\
    f_fn (frameAt vm' (fp vm + 1)) = Some fn /\
    f_defers (frameAt vm' (fp vm + 1)) = [] /\
    returnAddr (frameAt vm' (fp vm + 1)) = StopSignal /\
    returnSp (frameAt vm' (fp vm + 1)) = sp vm.
Proof.
  intros Hargs Hdef Hmax Hslots Hfp.
  destruct (enterFunction_binds_locals_aux fn args vm Hargs Hdef Hmax Hfp)
    as (c & vm' & He & Hcc & Hvm).
  exists c, vm'. split; [exact He|]. split; [exact Hcc|]. split; [exact Hvm|].
  assert (Hfr : frameAt vm' (fp vm + 1)
                = frameSetReturnAddr StopSignal
                    (ActivateFunction fn c (ip vm) (sp vm) (assembledLocals fn args))).
  { rewrite Hvm. unfold frameAt. proj. rewrite lookup_insert_eq. reflexivity. }
  rewrite Hfr. cbn [frameSetReturnAddr ActivateFunction f_locals f_code f_fn f_defers
                    returnAddr returnSp].
  split; [|auto].
  unfold initLocals. rewrite Hcc.
  rewrite take_app_ge by exact Hslots.
  rewrite take_replicate. f_equal. f_equal. lia.
Qed.

End Entering.

(** ** Calling into a halted machine *)

Lemma resumeFrame_nothing_left (fp_ ip_ sp_ : Z) (vm : VirtualMachine) :
  sp vm <= sp_ ->
  0 <= fp_ < MaxFrameDepth ->
  resumeFrame fp_ ip_ sp_ vm
  = (Ret tt, with_active (Some fp_) (f_code (frameAt vm fp_))
               (with_ip ip_ (with_fp fp_ (with_sp sp_ vm)))).
Proof.
  intros Hsp Hfp. unfold resumeFrame.
  unfold bind at 1, gets at 1.
  destruct (Z.ltb_spec sp_ (sp vm)); [lia|].
  unfold bind at 1, ret at 1. unfold bind at 1, gets at 1.
  replace (Z.to_nat (sp vm - sp_)) with 0%nat by lia.
  cbn [clearSlots]. unfold bind at 1, ret at 1.
  unfold bind at 1, modify at 1. unfold bind at 1, ret at 1.
  unfold bind at 1, modify at 1. unfold bind at 1, modify at 1.
  erewrite bind_Ret by (apply checkIndex_ok; exact Hfp).
  unfold modify. reflexivity.
Qed.

Section Halted.
Context `{External}.

Lemma eval_halted (fuel : nat) (ctx : Context) (vm : VirtualMachine) (c : code) :
  activeCode vm = Some c ->
  ip vm < Z.of_nat (length (Instructions (compiled c))) ->
  halt vm = 1 ->
  eval fuel ctx vm = (Ret (ctxErr ctx), vm).
Proof.
  intros Hc Hip Hh.
  destruct fuel; cbn [eval]; rewrite Hc;
    (destruct (Z.ltb_spec (ip vm) (Z.of_nat (length (Instructions (compiled c)))));
       [|lia]); rewrite Hh; reflexivity.
Qed.

(** X21.  A call into a machine whose halt flag is set runs no instruction
    of the function.  When the context reports an error the call returns
    it and the stack and the registers are as before.  When the context
    reports none (the flag was stored for an earlier context) the call
    takes the caller's top of stack for the result of the function. *)
Theorem call_into_halted_machine
    (n : nat) (ctx : Context) (fn : Function) (args : list Value)
    (vm : VirtualMachine) :
  halt vm = 1 ->
  checkCallArgs fn (Z.of_nat (length args)) = None ->
  length (Defaults fn) = length (Parameters fn) ->
  Z.of_nat (length (assembledLocals fn args)) <= MaxArgs ->
  0 <= fp vm < MaxFrameDepth - 1 ->
  Instructions (fn_code fn) <> [] ->
  (forall e, ctxErr ctx = Some e ->
     exists vm',
       callFunction (S n) ctx fn args vm = (Ret (inr e), vm') /\
       sp vm' = sp vm /\ stack vm' = stack vm /\
       fp vm' = fp vm /\ ip vm' = ip vm /\ halt vm' = 1) /\
  (ctxErr ctx = None -> 0 <= sp vm < MaxStackDepth ->
     exists vm',
       callFunction (S n) ctx fn args vm = (Ret (inl (stack vm !! sp vm)), vm') /\
       sp vm' = sp vm /\ stack vm' = delete (sp vm) (stack vm) /\
       fp vm' = fp vm /\ ip vm' = ip vm /\ halt vm' = 1).
Proof.
  intros Hh Hcheck Hdef Hmax Hfp Hcode.
  assert (Hargs : (length args <= length (Parameters fn))%nat).
  { unfold checkCallArgs in Hcheck.
    destruct (Z.ltb_spec (Z.of_nat (length (Parameters fn))) (Z.of_nat (length args)));
      [|lia].
    cbn [orb] in Hcheck. repeat case_match; discriminate. }
  destruct (enterFunction_binds_locals_aux fn args vm Hargs Hdef Hmax ltac:(lia))
    as (c & vmE & Henter & Hcc & HvmE).
  assert (HactE : activeCode vmE = Some c) by (rewrite HvmE; reflexivity).
  assert (HipE : ip vmE = 0) by (rewrite HvmE; reflexivity).
  assert (HhE : halt vmE = 1) by (rewrite HvmE; exact Hh).
  assert (HspE : sp vmE = sp vm) by (rewrite HvmE; reflexivity).
  assert (HstE : stack vmE = stack vm) by (rewrite HvmE; reflexivity).
  assert (HdsE : f_defers (frameAt vmE (fp vm + 1)) = []).
  { rewrite HvmE. unfold frameAt. proj. rewrite lookup_insert_eq. reflexivity. }
  assert (Heval : eval n ctx vmE = (Ret (ctxErr ctx), vmE)).
  { apply (eval_halted n ctx vmE c HactE); [|exact HhE].
    rewrite HipE, Hcc. destruct (Instructions (fn_code fn)); [contradiction|].
    cbn [length]. lia. }
  split.
  - intros e He. cbn [callFunction]. rewrite Hcheck.
    unfold withDefer, deferring at 1.
    rewrite (bind_Ret _ _ _ _ _ Henter).
    unfold deferring. rewrite (bind_Ret _ _ _ _ _ Heval). rewrite He.
    unfold ret at 1. unfold bind at 1, gets at 1. rewrite HdsE. cbn [fireDefers].
    unfold ret at 1.
    erewrite bind_Ret by (apply resumeFrame_nothing_left; lia).
    unfold ret. eexists. split; [reflexivity|].
    proj. rewrite HstE, HhE. auto.
  - intros He Hsp. cbn [callFunction]. rewrite Hcheck.
    unfold withDefer, deferring at 1.
    rewrite (bind_Ret _ _ _ _ _ Henter).
    unfold deferring. rewrite (bind_Ret _ _ _ _ _ Heval). rewrite He.
    erewrite bind_Ret by (apply pop_ok; lia).
    unfold ret at 1. unfold bind at 1, gets at 1.
    assert (Hds' : f_defers (frameAt (with_sp (sp vmE - 1)
                     (with_stack (delete (sp vmE) (stack vmE)) vmE)) (fp vm + 1)) = [])
      by exact HdsE.
    rewrite Hds'. cbn [fireDefers]. unfold ret at 1.
    erewrite bind_Ret by (apply resumeFrame_nothing_left; proj; lia).
    unfold ret. eexists. split; [rewrite HstE, HspE; reflexivity|].
    proj. rewrite ?HstE, ?HspE, ?HhE. auto.
Qed.

End Halted.

(** ** What the dispatcher never writes

    The second preservation argument: no primitive of the dispatcher
    writes the halt flag, the main code, the importer, the host globals,
    the running latch or the concurrency switch. *)

Create HintDb keep.

Section Configuration.
Context `{External}.
Variable k : Z * Code * option Importer * gmap string Object * gmap string Object
             * bool * bool.

Lemma keeps_modify (f : VirtualMachine -> VirtualMachine) :
  (forall vm, config (f vm) = config vm) -> preserves (configIs k) (modify f).
Proof. intros Hf vm HP. unfold configIs, modify. cbn [snd]. rewrite Hf. exact HP. Qed.

Ltac keep_step :=
  lazymatch goal with
  | |- preserves _ (ret _) => apply preserves_ret
  | |- preserves _ (panic _) => apply preserves_panic
  | |- preserves _ (gets _) => apply preserves_gets
  | |- preserves _ (fun vm => (_, vm)) => apply preserves_const
  | |- preserves _ (modify _) => apply keeps_modify; intros ?; reflexivity
  | |- preserves _ (bind _ _) => apply preserves_bind; [|intros ?]
  | |- preserves _ (deferring _ _ _) => apply preserves_deferring; [|intros ?|]
  | |- preserves _ (match ?x with _ => _ end) => destruct x
  | |- preserves _ (let _ := _ in _) => cbv zeta
  | |- preserves _ _ => solve [auto with keep]
  end.
Ltac keep := repeat keep_step.

Lemma keeps_checkIndex i len : preserves (configIs k) (checkIndex i len).
Proof. unfold checkIndex. keep. Qed.
Hint Resolve keeps_checkIndex : keep.

Lemma keeps_index {A} (d : A) l i : preserves (configIs k) (index d l i).
Proof. unfold index. keep. Qed.
Hint Resolve keeps_index : keep.

Lemma keeps_pop : preserves (configIs k) pop.
Proof. unfold pop. keep. Qed.
Hint Resolve keeps_pop : keep.

Lemma keeps_push v : preserves (configIs k) (push v).
Proof. unfold push. keep. Qed.
Hint Resolve keeps_push : keep.

Lemma keeps_swap pos : preserves (configIs k) (swap pos).
Proof. unfold swap. keep. Qed.
Hint Resolve keeps_swap : keep.

Lemma keeps_theCode : preserves (configIs k) theCode.
Proof. unfold theCode. keep. Qed.
Hint Resolve keeps_theCode : keep.

Lemma keeps_fetch : preserves (configIs k) fetch.
Proof. unfold fetch. keep. Qed.
Hint Resolve keeps_fetch : keep.

Lemma keeps_theFrame : preserves (configIs k) theFrame.
Proof. unfold theFrame. keep. Qed.
Hint Resolve keeps_theFrame : keep.

Lemma keeps_setFrame i f : preserves (configIs k) (setFrame i f).
Proof. unfold setFrame. keep. Qed.
Hint Resolve keeps_setFrame : keep.

Lemma keeps_clearSlots n i : preserves (configIs k) (clearSlots n i).
Proof. revert i. induction n; intros i; cbn [clearSlots]; keep. Qed.
Hint Resolve keeps_clearSlots : keep.

Lemma keeps_resumeFrame fp_ ip_ sp_ : preserves (configIs k) (resumeFrame fp_ ip_ sp_).
Proof. unfold resumeFrame. keep. Qed.
Hint Resolve keeps_resumeFrame : keep.

Lemma keeps_activateCode fp_ ip_ c : preserves (configIs k) (activateCode fp_ ip_ c).
Proof. unfold activateCode. keep. Qed.
Hint Resolve keeps_activateCode : keep.

Lemma keeps_load cc : preserves (configIs k) (load cc).
Proof. unfold load, loadRootCode, register. keep. Qed.
Hint Resolve keeps_load : keep.

Lemma keeps_reload cc : preserves (configIs k) (reload cc).
Proof. unfold reload. keep. Qed.
Hint Resolve keeps_reload : keep.

Lemma keeps_loadConstants cs : preserves (configIs k) (loadConstants cs).
Proof. induction cs as [|[[]|] cs IH]; cbn [loadConstants]; keep. Qed.
Hint Resolve keeps_loadConstants : keep.

Lemma keeps_activateFunction fp_ ip_ fn locals :
  preserves (configIs k) (activateFunction fp_ ip_ fn locals).
Proof. unfold activateFunction. keep. Qed.
Hint Resolve keeps_activateFunction : keep.

Lemma keeps_notA what v : preserves (configIs k) (notA what v).
Proof. unfold notA, typeName, failf. keep. Qed.
Hint Resolve keeps_notA : keep.

Lemma keeps_popLoop n i dst items : preserves (configIs k) (popLoop n i dst items).
Proof. revert i items. induction n; intros i items; cbn [popLoop]; keep. Qed.
Hint Resolve keeps_popLoop : keep.

Lemma keeps_popToTmp n : preserves (configIs k) (popToTmp n).
Proof. induction n; cbn [popToTmp]; keep. Qed.
Hint Resolve keeps_popToTmp : keep.

Lemma keeps_sliceTmp n : preserves (configIs k) (sliceTmp n).
Proof. unfold sliceTmp. keep. Qed.
Hint Resolve keeps_sliceTmp : keep.

Lemma keeps_storeTmp i vs : preserves (configIs k) (storeTmp i vs).
Proof. revert i. induction vs; intros i; cbn [storeTmp]; keep. Qed.
Hint Resolve keeps_storeTmp : keep.

Lemma keeps_pushAll vs : preserves (configIs k) (pushAll vs).
Proof. induction vs; cbn [pushAll]; keep. Qed.
Hint Resolve keeps_pushAll : keep.

Lemma keeps_popNames n names : preserves (configIs k) (popNames n names).
Proof. revert names. induction n; intros names; cbn [popNames]; keep. Qed.
Hint Resolve keeps_popNames : keep.

Lemma keeps_popFrom n from : preserves (configIs k) (popFrom n from).
Proof. revert from. induction n; intros from; cbn [popFrom]; keep. Qed.
Hint Resolve keeps_popFrom : keep.

Lemma keeps_popJump wanted shift : preserves (configIs k) (popJump wanted shift).
Proof. unfold popJump. keep. Qed.
Hint Resolve keeps_popJump : keep.

Lemma keeps_importNames loadModule_ from names :
  (forall name, preserves (configIs k) (loadModule_ name)) ->
  preserves (configIs k) (importNames loadModule_ from names).
Proof.
  intros Hl. induction names; cbn [importNames]; unfold failf; keep.
Qed.

Lemma keeps_fireDefers call_ partials res :
  (forall fn args, preserves (configIs k) (call_ fn args)) ->
  preserves (configIs k) (fireDefers call_ partials res).
Proof.
  intros Hc. revert res. induction partials; intros res; cbn [fireDefers]; keep.
Qed.

Lemma keeps_enterFunction fn args : preserves (configIs k) (enterFunction fn args).
Proof. unfold enterFunction. keep. Qed.
Hint Resolve keeps_enterFunction : keep.

Lemma keeps_dispatch call_ loadModule_ opcode :
  (forall fn args, preserves (configIs k) (call_ fn args)) ->
  (forall name, preserves (configIs k) (loadModule_ name)) ->
  preserves (configIs k) (dispatch call_ loadModule_ opcode).
Proof.
  intros Hc Hl. unfold dispatch.
  destruct (decodeOp opcode) as [[]|]; unfold failf; keep;
    apply keeps_importNames; assumption.
Qed.

Lemma keeps_machine (fuel : nat) :
  (forall ctx, preserves (configIs k) (eval fuel ctx)) /\
  (forall ctx fn args, preserves (configIs k) (call fuel ctx fn args)) /\
  (forall ctx fn args, preserves (configIs k) (callFunction fuel ctx fn args)) /\
  (forall ctx name, preserves (configIs k) (loadModule fuel ctx name)).
Proof.
  induction fuel as [|n (IHe & IHc & IHf & IHl)].
  - repeat split.
    + intros ctx vm HP. cbn [eval]. repeat case_match; exact HP.
    + intros ctx fn args vm HP. exact HP.
    + intros ctx fn args vm HP. cbn [callFunction]. repeat case_match; exact HP.
    + intros ctx name vm HP. cbn [loadModule]. repeat case_match; exact HP.
  - repeat split.
    + intros ctx vm HP. cbn [eval].
      destruct (activeCode vm) as [c|]; [|exact HP].
      destruct (ip vm <? _); [|exact HP].
      destruct (halt vm =? 1); [exact HP|].
      match goal with
      | |- configIs k (?m vm).2 => cut (preserves (configIs k) m); [intros Hm; exact (Hm vm HP)|]
      end.
      keep. apply keeps_dispatch; auto.
    + intros ctx fn args. cbn [call].
      destruct fn as [[]|]; keep; auto.
    + intros ctx fn args vm HP. cbn [callFunction].
      destruct (checkCallArgs fn _); [exact HP|].
      match goal with
      | |- configIs k (?m vm).2 => cut (preserves (configIs k) m); [intros Hm; exact (Hm vm HP)|]
      end.
      unfold withDefer. keep; apply keeps_fireDefers; auto.
    + intros ctx name vm HP. cbn [loadModule].
      destruct (modules vm !! name) eqn:Hm; [exact HP|].
      destruct (importer vm) as [imp|] eqn:Hi; [|exact HP].
      destruct (imp name) as [module|err]; [|exact HP].
      match goal with
      | |- configIs k (?m vm).2 => cut (preserves (configIs k) m); [intros Hm'; exact (Hm' vm HP)|]
      end.
      unfold withDefer. keep.
Qed.

Lemma keeps_runBody (fuel : nat) (ctx : Context) :
  preserves (configIs k)
    (main_ <- gets main;;
     loadConstants (Constants main_);;;
     reg <- gets loadedCode;;
     c <- (if decide (size reg = 0%nat) then load main_ else reload main_);;
     ip0 <- gets ip;;
     activateCode 0 ip0 c;;;
     eval fuel ctx).
Proof. keep. apply (keeps_machine fuel). Qed.

End Configuration.

Section NeverWritten.
Context `{External}.

(** X22.  The dispatcher does not write the configuration of the
    machine: an evaluation, a call, a function call or a module load leaves
    the halt flag, the main code, the importer, the host globals, the
    running latch and the concurrency switch as it found them; in
    particular none of them resets the halt flag.  After [Run], whatever
    its outcome, the main code, the importer, the host globals and the
    concurrency switch are those found.  The halt flag is left out for
    [Run]: the goroutine it starts stores the flag once the context is
    done, which is the environment's [haltStore] here. *)
Theorem configuration_is_never_written (fuel : nat) (ctx : Context)
    (vm : VirtualMachine) :
  config (eval fuel ctx vm).2 = config vm /\
  (forall fn args, config (call fuel ctx fn args vm).2 = config vm) /\
  (forall fn args, config (callFunction fuel ctx fn args vm).2 = config vm) /\
  (forall name, config (loadModule fuel ctx name vm).2 = config vm) /\
  (let after := (Run fuel ctx vm).2 in
   main after = main vm /\ importer after = importer vm /\
   inputGlobals after = inputGlobals vm /\ concAllowed after = concAllowed vm).
Proof.
  destruct (keeps_machine (config vm) fuel) as (He & Hc & Hf & Hl).
  split; [exact (He ctx vm eq_refl)|].
  split; [intros fn args; exact (Hc ctx fn args vm eq_refl)|].
  split; [intros fn args; exact (Hf ctx fn args vm eq_refl)|].
  split; [intros name; exact (Hl ctx name vm eq_refl)|].
  intros after.
  assert (Hrun : exists r vm1 (b : bool),
            config vm1 = config (with_running true
                                   (with_modules (omap asModule (inputGlobals vm) ∪ modules vm)
                                      (with_globals (inputGlobals vm) vm))) /\
            Run fuel ctx vm = (r, if b then with_running false vm1 else vm1)).
  { unfold Run, recovering, runBody.
    unfold bind at 1, modify at 1. unfold bind at 1, modify at 1.
    unfold bind at 1, modify at 1. unfold withDefer, deferring.
    match goal with
    | |- context [match ?body ?st with _ => _ end] =>
        pose proof (keeps_runBody (config st) fuel ctx st eq_refl) as Hbody;
        destruct (body st) as [[a|d| |o] vm1]
    end; unfold bind, modify, ret; cbn [snd] in *.
    - eexists _, vm1, true. split; [exact Hbody|reflexivity].
    - eexists _, vm1, true. split; [exact Hbody|reflexivity].
    - eexists _, vm1, false. split; [exact Hbody|reflexivity].
    - eexists _, vm1, false. split; [exact Hbody|reflexivity]. }
  destruct Hrun as (r & vm1 & b & Hcfg & Hrun).
  subst after. rewrite Hrun. cbn [snd].
  unfold config in Hcfg.
  cbn [halt main importer inputGlobals globals running concAllowed
       with_running with_modules with_globals] in Hcfg.
  injection Hcfg as _ Hmain Himp Hin _ _ Hconc.
  destruct b; proj; auto.
Qed.

End NeverWritten.

(** ** Returning from a frame *)

(** A callee whose topmost slot is nil hands nothing back: the caller's
    stack pointer is restored as it was. *)
Lemma resumeFrame_drops_nil (fp_ ip_ sp_ : Z) (vm : VirtualMachine) :
  -1 <= sp_ -> sp_ < sp vm -> sp vm < MaxStackDepth ->
  stack vm !! sp vm = None ->
  0 <= fp_ < MaxFrameDepth ->
  exists vm',
    resumeFrame fp_ ip_ sp_ vm = (Ret tt, vm') /\
    sp vm' = sp_ /\
    (forall k, k <= sp_ -> stack vm' !! k = stack vm !! k) /\
    (forall k, sp_ < k <= sp vm -> stack vm' !! k = None) /\
    fp vm' = fp_ /\ ip vm' = ip_ /\ activeFrame vm' = Some fp_.
Proof.
  intros Hlo Hlt Hhi Htop Hfp.
  unfold resumeFrame. unfold bind at 1, gets at 1.
  destruct (Z.ltb_spec sp_ (sp vm)); [|lia].
  rewrite (bind_Ret _ _ _ _ _ (pop_ok vm ltac:(lia))).
  unfold bind at 1, gets at 1. cbn [sp with_sp with_stack].
  erewrite bind_Ret by (apply clearSlots_ok; lia).
  unfold bind at 1, modify at 1. rewrite Htop.
  unfold bind at 1, ret at 1.
  unfold bind at 1, modify at 1. unfold bind at 1, modify at 1.
  erewrite bind_Ret by (apply checkIndex_ok; exact Hfp).
  unfold modify. eexists. split; [reflexivity|].
  proj. repeat split.
  - intros k Hk. rewrite vacate_lookup_below by lia. apply lookup_delete_ne. lia.
  - intros k Hk. destruct (decide (k = sp vm)) as [->|Hne].
    + rewrite vacate_lookup_above by lia. apply lookup_delete_eq.
    + apply vacate_lookup_cleared. lia.
Qed.

Section Returning.
Context `{External}.

(** X23.  [ReturnValue] hands exactly one value back: the top of the
    callee's stack lands one slot above the stack pointer recorded in the
    frame, every slot the callee left above it is cleared and the slots up
    to the recorded pointer are untouched; the frame below becomes active
    at the recorded return address, and the evaluation stops when that
    address is the stop signal.  A nil on top of the stack is not handed
    back: the stack pointer is then the recorded one. *)
Theorem return_value_hands_one_result_back
    (call_ : Value -> list Value -> M (option error))
    (loadModule_ : string -> M (Module + error))
    (opcode : Z) (vm : VirtualMachine) (f : Z) :
  decodeOp opcode = Some op.ReturnValue ->
  activeFrame vm = Some f ->
  let ra := returnAddr (frameAt vm f) in
  let rs := returnSp (frameAt vm f) in
  -1 <= rs -> rs < sp vm -> sp vm < MaxStackDepth ->
  0 <= fp vm - 1 < MaxFrameDepth ->
  exists vm',
    dispatch call_ loadModule_ opcode vm
    = (Ret (if ra =? StopSignal then Return None else Continue), vm') /\
    fp vm' = fp vm - 1 /\ ip vm' = ra /\ activeFrame vm' = Some (fp vm - 1) /\
    (forall k, k <= rs -> stack vm' !! k = stack vm !! k) /\
    match stack vm !! sp vm with
    | Some top =>
        sp vm' = rs + 1 /\ stack vm' !! (rs + 1) = Some top /\
        (forall k, rs + 1 < k <= sp vm -> stack vm' !! k = None)
    | None =>
        sp vm' = rs /\ (forall k, rs < k <= sp vm -> stack vm' !! k = None)
    end.
Proof.
  intros Hdec Hfr ra rs Hlo Hlt Hhi Hfp.
  unfold dispatch. rewrite Hdec.
  erewrite bind_Ret by (apply theFrame_ok; exact Hfr).
  unfold bind at 1, gets at 1. cbn [fst snd]. fold ra rs.
  destruct (stack vm !! sp vm) as [top|] eqn:Htop.
  - destruct (resumeFrame_keeps_one_result (fp vm - 1) ra rs vm top
                Hlo Hlt Hhi Htop Hfp)
      as (vm' & Hres & Hsp & Hslot & Hbelow & Habove & Hfp' & Hip' & Hact).
    exists vm'. rewrite (bind_Ret _ _ _ _ _ Hres).
    split; [destruct (ra =? StopSignal); reflexivity|]. auto 10.
  - destruct (resumeFrame_drops_nil (fp vm - 1) ra rs vm Hlo Hlt Hhi Htop Hfp)
      as (vm' & Hres & Hsp & Hbelow & Habove & Hfp' & Hip' & Hact).
    exists vm'. rewrite (bind_Ret _ _ _ _ _ Hres).
    split; [destruct (ra =? StopSignal); reflexivity|]. auto 10.
Qed.

End Returning.

(** ** Run after a call *)

Lemma loadConstants_no_functions (cs : list Value) (vm : VirtualMachine) :
  (forall fn, Some (OFunction fn) ∉ cs) ->
  loadConstants cs vm = (Ret tt, vm).
Proof.
  induction cs as [|v cs IH]; intros Hno; [reflexivity|].
  assert (Hrest : forall fn, Some (OFunction fn) ∉ cs).
  { intros fn Hin. apply (Hno fn). right. exact Hin. }
  destruct v as [[]|]; cbn [loadConstants]; try (apply IH; exact Hrest).
  exfalso. eapply Hno. left.
Qed.

Section RunAfterCall.
Context `{External}.

(** X24.  [Run] takes a non-empty registry of loaded code for the trace
    of an earlier run and reloads the main code: when codes are loaded but
    the main code is not among them (a function of another compilation was
    called before the first run), [Run] ends at once with the error
    [panic: main code not loaded], the running latch released. *)
Theorem Run_needs_main_among_loaded (fuel : nat) (ctx : Context)
    (vm : VirtualMachine) :
  (forall fn, Some (OFunction fn) ∉ Constants (main vm)) ->
  loadedCode vm <> ∅ ->
  loadedCode vm !! code_id (main vm) = None ->
  Run fuel ctx vm
  = (Ret (Some "panic: main code not loaded"),
     with_running false
       (with_modules (omap asModule (inputGlobals vm) ∪ modules vm)
          (with_globals (inputGlobals vm) vm))).
Proof.
  intros Hno Hne Hmain.
  unfold Run, recovering, runBody.
  unfold bind at 1, modify at 1. unfold bind at 1, modify at 1.
  unfold bind at 1, modify at 1. unfold withDefer, deferring.
  unfold bind at 1, gets at 1. proj.
  rewrite bind_Ret with (a := tt)
    (vm' := with_running true
              (with_modules (omap asModule (inputGlobals vm) ∪ modules vm)
                 (with_globals (inputGlobals vm) vm)))
    by (apply loadConstants_no_functions; exact Hno).
  unfold bind at 1, gets at 1. proj.
  destruct (decide (size (loadedCode vm) = 0%nat)) as [Hsz|Hsz].
  { apply map_size_empty_inv in Hsz. contradiction. }
  unfold reload at 1, bind at 1, bind at 1, gets at 1. proj. rewrite Hmain.
  unfold panic, modify. destruct vm; reflexivity.
Qed.

End RunAfterCall.

(** ** Importing without a parent path *)

Section FromNowhere.
Context `{External}.

(** X25.  The parent length of [FromImport] is an unsigned 16-bit word
    and the loop over the parent path starts at that length minus one: with
    a parent length of 0 the loop starts at index 65535 of an empty path,
    and the store of the string on top of the stack into the path panics. *)
Theorem from_import_without_parent
    (call_ : Value -> list Value -> M (option error))
    (loadModule_ : string -> M (Module + error))
    (opcode : Z) (vm : VirtualMachine) (c : code) (s : string) :
  decodeOp opcode = Some op.FromImport ->
  activeCode vm = Some c ->
  0 <= ip vm ->
  Instructions (compiled c) !! Z.to_nat (ip vm) = Some 0 ->
  Instructions (compiled c) !! Z.to_nat (ip vm + 1) = Some 0 ->
  0 <= sp vm < MaxStackDepth ->
  stack vm !! sp vm = Some (OString s) ->
  dispatch call_ loadModule_ opcode vm
  = (Panic "runtime error: index out of range [65535] with length 0",
     with_sp (sp vm - 1)
       (with_stack (delete (sp vm) (stack vm)) (with_ip (ip vm + 2) vm))).
Proof.
  intros Hdec Hc Hip Hw0 Hw1 Hsp Htop.
  unfold dispatch. rewrite Hdec.
  erewrite bind_Ret by (eapply fetch_ok; eassumption).
  erewrite bind_Ret.
  2:{ eapply fetch_ok; [exact Hc | proj; lia | proj; exact Hw1]. }
  change (0 mod 65536) with 0. cbv beta.
  change (255 <? 0) with false. cbv iota.
  change (Z.to_nat 0) with 0%nat. cbn [popNames].
  unfold bind at 1, ret at 1. cbv iota.
  replace (Z.to_nat ((0 - 1) mod 65536 + 1)) with (S (Z.to_nat 65535)) by reflexivity.
  cbn [popFrom replicate].
  rewrite bind_assoc.
  erewrite bind_Ret by (apply pop_ok; proj; exact Hsp).
  proj. rewrite Htop.
  replace (ip vm + 1 + 1) with (ip vm + 2) by lia.
  erewrite bind_Panic; [|erewrite bind_Panic; [reflexivity|]].
  2:{ rewrite checkIndex_fail by (cbn [length]; lia).
      rewrite Z2Nat.id by lia. reflexivity. }
  destruct vm; reflexivity.
Qed.

End FromNowhere.

(** ** The further properties at concrete inputs *)

(** X1 on the empty stack. *)
Lemma push_then_pop_witness :
  exists vm',
    (push (Some (OInt 7));;; pop) (Samples.scratch [] []) = (Ret (Some (OInt 7)), vm') /\
    sp vm' = -1 /\
    (forall k, k <> -1 + 1 -> stack vm' !! k = stack (Samples.scratch [] []) !! k) /\
    stack vm' !! (-1 + 1) = None.
Proof.
  apply (push_then_pop (Some (OInt 7)) (Samples.scratch [] [])); concrete.
Defined.

(** X2 on the empty stack. *)
Lemma stack_bounds_panic_witness :
  pop (Samples.scratch [] [])
  = (Panic "runtime error: index out of range [-1]", Samples.scratch [] []).
Proof.
  apply (proj1 (stack_bounds_panic None (Samples.scratch [] []))). concrete.
Defined.

(** X3 on a stack of two values. *)
Lemma swap_exchanges_witness :
  let vm := Samples.scratch [] [OInt 1; OInt 2] in
  exists vm',
    swap 1 vm = (Ret tt, vm') /\
    sp vm' = 1 /\
    stack vm' !! 1 = Some (OInt 1) /\
    stack vm' !! 0 = Some (OInt 2).
Proof.
  intros vm.
  destruct (swap_exchanges 1 vm ltac:(concrete) ltac:(concrete))
    as (vm' & Hs & Hsp & Htop & Hother & _).
  exists vm'. split; [exact Hs|]. split; [exact Hsp|].
  split; [exact Htop | exact Hother].
Defined.

(** X4 at a word that is no opcode. *)
Lemma eval_edge_cases_witness :
  eval 1 Demo.background (Samples.scratch [99] [])
  = (Ret (Some "exec error: unknown opcode: 99"),
     with_ip 1 (Samples.scratch [99] [])).
Proof.
  apply (proj1 (proj2 (eval_edge_cases (H := Demo.external) 0 Demo.background
                         (Samples.scratch [99] [])
                         (mkLoaded (Samples.scratchCode [99]) 0) eq_refl)) 99);
    concrete.
Defined.

(** X5 at [JumpBackward 3], whose opcode is at address 0. *)
Lemma jump_lands_relative_to_opcode_witness :
  let vm := Examples.atOperand [Demo.JUMP_BACKWARD; 3] [] in
  dispatch (call 0 Demo.background) (loadModule 0 Demo.background)
    Demo.JUMP_BACKWARD vm
  = (Ret Continue, with_ip (-3) vm).
Proof.
  intros vm.
  apply (jump_lands_relative_to_opcode (H := Demo.external)
           (call 0 Demo.background) (loadModule 0 Demo.background)
           Demo.JUMP_BACKWARD op.JumpBackward (-1) vm
           (mkLoaded (mkCode 0 0 [Demo.JUMP_BACKWARD; 3] [] [] [] 0 false) 0) 3);
    concrete.
Defined.

(** X6 at [JumpForward 0] with fifty units of fuel. *)
Lemma jump_zero_loops_until_halted_witness :
  let vm := Samples.scratch [Samples.JUMP_FORWARD; 0] [] in
  eval 50 Demo.background vm = (OutOfFuel, vm) /\
  eval 50 Demo.background (haltStore vm) = (Ret None, haltStore vm).
Proof.
  intros vm.
  exact (jump_zero_loops_until_halted (H := Demo.external) Demo.background vm
           (mkLoaded (Samples.scratchCode [Samples.JUMP_FORWARD; 0]) 0)
           Samples.JUMP_FORWARD op.JumpForward 1
           ltac:(concrete) ltac:(concrete) ltac:(concrete) ltac:(concrete)
           ltac:(concrete) ltac:(concrete) ltac:(concrete) 50%nat).
Defined.

(** X7 at [StoreFast 1; LoadFast 1] with 5 on the stack. *)
Lemma store_fast_then_load_fast_witness :
  let vm := Samples.scratch [Samples.STORE_FAST; 1; Demo.LOAD_FAST; 1] [OInt 5] in
  let vm' := (eval 2 Demo.background vm).2 in
  f_locals (frameAt vm' 0) = [None; Some (OInt 5)] /\
  ip vm' = 4 /\ sp vm' = 0 /\ stack vm' = stack vm.
Proof.
  intros vm vm'. unfold vm'.
  rewrite (store_fast_then_load_fast (H := Demo.external) 0 Demo.background vm
             (mkLoaded (Samples.scratchCode
                          [Samples.STORE_FAST; 1; Demo.LOAD_FAST; 1]) 0)
             Samples.STORE_FAST Demo.LOAD_FAST 1 0);
    concrete.
Defined.

(** X8 at [StoreGlobal 1; LoadGlobal 1] with 5 on the stack. *)
Lemma store_global_then_load_global_witness :
  let vm := Samples.scratch [Demo.STORE_GLOBAL; 1; Demo.LOAD_GLOBAL; 1] [OInt 5] in
  let vm' := (eval 2 Demo.background vm).2 in
  heap vm' = [[None; Some (OInt 5)]] /\
  ip vm' = 4 /\ sp vm' = 0 /\ stack vm' = stack vm.
Proof.
  intros vm vm'. unfold vm'.
  rewrite (store_global_then_load_global (H := Demo.external) 0 Demo.background vm
             (mkLoaded (Samples.scratchCode
                          [Demo.STORE_GLOBAL; 1; Demo.LOAD_GLOBAL; 1]) 0)
             Demo.STORE_GLOBAL Demo.LOAD_GLOBAL 1 [None; None]);
    concrete.
Defined.

(** X9 at the integer 5, which is truthy. *)
Lemma unary_not_twice_witness :
  let vm := Samples.scratch [Samples.UNARY_NOT; Samples.UNARY_NOT] [OInt 5] in
  let vm' := (eval 2 Demo.background vm).2 in
  TOS vm' = (Some (OBool true), true) /\ ip vm' = 2 /\ sp vm' = 0.
Proof.
  intros vm vm'. unfold vm'.
  rewrite (unary_not_twice (H := Demo.external) 0 Demo.background vm
             (mkLoaded (Samples.scratchCode [Samples.UNARY_NOT; Samples.UNARY_NOT]) 0)
             Samples.UNARY_NOT (OInt 5));
    concrete.
Defined.

(** X10 at the least 64-bit integer. *)
Lemma unary_negative_wraps_witness :
  let vm := Samples.scratch [Samples.UNARY_NEGATIVE] [OInt (- 2 ^ 63)] in
  dispatch (call 0 Demo.background) (loadModule 0 Demo.background)
    Samples.UNARY_NEGATIVE vm
  = (Ret Continue, with_stack (<[0 := OInt (- 2 ^ 63)]> (stack vm)) vm).
Proof.
  intros vm.
  apply (proj1 (proj2 (unary_negative_wraps (H := Demo.external)
                         (call 0 Demo.background) (loadModule 0 Demo.background)
                         Samples.UNARY_NEGATIVE vm (OInt (- 2 ^ 63))
                         ltac:(concrete) ltac:(concrete) ltac:(concrete)))).
  reflexivity.
Defined.

(** X12 at a root code and one child of its tree. *)
Lemma load_child_shares_root_globals_witness :
  exists r vm1 c vm2,
    load (Samples.scratchCode []) (New (Samples.scratchCode [])) = (Ret r, vm1) /\
    load Samples.childCode vm1 = (Ret c, vm2) /\
    compiled c = Samples.childCode /\
    Globals c = Globals r /\
    heap vm2 = heap vm1.
Proof.
  apply (load_child_shares_root_globals (Samples.scratchCode []) Samples.childCode
           (New (Samples.scratchCode []))); concrete.
Defined.

(** X13 at a machine whose main code is loaded and whose global [h] holds 5. *)
Lemma reload_preserves_globals_witness :
  let vm := (eval 2 Demo.background
               (Samples.scratch [Demo.STORE_GLOBAL; 1] [OInt 5])).2 in
  exists vm',
    reload (Samples.scratchCode [Demo.STORE_GLOBAL; 1]) vm
    = (Ret (mkLoaded (Samples.scratchCode [Demo.STORE_GLOBAL; 1]) 1), vm') /\
    loadedCode vm' = {[ 0%nat := 1%nat ]} /\
    heap vm' !! 1%nat = Some [None; Some (OInt 5)] /\
    heap vm' !! 0%nat = Some [None; Some (OInt 5)].
Proof.
  intros vm.
  apply (proj2 (reload_preserves_globals (Samples.scratchCode [Demo.STORE_GLOBAL; 1]) vm)
           0%nat [None; Some (OInt 5)]); concrete.
Defined.

(** X15 at a run that ends normally. *)
Lemma Run_releases_the_latch_witness :
  let vm := New (Examples.loadMain Examples.plainSeven) in
  running (Run 10 Demo.background vm).2 = false.
Proof.
  intros vm.
  apply (proj2 (Run_releases_the_latch (H := Demo.external) 10 Demo.background vm)
           None (Run 10 Demo.background vm).2).
  concrete.
Defined.

(** X16 at a call that returns 7. *)
Lemma callee_hands_registers_back_witness :
  let vm := (Run 10 Demo.background (New (Examples.loadMain Examples.plainSeven))).2 in
  let vm' := (callFunction 10 Demo.background Examples.plainSeven [] vm).2 in
  fp vm' = fp vm /\ ip vm' = ip vm /\ (sp vm' = sp vm \/ sp vm' = sp vm + 1).
Proof.
  intros vm vm'.
  apply (proj1 (callee_hands_registers_back (H := Demo.external) 10 Demo.background vm)
           Examples.plainSeven [] (inl (Some (OInt 7))) vm').
  concrete.
Defined.

(** X17 at a partial of [twoParams] bound to 2, called with 1. *)
Lemma call_partial_appends_bound_args_witness :
  let vm := New (Examples.loadMain Examples.twoParams) in
  let p := mkPartial (Some (OFunction Examples.twoParams)) [Some (OInt 2)] in
  call 5 Demo.background (Some (OPartial p)) [Some (OInt 1)] vm
  = call 4 Demo.background (Some (OFunction Examples.twoParams))
      [Some (OInt 1); Some (OInt 2)]
      (with_tmp (copy_at 0 [Some (OInt 1); Some (OInt 2)] (tmp vm)) vm).
Proof.
  intros vm p.
  apply (proj1 (call_partial_appends_bound_args (H := Demo.external) 4 Demo.background
                  p [Some (OInt 1)] vm)).
  concrete.
Defined.

(** X18 at [Call 2] over [twoParams, 1, 2]. *)
Lemma call_opcode_passes_args_in_push_order_witness :
  let vm := Examples.atOperand [Demo.CALL; 2]
              [OFunction Examples.twoParams; OInt 1; OInt 2] in
  exists vm',
    dispatch (call 0 Demo.background) (loadModule 0 Demo.background) Demo.CALL vm
    = (err <- call 0 Demo.background (Some (OFunction Examples.twoParams))
                [Some (OInt 1); Some (OInt 2)];;
       match err with
       | Some e => ret (Return (Some e))
       | None => ret Continue
       end) vm' /\
    sp vm' = -1 /\ stack vm' = ∅.
Proof.
  intros vm.
  destruct (call_opcode_passes_args_in_push_order (H := Demo.external)
              (call 0 Demo.background) (loadModule 0 Demo.background) Demo.CALL vm
              (mkLoaded (mkCode 0 0 [Demo.CALL; 2] [] [] [] 0 false) 0) 2
              ltac:(concrete) ltac:(concrete) ltac:(concrete) ltac:(concrete)
              ltac:(concrete) ltac:(concrete) ltac:(concrete))
    as (vm' & Hd & Hvm & _).
  exists vm'. split; [exact Hd|]. rewrite Hvm. split; concrete.
Defined.

(** X19 at [Partial 1] over [twoParams, 2]. *)
Lemma partial_opcode_binds_args_in_push_order_witness :
  let vm := Examples.atOperand [Demo.PARTIAL; 1]
              [OFunction Examples.twoParams; OInt 2] in
  let vm' := (dispatch (call 0 Demo.background) (loadModule 0 Demo.background)
                Demo.PARTIAL vm).2 in
  TOS vm' = (Some (OPartial (mkPartial (Some (OFunction Examples.twoParams))
                               [Some (OInt 2)])), true) /\
  sp vm' = 0 /\ stack vm' !! 1 = None.
Proof.
  intros vm vm'. unfold vm'.
  rewrite (partial_opcode_binds_args_in_push_order (H := Demo.external)
             (call 0 Demo.background) (loadModule 0 Demo.background) Demo.PARTIAL vm
             (mkLoaded (mkCode 0 0 [Demo.PARTIAL; 1] [] [] [] 0 false) 0) 1);
    concrete.
Defined.

(** X20 at a named function with one default, called with one argument. *)
Lemma enterFunction_binds_locals_witness :
  f_locals (frameAt (enterFunction Samples.withDefault [Some (OInt 1)]
                       (New (Examples.callMain Samples.withDefault))).2 1)
  = [Some (OInt 1); Some (OInt 9); Some (OFunction Samples.withDefault)].
Proof.
  destruct (enterFunction_binds_locals Samples.withDefault
              [Some (OInt 1)] (New (Examples.callMain Samples.withDefault))
              ltac:(cbn; lia) ltac:(concrete) ltac:(concrete) ltac:(cbn; lia)
              ltac:(concrete))
    as (c & vm' & He & _ & _ & Hlocals & _).
  rewrite He. exact Hlocals.
Defined.

(** X21 at a halted machine and a cancelled context. *)
Lemma call_into_halted_machine_witness :
  let vm := haltStore (New (Examples.callMain Examples.plainSeven)) in
  (callFunction 1 Demo.cancelled Examples.plainSeven [] vm).1
  = Ret (inr "context canceled").
Proof.
  intros vm.
  destruct (proj1 (call_into_halted_machine (H := Demo.external) 0 Demo.cancelled
                     Examples.plainSeven [] vm
                     ltac:(concrete) ltac:(concrete) ltac:(concrete)
                     ltac:(concrete) ltac:(concrete) ltac:(concrete))
              "context canceled" eq_refl)
    as (vm' & Hc & _).
  rewrite Hc. reflexivity.
Defined.

(** X23 inside a call of [plainSeven], entered with one slot in use. *)
Lemma return_value_hands_one_result_back_witness :
  exists vm',
    dispatch (call 0 Demo.background) (loadModule 0 Demo.background)
      Demo.RETURN_VALUE Samples.returning = (Ret (Return None), vm') /\
    sp vm' = 1 /\ stack vm' !! 1 = Some (OInt 7) /\ fp vm' = 0.
Proof.
  destruct (return_value_hands_one_result_back (H := Demo.external)
              (call 0 Demo.background) (loadModule 0 Demo.background)
              Demo.RETURN_VALUE Samples.returning 1
              ltac:(concrete) ltac:(concrete) ltac:(concrete) ltac:(concrete)
              ltac:(concrete) ltac:(concrete))
    as (vm' & Hd & Hfp & _ & _ & _ & Hres).
  vm_compute in Hres. destruct Hres as (Hsp & Htop & _).
  exists vm'. split; [exact Hd|]. split; [exact Hsp|]. split; [exact Htop|exact Hfp].
Defined.

(** X24 after a call of a function of another compilation. *)
Lemma Run_needs_main_among_loaded_witness :
  (Run 5 Demo.background Samples.afterForeignCall).1
  = Ret (Some "panic: main code not loaded").
Proof.
  rewrite (Run_needs_main_among_loaded (H := Demo.external) 5 Demo.background
             Samples.afterForeignCall).
  - reflexivity.
  - intros fn Hin. vm_compute in Hin. inversion Hin.
  - intros Hempty.
    assert (Hl : loadedCode Samples.afterForeignCall !! 7%nat = None)
      by (rewrite Hempty; apply lookup_empty).
    vm_compute in Hl. discriminate Hl.
  - concrete.
Defined.

(** X25 at [FromImport 0 0] with a string on the stack. *)
Lemma from_import_without_parent_witness :
  (dispatch (call 0 Demo.background) (loadModule 0 Demo.background) Demo.FROM_IMPORT
     (Examples.atOperand [Demo.FROM_IMPORT; 0; 0] [OString "m"])).1
  = Panic "runtime error: index out of range [65535] with length 0".
Proof.
  rewrite (from_import_without_parent (H := Demo.external)
             (call 0 Demo.background) (loadModule 0 Demo.background) Demo.FROM_IMPORT
             (Examples.atOperand [Demo.FROM_IMPORT; 0; 0] [OString "m"])
             (mkLoaded (mkCode 0 0 [Demo.FROM_IMPORT; 0; 0] [] [] [] 0 false) 0) "m");
    concrete.
Defined.
